(** * Marketplace application records: creation, update, legacy import

    A shallow embedding of the marketplace application controller
    ([ApplicationController], with [importDepreciatedFields] and
    [importDepreciatedDisplayFields]) and the properties of its
    create / update / migrate / event operations.

    Conventions of the embedding.
    - A JavaScript value of unknown shape (what [JSON.parse] returns, what a
      legacy display configuration holds) is a [JValue]; objects are finite
      maps from property names to values, so that Leibniz equality on
      [JValue] is deep equality ([_.isEqual]).
    - A value with a declared shape is a record.  A sub-object that may be
      missing is an [option] (the code never tells [null] from [undefined]
      there: it only uses [?.], [||] and property access); a scalar that may
      be missing is a [Nullable], because [=== undefined] and [JSON.parse]
      do tell the two apart.  Equality of records is deep equality up to
      this reading: a property that is missing, one that holds [undefined]
      and, for a sub-object, one that holds [null] are one value here.
      [_.isEqual] tells them apart: two records that differ here differ
      for [_.isEqual], and two that are equal here may still differ for it.
      The statements therefore rest on a difference of records only: an
      update is stated to be accepted where the code does not compare.
    - A number that the code counts or stamps with ([stats]) is a double
      that holds an integer, and [Z] stands for it; [++] is the addition of
      doubles, which is exact below 2^53 and rounds from there on.
    - The handlers run in the monad [Action]: a state ([World]: the stores,
      the clock, the random source, the messages sent) and an exception.

    Two components of the frontend follow the controller: the access
    manager of a drive item ([InternalAccess]) and the hook that searches
    the files of the messages ([SearchFiles]). *)

From stdpp Require Import numbers gmap strings list fin_maps sorting.
From Stdlib Require Import ZArith Ascii String Strings.Byte QArith.Qcanon.

Close Scope Qc_scope.
Close Scope Q_scope.

Local Open Scope string_scope.
Local Open Scope Z_scope.
Local Open Scope list_scope.

(** ** JavaScript values *)

#[warnings="-register-all"]
Inductive JValue : Type :=
  | JUndefined
  | JNull
  | JBool (b : bool)
  | JNum (q : Qc)
  | JStr (s : string)
  | JArr (xs : list JValue)
  | JObj (fields : gmap string JValue).

Global Instance JValue_eq_dec : EqDecision JValue.
Proof.
  refine (fix go (a b : JValue) {struct a} : Decision (a = b) :=
    let _ : EqDecision JValue := @go in
    match a, b with
    | JUndefined, JUndefined => left _
    | JNull, JNull => left _
    | JBool x, JBool y => cast_if (decide (x = y))
    | JNum x, JNum y => cast_if (decide (x = y))
    | JStr x, JStr y => cast_if (decide (x = y))
    | JArr x, JArr y => cast_if (decide (x = y))
    | JObj x, JObj y => cast_if (decide (x = y))
    | _, _ => right _
    end); abstract congruence.
Defined.

(** A scalar field that may hold [undefined] or [null]. *)
Inductive Nullable (A : Type) : Type :=
  | Undefined
  | Null
  | Value (a : A).
Arguments Undefined {A}.
Arguments Null {A}.
Arguments Value {A} a.

Global Instance Nullable_eq_dec {A} `{EqDecision A} : EqDecision (Nullable A).
Proof. solve_decision. Defined.

(** [ToBoolean]: what [if (x)], [!x], [x || y] and [x ? a : b] test. *)
Class Truthy (A : Type) := truthy : A → bool.

Global Instance JValue_truthy : Truthy JValue := λ v,
  match v with
  | JUndefined | JNull => false
  | JBool b => b
  | JNum q => negb (bool_decide (q = 0%Qc))
  | JStr s => negb (bool_decide (s = ""))
  | JArr _ | JObj _ => true
  end.

Global Instance bool_truthy : Truthy bool := λ b, b.
Global Instance string_truthy : Truthy string := λ s, negb (bool_decide (s = "")).

Global Instance Nullable_truthy {A} `{Truthy A} : Truthy (Nullable A) := λ x,
  match x with
  | Value a => truthy a
  | _ => false
  end.

(** An object reference is truthy, a missing one is not. *)
Global Instance object_truthy {A} : Truthy (option A) := λ o,
  match o with
  | Some _ => true
  | None => false
  end.

(** [a || b] *)
Definition js_or {A} `{Truthy A} (a b : A) : A := if truthy a then a else b.
Infix "|||" := js_or (at level 50, left associativity).

(** [v?.k]: [undefined] when [v] is [undefined] or [null]; a value that is
    not an object has none of the property names the code reads. *)
Definition prop (v : JValue) (k : string) : JValue :=
  match v with
  | JObj fields => default JUndefined (fields !! k)
  | _ => JUndefined
  end.
Notation "v ?. k" := (prop v k) (at level 8, left associativity, format "v ?. k").

(** [x === undefined] and [x === false] *)
Definition is_undefined {A} (x : Nullable A) : bool :=
  match x with
  | Undefined => true
  | _ => false
  end.

Definition is_false (x : Nullable bool) : bool :=
  match x with
  | Value false => true
  | _ => false
  end.

(** ** Exceptions *)

Inductive Error : Type :=
  | NotFound (msg : string)
  | BadRequest (msg : string)
  | Forbidden (msg : string)
  | TypeError
  | SyntaxError.

Global Instance Error_eq_dec : EqDecision Error.
Proof. solve_decision. Defined.

Inductive Outcome (A : Type) : Type :=
  | Returned (a : A)
  | Thrown (e : Error).
Arguments Returned {A} a.
Arguments Thrown {A} e.

Global Instance Outcome_ret : MRet Outcome := λ A a, Returned a.
Global Instance Outcome_bind : MBind Outcome := λ A B f m,
  match m with
  | Returned a => f a
  | Thrown e => Thrown e
  end.

(** [o.k] for a sub-object [o]: a [TypeError] when [o] is missing. *)
Definition the {A} (o : option A) : Outcome A :=
  match o with
  | Some a => Returned a
  | None => Thrown TypeError
  end.

(** [try { m } catch (e) { h }] *)
Definition try_catch {A} (m : Outcome A) (h : A) : A :=
  match m with
  | Returned a => a
  | Thrown _ => h
  end.

(** The code points of a string.  A string is held as the bytes of its
    UTF-8 text: a code point is a leading byte and the continuation bytes
    that follow it, as many as the leading byte announces.  [current] holds
    the bytes of the code point that is being read, last first, and
    [pending] the number of continuation bytes it still waits for. *)
Definition continuation_bytes (c : ascii) : nat :=
  let n := N_of_ascii c in
  if (n <? 192)%N then 0
  else if (n <? 224)%N then 1
  else if (n <? 240)%N then 2
  else if (n <? 248)%N then 3
  else 0.

Definition is_continuation (c : ascii) : bool :=
  let n := N_of_ascii c in
  ((128 <=? n) && (n <? 192))%N.

Definition code_point (current : list ascii) : list string :=
  match current with
  | [] => []
  | _ :: _ => [string_of_list_ascii (rev current)]
  end.

Fixpoint code_points_from (s : list ascii) (current : list ascii) (pending : nat)
    : list string :=
  match s with
  | [] => code_point current
  | c :: s =>
      match pending with
      | S pending =>
          if is_continuation c
          then code_points_from s (c :: current) pending
          else code_point current ++ code_points_from s [c] (continuation_bytes c)
      | O => code_point current ++ code_points_from s [c] (continuation_bytes c)
      end
  end.

Definition code_points (s : string) : list string :=
  code_points_from (list_ascii_of_string s) [] 0.

(** [[...v]]: an array spreads to its elements, a string to its code
    points, any other truthy value is not iterable. *)
Definition spread (v : JValue) : Outcome (list JValue) :=
  match v with
  | JArr xs => Returned xs
  | JStr s => Returned (JStr <$> code_points s)
  | _ => Thrown TypeError
  end.

(** ** Numbers

    The double that is nearest to an integer within the range of the
    doubles, ties going to the even mantissa: the integer itself below
    2^53, and from there on the nearest multiple of the power of two that
    leaves a mantissa of 53 bits. *)
Definition nearest_double (z : Z) : Z :=
  let a := Z.abs z in
  if a <? 2 ^ 53 then z
  else
    let q := 2 ^ (Z.log2 a - 52) in
    let m := a / q in
    let r := a mod q in
    let m' :=
      if 2 * r <? q then m
      else if q <? 2 * r then m + 1
      else if Z.even m then m else m + 1 in
    Z.sgn z * (m' * q).

(** [x++], for a double [x] that holds an integer: the value it leaves. *)
Definition increment (x : Z) : Z := nearest_double (x + 1).

(** ** The application entity

    Modelled from the spec: the class [Application] (entities/application)
    is declared outside the files at hand.  Its fields are those of the
    spec's data model, under the names and with the sub-fields that the
    controller reads and writes. *)

Record Identity : Type := {
  code : Nullable string;
  name : Nullable string;
  icon : Nullable string;
  description : Nullable string;
  website : Nullable string;
  categories : option (list string);
  compatibility : option (list string);
  repository : Nullable string;
}.

Record Publication : Type := {
  published : Nullable bool;
  requested : Nullable bool;
}.

Record Stats : Type := {
  created_at : Z;
  updated_at : Z;
  version : Z;
}.

Record Api : Type := {
  hooks_url : Nullable string;
  allowed_ips : Nullable string;
  private_key : Nullable string;
}.

(** The capability lists hold whatever [JSON.parse] gave. *)
Record Access : Type := {
  read : JValue;
  write : JValue;
  delete : JValue;
  hooks : JValue;
}.

(** [display.twake.tab] and [display.twake.standalone]:
    [{ url } | boolean]. *)
Inductive UrlBinding : Type :=
  | UrlObject (url : JValue)
  | UrlFlag (b : bool).

(** [display.twake.direct]: [{ name, icon } | boolean]. *)
Inductive DirectBinding : Type :=
  | DirectObject (direct_name direct_icon : Nullable string)
  | DirectFlag (b : bool).

Global Instance UrlBinding_truthy : Truthy UrlBinding := λ x,
  match x with
  | UrlObject _ => true
  | UrlFlag b => b
  end.

Global Instance DirectBinding_truthy : Truthy DirectBinding := λ x,
  match x with
  | DirectObject _ _ => true
  | DirectFlag b => b
  end.

Record FilesEditor : Type := {
  preview_url : JValue;
  edition_url : JValue;
  extensions : list JValue;
  empty_files : JValue;
}.

Record Files : Type := {
  editor : option FilesEditor;
  files_actions : list JValue;
}.

Record ChatInput : Type := { input_icon : Nullable string }.

Record ChatAction : Type := {
  action_name : JValue;
  action_id : string;
}.

Record Chat : Type := {
  input : option ChatInput;
  commands : JValue;
  chat_actions : option (list ChatAction);
}.

Record Twake : Type := {
  tab : option UrlBinding;
  standalone : option UrlBinding;
  configuration : option (list string);
  direct : option DirectBinding;
  files : option Files;
  chat : option Chat;
}.

Record Display : Type := { twake : option Twake }.

Record Application : Type := {
  id : option string;
  company_id : Nullable string;
  is_default : Nullable bool;
  identity : option Identity;
  publication : option Publication;
  stats : option Stats;
  api : option Api;
  access : option Access;
  display : option Display;
}.

Global Instance Identity_eq_dec : EqDecision Identity.
Proof. solve_decision. Defined.
Global Instance Publication_eq_dec : EqDecision Publication.
Proof. solve_decision. Defined.
Global Instance Stats_eq_dec : EqDecision Stats.
Proof. solve_decision. Defined.
Global Instance Api_eq_dec : EqDecision Api.
Proof. solve_decision. Defined.
Global Instance Access_eq_dec : EqDecision Access.
Proof. solve_decision. Defined.
Global Instance UrlBinding_eq_dec : EqDecision UrlBinding.
Proof. solve_decision. Defined.
Global Instance DirectBinding_eq_dec : EqDecision DirectBinding.
Proof. solve_decision. Defined.
Global Instance FilesEditor_eq_dec : EqDecision FilesEditor.
Proof. solve_decision. Defined.
Global Instance Files_eq_dec : EqDecision Files.
Proof. solve_decision. Defined.
Global Instance ChatInput_eq_dec : EqDecision ChatInput.
Proof. solve_decision. Defined.
Global Instance ChatAction_eq_dec : EqDecision ChatAction.
Proof. solve_decision. Defined.
Global Instance Chat_eq_dec : EqDecision Chat.
Proof. solve_decision. Defined.
Global Instance Twake_eq_dec : EqDecision Twake.
Proof. solve_decision. Defined.
Global Instance Display_eq_dec : EqDecision Display.
Proof. solve_decision. Defined.
Global Instance Application_eq_dec : EqDecision Application.
Proof. solve_decision. Defined.

(** Modelled from the spec: [new Application()].  The constructor is
    outside the files at hand; the importer fills every field of the new
    instance under the test that the field is not there yet, so the
    instance starts with none. *)
Definition new_Application : Application := {|
  id := None;
  company_id := Undefined;
  is_default := Undefined;
  identity := None;
  publication := None;
  stats := None;
  api := None;
  access := None;
  display := None;
|}.

(** ** The legacy entity

    Modelled from the spec: the class [PhpApplication]
    (entities/php-application-entity) is declared outside the files at hand
    as well.  These are the flat columns of the spec's legacy record, under
    the names the importer reads them by; [php_id] and [php_is_default] are
    its [id] and [is_default]. *)

Record PhpApplication : Type := {
  php_id : string;
  group_id : Nullable string;
  php_is_default : Nullable bool;
  depreciated_simple_name : Nullable string;
  depreciated_name : Nullable string;
  depreciated_icon_url : Nullable string;
  depreciated_description : Nullable string;
  depreciated_is_available_to_public : Nullable bool;
  depreciated_public : Nullable bool;
  depreciated_twake_team_validation : Nullable bool;
  depreciated_api_events_url : Nullable string;
  depreciated_api_allowed_ip : Nullable string;
  depreciated_api_private_key : Nullable string;
  depreciated_capabilities : Nullable string;
  depreciated_privileges : Nullable string;
  depreciated_hooks : Nullable string;
  depreciated_display_configuration : Nullable string;
}.

(** ** The legacy display configuration *)

Definition empty_twake : Twake := {|
  tab := None;
  standalone := None;
  configuration := None;
  direct := None;
  files := None;
  chat := None;
|}.

Definition JArr_empty : JValue := JArr [].

Definition importDepreciatedDisplayFields
    (application : Application) (depreciatedDisplay : JValue) : Outcome Display :=
  (* display = application.display, given a twake object when it has none *)
  let twake0 : Twake :=
    match display application with
    | Some {| twake := Some t |} => t
    | _ => empty_twake
    end in
  let tab' :=
    if truthy (depreciatedDisplay?."channel_tab")
    then Some (UrlObject (depreciatedDisplay?."channel_tab"?."iframe") ||| UrlFlag true)
    else None in
  let standalone' :=
    if truthy (depreciatedDisplay?."app")
    then Some (UrlObject (depreciatedDisplay?."app"?."iframe") ||| UrlFlag true)
    else None in
  let configuration' : list string := [] in
  let configuration' :=
    if truthy (depreciatedDisplay?."configuration"?."can_configure_in_workspace")
    then configuration' ++ ["global"]
    else configuration' in
  let configuration' :=
    if truthy (depreciatedDisplay?."configuration"?."can_configure_in_channel")
    then configuration' ++ ["channel"]
    else configuration' in
  direct' ←
    (if truthy (depreciatedDisplay?."member_app")
     then idn ← the (identity application);
          mret (Some (DirectObject (name idn) (icon idn) ||| DirectFlag true))
     else mret None);
  files' ←
    (if truthy (depreciatedDisplay?."drive_module")
     then
       let can_open_files := depreciatedDisplay?."drive_module"?."can_open_files" in
       main_ext ← spread (can_open_files?."main_ext" ||| JArr_empty);
       other_ext ← spread (can_open_files?."other_ext" ||| JArr_empty);
       mret (Some {|
         editor := Some {|
           preview_url := can_open_files?."preview_url";
           edition_url := can_open_files?."url";
           extensions := main_ext ++ other_ext;
           empty_files :=
             depreciatedDisplay?."drive_module"?."can_create_files" ||| JArr_empty;
         |};
         files_actions := [];
       |})
     else mret (files twake0));
  chat' ←
    (if truthy (depreciatedDisplay?."messages_module")
     then
       let messages_module := depreciatedDisplay?."messages_module" in
       input' ←
         (if truthy (messages_module?."in_plus" ||| messages_module?."right_icon")
          then idn ← the (identity application);
               mret (Some {| input_icon := icon idn |})
          else mret None);
       mret (Some {|
         input := input';
         commands := messages_module?."commands" ||| JUndefined;
         chat_actions :=
           if truthy (messages_module?."action")
           then Some [ {| action_name := messages_module?."action"?."description";
                          action_id := "default" |} ]
           else None;
       |})
     else mret (chat twake0));
  mret {| twake := Some {|
    tab := tab';
    standalone := standalone';
    configuration := Some configuration';
    direct := direct';
    files := files';
    chat := chat';
  |} |}.

(** ** The world the handlers run in *)

Record CompanyUser : Type := { role : string }.

(** The body posted to the plugin registrar. *)
Record PluginPost : Type := {
  post_url : string;
  gitRepo : string;
  pluginId : option string;
  pluginSecret : Nullable string;
}.

(** The arguments of [hooks.notifyApp]. *)
Record HookCall : Type := {
  hook_application_id : string;
  hook_connection_id : Nullable string;
  hook_user_id : string;
  hook_type : Nullable string;
  hook_name : Nullable string;
  hook_content : JValue;
  hook_company_id : string;
  hook_workspace_id : Nullable string;
}.

Record World : Type := {
  (* the application repository behind [marketplaceApps] *)
  applications : gmap string Application;
  (* the legacy repository, as the pages its cursor yields *)
  php_applications : list (list PhpApplication);
  (* company memberships, by (company id, user id) *)
  company_users : gmap (string * string) CompanyUser;
  (* installations, as (company id, application id) *)
  company_applications : gset (string * string);
  (* the readings of the system clock, and how many were taken *)
  clock : nat → Z;
  ticks : nat;
  (* the bytes of the random source, and how many were drawn *)
  entropy : nat → byte;
  drawn : nat;
  (* [config.get("plugins.api")] *)
  plugins_api : string;
  (* what was posted to the plugin registrar, latest first *)
  plugin_posts : list PluginPost;
  (* the applications notified, latest first, and what they answer *)
  notifications : list HookCall;
  hook_response : HookCall → JValue;
}.

Definition with_applications (apps : gmap string Application) (w : World) : World := {|
  applications := apps;
  php_applications := php_applications w;
  company_users := company_users w;
  company_applications := company_applications w;
  clock := clock w;
  ticks := ticks w;
  entropy := entropy w;
  drawn := drawn w;
  plugins_api := plugins_api w;
  plugin_posts := plugin_posts w;
  notifications := notifications w;
  hook_response := hook_response w;
|}.

Definition with_ticks (n : nat) (w : World) : World := {|
  applications := applications w;
  php_applications := php_applications w;
  company_users := company_users w;
  company_applications := company_applications w;
  clock := clock w;
  ticks := n;
  entropy := entropy w;
  drawn := drawn w;
  plugins_api := plugins_api w;
  plugin_posts := plugin_posts w;
  notifications := notifications w;
  hook_response := hook_response w;
|}.

Definition with_drawn (n : nat) (w : World) : World := {|
  applications := applications w;
  php_applications := php_applications w;
  company_users := company_users w;
  company_applications := company_applications w;
  clock := clock w;
  ticks := ticks w;
  entropy := entropy w;
  drawn := n;
  plugins_api := plugins_api w;
  plugin_posts := plugin_posts w;
  notifications := notifications w;
  hook_response := hook_response w;
|}.

Definition with_plugin_posts (ps : list PluginPost) (w : World) : World := {|
  applications := applications w;
  php_applications := php_applications w;
  company_users := company_users w;
  company_applications := company_applications w;
  clock := clock w;
  ticks := ticks w;
  entropy := entropy w;
  drawn := drawn w;
  plugins_api := plugins_api w;
  plugin_posts := ps;
  notifications := notifications w;
  hook_response := hook_response w;
|}.

Definition with_notifications (ns : list HookCall) (w : World) : World := {|
  applications := applications w;
  php_applications := php_applications w;
  company_users := company_users w;
  company_applications := company_applications w;
  clock := clock w;
  ticks := ticks w;
  entropy := entropy w;
  drawn := drawn w;
  plugins_api := plugins_api w;
  plugin_posts := plugin_posts w;
  notifications := ns;
  hook_response := hook_response w;
|}.

(** An asynchronous handler: it changes the world and returns or throws. *)
Definition Action (A : Type) : Type := World → World * Outcome A.

Global Instance Action_ret : MRet Action := λ A a w, (w, Returned a).
Global Instance Action_bind : MBind Action := λ A B f m w,
  match m w with
  | (w', Returned a) => f a w'
  | (w', Thrown e) => (w', Thrown e)
  end.

Definition throw {A} (e : Error) : Action A := λ w, (w, Thrown e).

(** A computation that does not touch the world. *)
Definition pure {A} (o : Outcome A) : Action A := λ w, (w, o).

(** [Date.now()], [new Date().getTime()] *)
Definition Date_now : Action Z := λ w,
  (with_ticks (S (ticks w)) w, Returned (clock w (ticks w))).

(** [randomBytes(n)] *)
Definition randomBytes (n : nat) : Action (list byte) := λ w,
  (with_drawn (drawn w + n) w, Returned (entropy w <$> seq (drawn w) n)).

(** A promise is an action that has not been awaited; as an object it is
    truthy whatever it will resolve to. *)
Inductive Promise (A : Type) : Type :=
  | Pending (run : Action A).
Arguments Pending {A} run.

Definition await {A} (p : Promise A) : Action A :=
  match p with
  | Pending run => run
  end.

Global Instance Promise_truthy {A} : Truthy (Promise A) := λ _, true.

(** ** The platform

    [JSON.parse] and [String.prototype.toLocaleLowerCase] are the
    platform's; the handlers are verified for any implementation of them.
    [JSON_parse s = None] stands for the [SyntaxError] thrown on a text that
    is not JSON. *)
Class Runtime : Type := {
  JSON_parse : string → option JValue;
  toLocaleLowerCase : string → string;
}.

(** [JSON.parse(text)] on a column that may be missing: the argument is
    converted to a string first, so [undefined] is no JSON text and [null]
    parses to [null]. *)
Definition JSON_parse_column `{Runtime} (text : Nullable string) : Outcome JValue :=
  match text with
  | Undefined => Thrown SyntaxError
  | Null => Returned JNull
  | Value s =>
      match JSON_parse s with
      | Some v => Returned v
      | None => Thrown SyntaxError
      end
  end.

(** [text || fallback] for a string column and a string literal. *)
Definition or_text (text : Nullable string) (fallback : string) : string :=
  match text with
  | Value s => if truthy s then s else fallback
  | _ => fallback
  end.

(** [a && b] *)
Definition js_and {A} `{Truthy A} (a b : A) : A := if truthy a then b else a.

(** [o?.f] for a sub-object [o] and a scalar field [f]. *)
Definition chain {A B} (o : option A) (f : A → Nullable B) : Nullable B :=
  match o with
  | Some a => f a
  | None => Undefined
  end.

(** [o?.f] for a field [f] that holds a [JValue]. *)
Definition chain_value {A} (o : option A) (f : A → JValue) : JValue :=
  match o with
  | Some a => f a
  | None => JUndefined
  end.

Global Instance Z_truthy : Truthy Z := λ z, negb (z =? 0).

(** ** Assignments to the fields of an application *)

Definition with_id (v : option string) (e : Application) : Application := {|
  id := v;
  company_id := company_id e;
  is_default := is_default e;
  identity := identity e;
  publication := publication e;
  stats := stats e;
  api := api e;
  access := access e;
  display := display e;
|}.

Definition with_company_id (v : Nullable string) (e : Application) : Application := {|
  id := id e;
  company_id := v;
  is_default := is_default e;
  identity := identity e;
  publication := publication e;
  stats := stats e;
  api := api e;
  access := access e;
  display := display e;
|}.

Definition with_is_default (v : Nullable bool) (e : Application) : Application := {|
  id := id e;
  company_id := company_id e;
  is_default := v;
  identity := identity e;
  publication := publication e;
  stats := stats e;
  api := api e;
  access := access e;
  display := display e;
|}.

Definition with_identity (v : option Identity) (e : Application) : Application := {|
  id := id e;
  company_id := company_id e;
  is_default := is_default e;
  identity := v;
  publication := publication e;
  stats := stats e;
  api := api e;
  access := access e;
  display := display e;
|}.

Definition with_publication (v : option Publication) (e : Application) : Application := {|
  id := id e;
  company_id := company_id e;
  is_default := is_default e;
  identity := identity e;
  publication := v;
  stats := stats e;
  api := api e;
  access := access e;
  display := display e;
|}.

Definition with_stats (v : option Stats) (e : Application) : Application := {|
  id := id e;
  company_id := company_id e;
  is_default := is_default e;
  identity := identity e;
  publication := publication e;
  stats := v;
  api := api e;
  access := access e;
  display := display e;
|}.

Definition with_api (v : option Api) (e : Application) : Application := {|
  id := id e;
  company_id := company_id e;
  is_default := is_default e;
  identity := identity e;
  publication := publication e;
  stats := stats e;
  api := v;
  access := access e;
  display := display e;
|}.

Definition with_access (v : option Access) (e : Application) : Application := {|
  id := id e;
  company_id := company_id e;
  is_default := is_default e;
  identity := identity e;
  publication := publication e;
  stats := stats e;
  api := api e;
  access := v;
  display := display e;
|}.

Definition with_display (v : option Display) (e : Application) : Application := {|
  id := id e;
  company_id := company_id e;
  is_default := is_default e;
  identity := identity e;
  publication := publication e;
  stats := stats e;
  api := api e;
  access := access e;
  display := v;
|}.

(** ** The importer of legacy records *)

Section Importer.
Context `{Runtime}.

(** [JSON.parse(text || "[]") || []] *)
Definition parse_capabilities (text : Nullable string) : Outcome JValue :=
  parsed ← JSON_parse_column (Value (or_text text "[]"));
  mret (parsed ||| JArr_empty).

Definition importDepreciatedFields (application : PhpApplication) : Action Application :=
  let newApplication := new_Application in
  let newApplication := with_id (Some (php_id application)) newApplication in
  let newApplication := with_company_id (group_id application) newApplication in
  let newApplication := with_is_default (php_is_default application) newApplication in
  let newApplication :=
    if negb (truthy (chain (identity newApplication) name))
    then with_identity (Some {|
           code :=
             depreciated_simple_name application
             ||| Value (toLocaleLowerCase (or_text (depreciated_name application) ""));
           name := depreciated_name application;
           icon := depreciated_icon_url application;
           description := depreciated_description application;
           website := Value "http://twake.app/";
           categories := Some [];
           compatibility := Some ["twake"];
           repository := Undefined;
         |}) newApplication
    else newApplication in
  let newApplication :=
    if is_undefined (chain (publication newApplication) published)
    then with_publication (Some {|
           published := depreciated_is_available_to_public application;
           requested :=
             js_and (depreciated_public application)
                    (Value (negb (truthy (depreciated_twake_team_validation application))));
         |}) newApplication
    else newApplication in
  newApplication ←
    (if negb (truthy (chain (stats newApplication) (λ s, Value (version s))))
     then
       created ← Date_now;
       updated ← Date_now;
       mret (with_stats (Some {|
         created_at := created;
         updated_at := updated;
         version := 1;
       |}) newApplication)
     else mret newApplication);
  let newApplication :=
    if negb (truthy (chain (api newApplication) private_key))
    then with_api (Some {|
           hooks_url := depreciated_api_events_url application;
           allowed_ips := depreciated_api_allowed_ip application;
           private_key := depreciated_api_private_key application;
         |}) newApplication
    else newApplication in
  let newApplication :=
    if bool_decide (chain_value (access newApplication) write = JUndefined)
    then
      let '(write', delete') :=
        try_catch
          (w ← parse_capabilities (depreciated_capabilities application);
           d ← parse_capabilities (depreciated_capabilities application);
           mret (w, d))
          (JArr_empty, JArr_empty) in
      let read' :=
        try_catch (parse_capabilities (depreciated_privileges application)) JArr_empty in
      let hooks' :=
        try_catch (parse_capabilities (depreciated_hooks application)) JArr_empty in
      with_access (Some {|
        read := read';
        write := write';
        delete := delete';
        hooks := hooks';
      |}) newApplication
    else newApplication in
  depreciatedDisplay ←
    pure (JSON_parse_column (depreciated_display_configuration application));
  display' ← pure (importDepreciatedDisplayFields newApplication depreciatedDisplay);
  mret (with_display (Some display') newApplication).

End Importer.

(** ** Base64, as [Buffer.toString("base64")] writes it *)

Definition base64_alphabet : string :=
  "ABCDEFGHIJKLMNOPQRSTUVWXYZabcdefghijklmnopqrstuvwxyz0123456789+/".

Definition base64_digit (n : N) : ascii :=
  default "="%char (list_ascii_of_string base64_alphabet !! N.to_nat (N.land n 63)).

Fixpoint base64 (bytes : list byte) : string :=
  match bytes with
  | [] => ""
  | [a] =>
      let n := N.shiftl (Byte.to_N a) 16 in
      String (base64_digit (N.shiftr n 18))
        (String (base64_digit (N.shiftr n 12)) "==")
  | [a; b] =>
      let n := N.lor (N.shiftl (Byte.to_N a) 16) (N.shiftl (Byte.to_N b) 8) in
      String (base64_digit (N.shiftr n 18))
        (String (base64_digit (N.shiftr n 12))
          (String (base64_digit (N.shiftr n 6)) "="))
  | a :: b :: c :: rest =>
      let n :=
        N.lor (N.lor (N.shiftl (Byte.to_N a) 16) (N.shiftl (Byte.to_N b) 8))
              (Byte.to_N c) in
      String (base64_digit (N.shiftr n 18))
        (String (base64_digit (N.shiftr n 12))
          (String (base64_digit (N.shiftr n 6))
            (String (base64_digit n) (base64 rest))))
  end.

(** ** The collaborators *)

(** Modelled from the spec: the [marketplaceApps] service and the
    repository behind it are outside the files at hand.  [get(id)] gives the
    stored record or nothing; [save(record)] stores the record under its id
    and returns it as stored, and the store gives an id that is not in use
    to a record that has none. *)
Definition marketplaceApps_get (application_id : string) : Action (option Application) :=
  λ w, (w, Returned (applications w !! application_id)).

Definition marketplaceApps_save (entity : Application) : Action Application := λ w,
  let key :=
    match id entity with
    | Some key => key
    | None => fresh (dom (applications w))
    end in
  let entity := with_id (Some key) entity in
  (with_applications (<[key := entity]> (applications w)) w, Returned entity).

Definition marketplaceApps_delete (application_id : string) : Action bool := λ w,
  (with_applications (base.delete application_id (applications w)) w,
   Returned (bool_decide (is_Some (applications w !! application_id)))).

Definition repository_findOne (application_id : string) : Action (option Application) :=
  marketplaceApps_get application_id.

(** Modelled from the spec: the legacy repository is outside the files at
    hand.  [find] is given a cursor and returns the records of the page
    there and the cursor of the next page, whose token is empty when the
    page was the last one.  A cursor is the list of the pages that remain. *)
Definition Pagination : Type := list (list PhpApplication).

Definition page_token (page : Pagination) : bool :=
  match page with
  | [] => false
  | _ :: _ => true
  end.

Definition phpRepository_find (page : Pagination) : list PhpApplication * Pagination :=
  match page with
  | [] => ([], [])
  | entities :: nextPage => (entities, nextPage)
  end.

(** Modelled from the spec: the membership of a user in a company
    ([companies.getCompanyUser]); the call returns a promise. *)
Definition getCompanyUser (company : Nullable string) (user : string)
    : Promise (option CompanyUser) :=
  Pending (λ w,
    (w, Returned
          match company with
          | Value company => company_users w !! (company, user)
          | _ => None
          end)).

(** Modelled from the spec: the installation of an application in a company
    ([companyApps.get]). *)
Definition companyApps_get (company application_id : string) : Action (option (string * string)) :=
  λ w,
    (w, Returned
          (if bool_decide ((company, application_id) ∈ company_applications w)
           then Some (company, application_id)
           else None)).

(** Modelled from the spec: [hooks.notifyApp] delivers the event to the
    application and returns its answer. *)
Definition notifyApp (call : HookCall) : Action JValue := λ w,
  (with_notifications (call :: notifications w) w, Returned (hook_response w call)).

(** [axios.post(url, body)], not awaited: the request is sent and its
    answer is only logged. *)
Definition axios_post (post : PluginPost) : Action unit := λ w,
  (with_plugin_posts (post :: plugin_posts w) w, Returned tt).

(** Modelled from the spec: [entity.getApplicationObject()] is the
    administrator's view, the full record. *)
Definition getApplicationObject (entity : Application) : Application := entity.

(** ** The controller *)

(** The body of an event request ([ApplicationEventRequestBody], declared
    outside the files at hand), with the fields the handler reads. *)
Record ApplicationEventRequestBody : Type := {
  body_company_id : string;
  body_workspace_id : Nullable string;
  body_connection_id : Nullable string;
  body_type : Nullable string;
  body_name : Nullable string;
  body_data : JValue;
}.

(** [_.pick(x, "identity", "api", "access", "display")], up to the reading
    of a missing sub-object: records that differ here differ for
    [_.isEqual]. *)
Definition pick (x : Application)
    : option Identity * option Api * option Access * option Display :=
  (identity x, api x, access x, display x).

(** [_.isEqual] *)
Definition isEqual {A} `{EqDecision A} (a b : A) : bool := bool_decide (a = b).

Module ApplicationController.

Section Handlers.
Context `{Runtime}.

(** The update branch of [save]: [request.params.application_id] is set. *)
Definition save_update (now : Z) (application_id : string) (app : Application)
    : Action Application :=
  entity ← marketplaceApps_get application_id;
  match entity with
  | None => throw (NotFound "Application not found")
  | Some entity =>
      app_publication ← pure (the (publication app));
      entity_publication ← pure (the (publication entity));
      let entity_publication := {|
        published := published entity_publication;
        requested := requested app_publication;
      |} in
      let entity_publication :=
        if is_false (requested app_publication)
        then {| published := Value false; requested := requested entity_publication |}
        else entity_publication in
      let entity := with_publication (Some entity_publication) entity in
      _ ← (if truthy (published entity_publication)
           then
             if negb (isEqual (pick entity) (pick app))
             then throw (BadRequest "You can't update applications details while it published")
             else mret tt
           else mret tt);
      let entity := with_identity (identity app) entity in
      app_api ← pure (the (api app));
      entity_api ← pure (the (api entity));
      let entity_api := {|
        hooks_url := hooks_url app_api;
        allowed_ips := allowed_ips entity_api;
        private_key := private_key entity_api;
      |} in
      let entity_api := {|
        hooks_url := hooks_url entity_api;
        allowed_ips := allowed_ips app_api;
        private_key := private_key entity_api;
      |} in
      let entity := with_api (Some entity_api) entity in
      let entity := with_access (access app) entity in
      let entity := with_display (display app) entity in
      entity_stats ← pure (the (stats entity));
      let entity_stats := {|
        created_at := created_at entity_stats;
        updated_at := now;
        version := increment (version entity_stats);
      |} in
      let entity := with_stats (Some entity_stats) entity in
      marketplaceApps_save entity
  end.

(** The insert branch of [save].  It returns the draft as assigned to and
    the entity the store returned. *)
Definition save_insert (now : Z) (app : Application) : Action (Application * Application) :=
  let app := with_is_default (Value false) app in
  app_publication ← pure (the (publication app));
  let app := with_publication (Some {|
    published := Value false;
    requested := requested app_publication;
  |}) app in
  (* the bytes are drawn before the assignment finds [app.api] missing *)
  secret ← randomBytes 32;
  app_api ← pure (the (api app));
  let app := with_api (Some {|
    hooks_url := hooks_url app_api;
    allowed_ips := allowed_ips app_api;
    private_key := Value (base64 secret);
  |}) app in
  let app := with_stats (Some {|
    created_at := now;
    updated_at := now;
    version := 0;
  |}) app in
  entity ← marketplaceApps_save app;
  mret (app, entity).

(** The end of [save], under its comment SYNC PLUGINS: [app] is the
    request's resource, [entity] the entity the store returned. *)
Definition sync_plugins (pluginsEndpoint : string) (app entity : Application)
    : Action unit :=
  app_identity ← pure (the (identity app));
  if truthy (repository app_identity)
  then
    (* a failure inside the [try] block is caught and printed *)
    match api (getApplicationObject entity) with
    | Some entity_api =>
        axios_post {|
          post_url := pluginsEndpoint +:+ "/add";
          gitRepo := or_text (repository app_identity) "";
          pluginId := id (getApplicationObject entity);
          pluginSecret := private_key entity_api;
        |}
    | None => mret tt
    end
  else mret tt.

(** [save]; its [catch] logs the error and throws it again. *)
Definition save (application_id : Nullable string) (app : Application)
    : Action Application :=
  now ← Date_now;
  pluginsEndpoint ← (λ w, (w, Returned (plugins_api w))) : Action string;
  '(app, entity) ←
    (if truthy application_id
     then entity ← save_update now (or_text application_id "") app; mret (app, entity)
     else save_insert now app);
  _ ← sync_plugins pluginsEndpoint app entity;
  mret (getApplicationObject entity).

(** One turn of the loop over a page of legacy records. *)
Definition migrate_one (replaceExisting : bool)
    (entities : list Application) (application : PhpApplication)
    : Action (list Application) :=
  existing ← repository_findOne (php_id application);
  if negb (truthy existing) || replaceExisting
  then
    newApplication ← importDepreciatedFields application;
    entity ← marketplaceApps_save newApplication;
    mret (entities ++ [entity])
  else mret entities.

Fixpoint migrate_each (replaceExisting : bool)
    (entities : list Application) (page : list PhpApplication)
    : Action (list Application) :=
  match page with
  | [] => mret entities
  | application :: page =>
      entities ← migrate_one replaceExisting entities application;
      migrate_each replaceExisting entities page
  end.

(** [do { ... } while (page.page_token)]: [first] and [nextPage] are what
    [find] returned for the current cursor.  The loop goes on while
    [page_token nextPage] holds, that is while pages remain; the next [find]
    then returns the head and the tail of [nextPage]. *)
Fixpoint migrate_pages (replaceExisting : bool)
    (first : list PhpApplication) (nextPage : Pagination)
    (entities : list Application) : Action (list Application) :=
  entities ← migrate_each replaceExisting entities first;
  match nextPage with
  | [] => mret entities
  | second :: nextPage => migrate_pages replaceExisting second nextPage entities
  end.

(** [migrate]; its [catch] logs the error and throws it again. *)
Definition migrate : Action (list Application) := λ w,
  let replaceExisting := true in
  let '(first, nextPage) := phpRepository_find (php_applications w) in
  migrate_pages replaceExisting first nextPage [] w.

Definition event (application_id : string) (body : ApplicationEventRequestBody)
    (user : string) : Action JValue :=
  let content := body_data body in
  applicationEntity ← marketplaceApps_get application_id;
  if negb (truthy applicationEntity)
  then throw (NotFound "Application not found")
  else
    let companyUser := getCompanyUser (Value (body_company_id body)) user in
    if negb (truthy companyUser)
    then throw (BadRequest "You cannot send event to an application from another company")
    else
      applicationInCompany ← companyApps_get (body_company_id body) application_id;
      if negb (truthy applicationInCompany)
      then throw (BadRequest "Application isn't installed in this company")
      else
        notifyApp {|
          hook_application_id := application_id;
          hook_connection_id := body_connection_id body;
          hook_user_id := user;
          hook_type := body_type body;
          hook_name := body_name body;
          hook_content := content;
          hook_company_id := body_company_id body;
          hook_workspace_id := body_workspace_id body;
        |}.

(** [hasCompanyAdminLevel] (utils/company) is outside the files at hand and
    is a parameter here. *)
Definition delete (hasCompanyAdminLevel : string → bool)
    (application_id : string) (user : string) : Action string :=
  application ← marketplaceApps_get application_id;
  application ← pure (the application);
  compUser ← await (getCompanyUser (company_id application) user);
  if negb (truthy compUser)
     || negb (from_option (λ u, hasCompanyAdminLevel (role u)) false compUser)
  then throw (Forbidden "You don't have the rights to delete this application")
  else
    deleted ← marketplaceApps_delete application_id;
    mret (if deleted : bool then "success" else "error").

(** [getPublicObject] (entities/application) is outside the files at hand
    and is a parameter here, and so is the type of the view it returns.
    [isAdmin] is [companyUser && companyUser.role == "admin"], as the
    conditional tests it. *)
Definition get {PublicApplicationObject : Type}
    (getPublicObject : Application → PublicApplicationObject)
    (application_id : string) (user : string)
    : Action (Application + PublicApplicationObject) :=
  entity ← marketplaceApps_get application_id;
  entity ← pure (the entity);
  companyUser ← await (getCompanyUser (company_id entity) user);
  let isAdmin :=
    match companyUser with
    | Some companyUser => bool_decide (role companyUser = "admin")
    | None => false
    end in
  mret (if isAdmin
        then inl (getApplicationObject entity)
        else inr (getPublicObject entity)).

End Handlers.

End ApplicationController.

(** ** A runtime to compute with

    A parser of JSON texts (ECMA-404, as [JSON.parse] reads them: no
    reviver) and a lower-casing of the ASCII letters, so that the handlers
    can be run on concrete records.  Numbers are parsed to the rational
    their digits denote; an escaped code point outside ASCII is written in
    UTF-8. *)

Module Node.

Definition digit_of (c : ascii) : option Z :=
  let n := Z.of_N (N_of_ascii c) in
  if (48 <=? n) && (n <=? 57) then Some (n - 48) else None.

Definition hex_of (c : ascii) : option N :=
  let n := N_of_ascii c in
  if ((48 <=? n) && (n <=? 57))%N then Some (n - 48)%N
  else if ((65 <=? n) && (n <=? 70))%N then Some (n - 55)%N
  else if ((97 <=? n) && (n <=? 102))%N then Some (n - 87)%N
  else None.

Definition is_ws (c : ascii) : bool :=
  match N_of_ascii c with
  | 32%N | 9%N | 10%N | 13%N => true
  | _ => false
  end.

Fixpoint skip_ws (s : list ascii) : list ascii :=
  match s with
  | c :: r => if is_ws c then skip_ws r else s
  | [] => []
  end.

(** The digits at the head of [s]: their number, how many, and the rest. *)
Fixpoint digits (s : list ascii) (acc : Z) (n : nat) : Z * nat * list ascii :=
  match s with
  | c :: r =>
      match digit_of c with
      | Some d => digits r (10 * acc + d) (S n)
      | None => (acc, n, s)
      end
  | [] => (acc, n, s)
  end.

(** [m * 10 ^ e] *)
Definition decimal (m e : Z) : Qc :=
  if 0 <=? e then Q2Qc (QArith_base.inject_Z (m * 10 ^ e))
  else Q2Qc (QArith_base.Qmake m (Z.to_pos (10 ^ (- e)))).

(** A number: an optional minus sign, an integer part with no leading
    zero, an optional fraction and an optional exponent. *)
Definition parse_number (s : list ascii) : option (JValue * list ascii) :=
  let '(negative, s) :=
    match s with
    | c :: r => if (N_of_ascii c =? 45)%N then (true, r) else (false, s)
    | [] => (false, s)
    end in
  let '(int, int_len, after_int) := digits s 0 0%nat in
  let leading_zero :=
    match s with
    | c :: _ => (N_of_ascii c =? 48)%N
    | [] => false
    end in
  if (int_len =? 0)%nat || (leading_zero && negb (int_len =? 1)%nat) then None
  else
    frac ←
      match after_int with
      | c :: r =>
          if (N_of_ascii c =? 46)%N
          then
            let '(m, n, r') := digits r int 0%nat in
            if (n =? 0)%nat then None else Some (m, n, r')
          else Some (int, 0%nat, after_int)
      | [] => Some (int, 0%nat, after_int)
      end;
    let '(mantissa, frac_len, after_frac) := frac in
    expo ←
      match after_frac with
      | c :: r =>
          if (N_of_ascii c =? 101)%N || (N_of_ascii c =? 69)%N
          then
            let '(minus, r) :=
              match r with
              | c' :: r' =>
                  if (N_of_ascii c' =? 45)%N then (true, r')
                  else if (N_of_ascii c' =? 43)%N then (false, r')
                  else (false, r)
              | [] => (false, r)
              end in
            let '(e, n, r') := digits r 0 0%nat in
            if (n =? 0)%nat then None else Some (if minus then - e else e, r')
          else Some (0, after_frac)
      | [] => Some (0, after_frac)
      end;
    let '(e, rest) := expo in
    let m := if negative then - mantissa else mantissa in
    Some (JNum (decimal m (e - Z.of_nat frac_len)), rest).

(** The UTF-8 bytes of a code point. *)
Definition utf8 (cp : N) : list ascii :=
  let byte (n : N) := ascii_of_N n in
  if (cp <? 128)%N then [byte cp]
  else if (cp <? 2048)%N then
    [byte (192 + N.shiftr cp 6); byte (128 + N.land cp 63)]%N
  else if (cp <? 65536)%N then
    [byte (224 + N.shiftr cp 12); byte (128 + N.land (N.shiftr cp 6) 63);
     byte (128 + N.land cp 63)]%N
  else
    [byte (240 + N.shiftr cp 18); byte (128 + N.land (N.shiftr cp 12) 63);
     byte (128 + N.land (N.shiftr cp 6) 63); byte (128 + N.land cp 63)]%N.

(** Four hexadecimal digits. *)
Definition hex4 (s : list ascii) : option (N * list ascii) :=
  match s with
  | a :: b :: c :: d :: r =>
      a ← hex_of a; b ← hex_of b; c ← hex_of c; d ← hex_of d;
      Some (4096 * a + 256 * b + 16 * c + d, r)%N
  | _ => None
  end.

(** The characters of a string up to its closing quote, escapes decoded. *)
Fixpoint parse_string (fuel : nat) (s : list ascii) (acc : list ascii)
    : option (string * list ascii) :=
  match fuel with
  | O => None
  | S fuel =>
      match s with
      | [] => None
      | c :: r =>
          match N_of_ascii c with
          | 34%N => Some (string_of_list_ascii (rev acc), r)
          | 92%N =>
              match r with
              | [] => None
              | e :: r =>
                  match N_of_ascii e with
                  | 34%N | 92%N | 47%N => parse_string fuel r (e :: acc)
                  | 98%N => parse_string fuel r (ascii_of_N 8 :: acc)
                  | 102%N => parse_string fuel r (ascii_of_N 12 :: acc)
                  | 110%N => parse_string fuel r (ascii_of_N 10 :: acc)
                  | 114%N => parse_string fuel r (ascii_of_N 13 :: acc)
                  | 116%N => parse_string fuel r (ascii_of_N 9 :: acc)
                  | 117%N =>
                      '(hi, r) ← hex4 r;
                      let paired :=
                        if ((55296 <=? hi) && (hi <? 56320))%N
                        then
                          match r with
                          | b :: u :: r' =>
                              if ((N_of_ascii b =? 92) && (N_of_ascii u =? 117))%N
                              then
                                '(lo, r'') ← hex4 r';
                                if ((56320 <=? lo) && (lo <? 57344))%N
                                then Some (65536 + 1024 * (hi - 55296) + (lo - 56320), r'')%N
                                else None
                              else None
                          | _ => None
                          end
                        else None in
                      let '(cp, r) := default (hi, r) paired in
                      parse_string fuel r (rev (utf8 cp) ++ acc)
                  | _ => None
                  end
              end
          | n => if (n <? 32)%N then None else parse_string fuel r (c :: acc)
          end
      end
  end.

Fixpoint parse_value (fuel : nat) (s : list ascii) : option (JValue * list ascii) :=
  match fuel with
  | O => None
  | S fuel =>
      match skip_ws s with
      | [] => None
      | c :: r =>
          match N_of_ascii c with
          | 110%N =>
              match r with
              | "u"%char :: "l"%char :: "l"%char :: r => Some (JNull, r)
              | _ => None
              end
          | 116%N =>
              match r with
              | "r"%char :: "u"%char :: "e"%char :: r => Some (JBool true, r)
              | _ => None
              end
          | 102%N =>
              match r with
              | "a"%char :: "l"%char :: "s"%char :: "e"%char :: r => Some (JBool false, r)
              | _ => None
              end
          | 34%N =>
              '(str, r) ← parse_string (List.length r) r [];
              Some (JStr str, r)
          | 91%N =>
              match skip_ws r with
              | "]"%char :: r => Some (JArr [], r)
              | _ => parse_elements fuel r []
              end
          | 123%N =>
              match skip_ws r with
              | "}"%char :: r => Some (JObj ∅, r)
              | _ => parse_members fuel r ∅
              end
          | _ => parse_number (c :: r)
          end
      end
  end
with parse_elements (fuel : nat) (s : list ascii) (acc : list JValue)
    : option (JValue * list ascii) :=
  match fuel with
  | O => None
  | S fuel =>
      '(v, r) ← parse_value fuel s;
      match skip_ws r with
      | ","%char :: r => parse_elements fuel r (v :: acc)
      | "]"%char :: r => Some (JArr (rev (v :: acc)), r)
      | _ => None
      end
  end
with parse_members (fuel : nat) (s : list ascii) (acc : gmap string JValue)
    : option (JValue * list ascii) :=
  match fuel with
  | O => None
  | S fuel =>
      match skip_ws s with
      | c :: r =>
          if (N_of_ascii c =? 34)%N
          then
            '(key, r) ← parse_string (List.length r) r [];
            match skip_ws r with
            | ":"%char :: r =>
                '(v, r) ← parse_value fuel r;
                match skip_ws r with
                | ","%char :: r => parse_members fuel r (<[key := v]> acc)
                | "}"%char :: r => Some (JObj (<[key := v]> acc), r)
                | _ => None
                end
            | _ => None
            end
          else None
      | [] => None
      end
  end.

Definition parse (text : string) : option JValue :=
  let s := list_ascii_of_string text in
  '(v, r) ← parse_value (2 * List.length s + 2) s;
  match skip_ws r with
  | [] => Some v
  | _ :: _ => None
  end.

Definition lower (c : ascii) : ascii :=
  let n := N_of_ascii c in
  if ((65 <=? n) && (n <=? 90))%N then ascii_of_N (n + 32) else c.

Definition lowercase (s : string) : string :=
  string_of_list_ascii (lower <$> list_ascii_of_string s).

Definition runtime : Runtime := {|
  JSON_parse := parse;
  toLocaleLowerCase := lowercase;
|}.

End Node.

(** ** Vocabulary of the statements *)

(** The key under which the store keeps an entity. *)
Definition key_of (entity : Application) (w : World) : string :=
  match id entity with
  | Some key => key
  | None => fresh (dom (applications w))
  end.

(** What an update leaves of the stored entity [stored] and takes from the
    request [app]: [sp], [sa] and [ss] are the publication, the api and the
    stats of the stored entity, [p] and [a] the publication and the api of
    the request. *)
Definition updated (now : Z) (stored app : Application)
    (sp p : Publication) (sa a : Api) (ss : Stats) : Application := {|
  id := id stored;
  company_id := company_id stored;
  is_default := is_default stored;
  identity := identity app;
  publication := Some
    (if is_false (requested p)
     then {| published := Value false; requested := requested p |}
     else {| published := published sp; requested := requested p |});
  stats := Some {|
    created_at := created_at ss;
    updated_at := now;
    version := increment (version ss);
  |};
  api := Some {|
    hooks_url := hooks_url a;
    allowed_ips := allowed_ips a;
    private_key := private_key sa;
  |};
  access := access app;
  display := display app;
|}.

(** What a creation stores, before the store gives it an id. *)
Definition created (now : Z) (secret : list byte) (app : Application)
    (p : Publication) (a : Api) : Application := {|
  id := id app;
  company_id := company_id app;
  is_default := Value false;
  identity := identity app;
  publication := Some {| published := Value false; requested := requested p |};
  stats := Some {| created_at := now; updated_at := now; version := 0 |};
  api := Some {|
    hooks_url := hooks_url a;
    allowed_ips := allowed_ips a;
    private_key := Value (base64 secret);
  |};
  access := access app;
  display := display app;
|}.

(** [updates application_id n w w']: [n] update requests for the record
    [application_id], each of which returned, lead from [w] to [w']. *)
Inductive updates (application_id : string) : nat → World → World → Prop :=
  | updates_none w : updates application_id 0 w w
  | updates_more n w app w1 r w2 :
      ApplicationController.save (Value application_id) app w = (w1, Returned r) →
      updates application_id n w1 w2 →
      updates application_id (S n) w w2.

(** A legacy record with other capability columns. *)
Definition with_capability_columns (capabilities privileges hooks' : Nullable string)
    (application : PhpApplication) : PhpApplication := {|
  php_id := php_id application;
  group_id := group_id application;
  php_is_default := php_is_default application;
  depreciated_simple_name := depreciated_simple_name application;
  depreciated_name := depreciated_name application;
  depreciated_icon_url := depreciated_icon_url application;
  depreciated_description := depreciated_description application;
  depreciated_is_available_to_public := depreciated_is_available_to_public application;
  depreciated_public := depreciated_public application;
  depreciated_twake_team_validation := depreciated_twake_team_validation application;
  depreciated_api_events_url := depreciated_api_events_url application;
  depreciated_api_allowed_ip := depreciated_api_allowed_ip application;
  depreciated_api_private_key := depreciated_api_private_key application;
  depreciated_capabilities := capabilities;
  depreciated_privileges := privileges;
  depreciated_hooks := hooks';
  depreciated_display_configuration := depreciated_display_configuration application;
|}.

Section ImportedRecord.
Context `{Runtime}.

(** The value a capability column leaves in its list:
    [try { JSON.parse(text || "[]") || [] } catch (e) { [] }]. *)
Definition capability (text : Nullable string) : JValue :=
  try_catch (parse_capabilities text) JArr_empty.

(** The record the importer has built when it reaches the display
    configuration; [created] and [updated] are its two clock readings. *)
Definition imported (application : PhpApplication) (created updated : Z)
    : Application := {|
  id := Some (php_id application);
  company_id := group_id application;
  is_default := php_is_default application;
  identity := Some {|
    code :=
      depreciated_simple_name application
      ||| Value (toLocaleLowerCase (or_text (depreciated_name application) ""));
    name := depreciated_name application;
    icon := depreciated_icon_url application;
    description := depreciated_description application;
    website := Value "http://twake.app/";
    categories := Some [];
    compatibility := Some ["twake"];
    repository := Undefined;
  |};
  publication := Some {|
    published := depreciated_is_available_to_public application;
    requested :=
      js_and (depreciated_public application)
             (Value (negb (truthy (depreciated_twake_team_validation application))));
  |};
  stats := Some {| created_at := created; updated_at := updated; version := 1 |};
  api := Some {|
    hooks_url := depreciated_api_events_url application;
    allowed_ips := depreciated_api_allowed_ip application;
    private_key := depreciated_api_private_key application;
  |};
  access := Some {|
    read := capability (depreciated_privileges application);
    write := capability (depreciated_capabilities application);
    delete := capability (depreciated_capabilities application);
    hooks := capability (depreciated_hooks application);
  |};
  display := None;
|}.

End ImportedRecord.

Section ImportOutcome.
Context `{Runtime}.

(** What the import of a legacy record returns or throws when its two clock
    readings are [created] and [updated]. *)
Definition import_of (application : PhpApplication) (created updated : Z)
    : Outcome Application :=
  let newApplication := imported application created updated in
  depreciatedDisplay ← JSON_parse_column (depreciated_display_configuration application);
  display' ← importDepreciatedDisplayFields newApplication depreciatedDisplay;
  mret (with_display (Some display') newApplication).

(** The legacy records whose import returns. *)
Definition importable (application : PhpApplication) : bool :=
  match import_of application 0 0 with
  | Returned _ => true
  | Thrown _ => false
  end.

(** The entities that the import of a legacy record gives, at any time. *)
Definition import_at (application : PhpApplication) (entity : Application) : Prop :=
  ∃ created updated, import_of application created updated = Returned entity.

End ImportOutcome.

(** An application without the two timestamps of its stats. *)
Definition without_timestamps (entity : Application) : Application :=
  with_stats
    ((λ s, {| created_at := 0; updated_at := 0; version := version s |})
       <$> stats entity)
    entity.

(** The membership table of the world. *)
Definition with_company_users (users : gmap (string * string) CompanyUser)
    (w : World) : World := {|
  applications := applications w;
  php_applications := php_applications w;
  company_users := users;
  company_applications := company_applications w;
  clock := clock w;
  ticks := ticks w;
  entropy := entropy w;
  drawn := drawn w;
  plugins_api := plugins_api w;
  plugin_posts := plugin_posts w;
  notifications := notifications w;
  hook_response := hook_response w;
|}.

(** What a loop of [spread] accepts: [[...v]] throws for any other value. *)
Definition iterable (v : JValue) : bool :=
  match v with
  | JArr _ | JStr _ => true
  | _ => false
  end.

(** The store after the entities [news], each with an id, were saved in
    that order. *)
Definition store_each (news : list Application) (m : gmap string Application)
    : gmap string Application :=
  foldl (λ m entity, <[default "" (id entity) := entity]> m) m news.

(** Every record of the store is kept under its own id. *)
Definition keyed (w : World) : Prop :=
  ∀ key entity, applications w !! key = Some entity → id entity = Some key.

(** ** Sample data *)

Definition sample_identity (display_name : string) : Identity := {|
  code := Value "foo";
  name := Value display_name;
  icon := Undefined;
  description := Undefined;
  website := Undefined;
  categories := Some [];
  compatibility := Some ["twake"];
  repository := Undefined;
|}.

Definition sample_api (key : string) : Api := {|
  hooks_url := Value "https://foo.example/hooks";
  allowed_ips := Value "*";
  private_key := Value key;
|}.

Definition sample_access : Access := {|
  read := JArr [];
  write := JArr [JStr "messages"];
  delete := JArr [];
  hooks := JArr [];
|}.

Definition sample_application (key : string) (is_published is_requested : bool)
    (display_name : string) : Application := {|
  id := Some key;
  company_id := Value "c1";
  is_default := Value false;
  identity := Some (sample_identity display_name);
  publication := Some {|
    published := Value is_published;
    requested := Value is_requested;
  |};
  stats := Some {| created_at := 1000; updated_at := 1000; version := 3 |};
  api := Some (sample_api "c2VjcmV0");
  access := Some sample_access;
  display := None;
|}.

(** A store with a published application [a1] and a draft [a2]; [a1] is
    installed in the company [c2], of which the user [u9] is no member. *)
Definition sample_world : World := {|
  applications :=
    {[ "a1" := sample_application "a1" true true "Foo";
       "a2" := sample_application "a2" false false "Foo" ]};
  php_applications := [];
  company_users := {[ ("c1", "u1") := {| role := "admin" |} ]};
  company_applications := {[ ("c2", "a1") ]};
  clock := λ n, 2000 + Z.of_nat n;
  ticks := 0;
  entropy := λ n, default x00 (Byte.of_nat (n mod 256));
  drawn := 0;
  plugins_api := "http://plugins";
  plugin_posts := [];
  notifications := [];
  hook_response := λ _, JNull;
|}.

(** The draft [a2] after 2^53 updates: its version is the first integer
    whose successor is no double. *)
Definition worn_application : Application :=
  with_stats
    (Some {| created_at := 1000; updated_at := 1000; version := 2 ^ 53 |})
    (sample_application "a2" false false "Foo").

Definition worn_world : World :=
  with_applications (<["a2" := worn_application]> (applications sample_world))
    sample_world.

(** The draft of the creation scenario:
    [{identity: {name: "Foo"}, publication: {requested: false}}]. *)
Definition scenario_A_draft : Application := {|
  id := None;
  company_id := Undefined;
  is_default := Undefined;
  identity := Some {|
    code := Undefined;
    name := Value "Foo";
    icon := Undefined;
    description := Undefined;
    website := Undefined;
    categories := None;
    compatibility := None;
    repository := Undefined;
  |};
  publication := Some {| published := Undefined; requested := Value false |};
  stats := None;
  api := None;
  access := None;
  display := None;
|}.

(** A legacy display configuration that allows both levels of
    configuration. *)
Definition both_levels : JValue :=
  JObj {[ "configuration" :=
            JObj {[ "can_configure_in_workspace" := JBool true;
                    "can_configure_in_channel" := JBool true ]} ]}.

(** A legacy record whose capability columns are not JSON. *)
Definition sample_legacy (key : string) (display_configuration : Nullable string)
    : PhpApplication := {|
  php_id := key;
  group_id := Value "c1";
  php_is_default := Value false;
  depreciated_simple_name := Undefined;
  depreciated_name := Value "Legacy";
  depreciated_icon_url := Null;
  depreciated_description := Null;
  depreciated_is_available_to_public := Value true;
  depreciated_public := Value true;
  depreciated_twake_team_validation := Value true;
  depreciated_api_events_url := Null;
  depreciated_api_allowed_ip := Null;
  depreciated_api_private_key := Value "bGVnYWN5";
  depreciated_capabilities := Value "not json";
  depreciated_privileges := Value "not json";
  depreciated_hooks := Value "not json";
  depreciated_display_configuration := display_configuration;
|}.

Definition legacy_world (pages : list (list PhpApplication)) : World := {|
  applications := applications sample_world;
  php_applications := pages;
  company_users := company_users sample_world;
  company_applications := company_applications sample_world;
  clock := clock sample_world;
  ticks := ticks sample_world;
  entropy := entropy sample_world;
  drawn := drawn sample_world;
  plugins_api := plugins_api sample_world;
  plugin_posts := plugin_posts sample_world;
  notifications := notifications sample_world;
  hook_response := hook_response sample_world;
|}.

(** A legacy configuration with a drive module and no messages module. *)
Definition drive_only : JValue :=
  JObj {[ "drive_module" :=
            JObj {[ "can_open_files" :=
                      JObj {[ "url" := JStr "https://docs.example/edit";
                              "main_ext" := JArr [JStr "docx"];
                              "other_ext" := JArr [JStr "txt"] ]} ]} ]}.

Definition sample_event : ApplicationEventRequestBody := {|
  body_company_id := "c2";
  body_workspace_id := Value "w1";
  body_connection_id := Value "n1";
  body_type := Value "action";
  body_name := Value "open";
  body_data := JNull;
|}.

(** * The access manager of a drive item

    The handlers of [InternalAccessManager], [UserAccessSelector] and
    [UserAccessLevel] (drive/modals/update-access/internal-access): each
    computes the access information that it passes to [update].  The hook
    [useDriveItem] that gives [item] and [update] is outside the files at
    hand; the item may not be loaded yet, and an entry of its access
    information has the three fields the component reads and writes. *)

Module InternalAccess.

Record AccessEntity : Type := {
  type : string;
  id : string;
  level : string;
}.

Global Instance AccessEntity_eq_dec : EqDecision AccessEntity.
Proof. solve_decision. Defined.

Record AccessInfo : Type := {
  entities : list AccessEntity;
  public : JValue;
}.

Record DriveItem : Type := { access_info : AccessInfo }.

(** The users that [SelectUsers] hands to its [onChange]; a user may come
    without an id. *)
Module User.
Record UserType : Type := { id : Nullable string }.
End User.

(** [{ ...e, level }] *)
Definition with_level (level' : string) (e : AccessEntity) : AccessEntity := {|
  type := type e;
  id := id e;
  level := level';
|}.

(** [item?.access_info.entities] *)
Definition entities_of (item : option DriveItem) : option (list AccessEntity) :=
  (λ item, entities (access_info item)) <$> item.

(** [item?.access_info.public] *)
Definition public_of (item : option DriveItem) : JValue :=
  from_option (λ item, public (access_info item)) JUndefined item.

(** ** [InternalAccessManager] *)

Definition userEntities (item : option DriveItem) : list AccessEntity :=
  default [] (filter (λ a, type a = "user") <$> entities_of item).

Definition folderEntity (item : option DriveItem) : AccessEntity :=
  default {| type := "folder"; id := "parent"; level := "manage" |}
    (entities_of item ≫= λ entities, head (filter (λ a, type a = "folder") entities)).

Definition companyEntity (item : option DriveItem) : option AccessEntity :=
  entities_of item ≫= λ entities, head (filter (λ a, type a = "company") entities).

Definition channelEntities (item : option DriveItem) : list AccessEntity :=
  default [] (filter (λ a, type a = "channel") <$> entities_of item).

(** The checkbox "Inherit parent folder": its value, and what its
    [onChange] passes to [update]. *)
Definition folder_value (item : option DriveItem) : bool :=
  bool_decide (level (folderEntity item) = "manage").

Definition folder_onChange (item : option DriveItem) (status : bool) : AccessInfo := {|
  entities :=
    default [] (filter (λ a, type a ≠ "folder") <$> entities_of item)
    ++ [with_level (if status then "manage" else "none") (folderEntity item)];
  public := public_of item;
|}.

(** The level of the company, shown when [companyEntity] is there and the
    folder entity has the level "none". *)
Definition company_shown (item : option DriveItem) : bool :=
  truthy (companyEntity item) && bool_decide (level (folderEntity item) = "none").

Definition company_onChange (item : option DriveItem) (companyEntity : AccessEntity)
    (level' : string) : AccessInfo := {|
  entities :=
    default [] (filter (λ a, type a ≠ "company") <$> entities_of item)
    ++ (if bool_decide (level' ≠ "remove")
        then [with_level level' companyEntity]
        else []);
  public := public_of item;
|}.

(** The level of the channels, shown when [channelEntities] is not empty;
    the removal is what the confirmation runs. *)
Definition channel_shown (item : option DriveItem) : bool :=
  bool_decide (0 < List.length (channelEntities item))%nat.

Definition channel_level (item : option DriveItem) : option string :=
  level <$> head (channelEntities item).

Definition channel_onChange (item : option DriveItem) (level' : string) : AccessInfo :=
  if bool_decide (level' = "remove")
  then
    let entities' : list AccessEntity :=
      default [] (filter (λ e, type e ≠ "channel") <$> entities_of item) in
    {| entities := entities'; public := public_of item |}
  else
    let entities' : list AccessEntity :=
      default []
        (fmap (M := list)
           (λ e, if bool_decide (type e = "channel") then with_level level' e else e)
           <$> entities_of item) in
    {| entities := entities'; public := public_of item |}.

(** ** [UserAccessSelector]: [level] is the level chosen beside the
    selector. *)
Definition select_onChange (item : option DriveItem) (level' : string)
    (users : list User.UserType) : AccessInfo :=
  let id' := from_option User.id Undefined (head users) in
  {|
    entities :=
      default []
        (filter (λ a, type a ≠ "user" ∨ Value (id a) ≠ id') <$> entities_of item)
      ++ (if truthy id'
          then [ {| type := "user"; id := or_text id' ""; level := level' |} ]
          else []);
    public := public_of item;
  |}.

(** ** [UserAccessLevel] *)

(** [level], the level shown for the user. *)
Definition user_level (item : option DriveItem) (userId : string) : string :=
  match entities_of item
        ≫= λ entities, head (filter (λ a, type a = "user" ∧ id a = userId) entities) with
  | Some a => if truthy (level a) then level a else "none"
  | None => "none"
  end.

Definition user_onChange (item : option DriveItem) (userId level' : string)
    : AccessInfo :=
  let entities' : list AccessEntity :=
    if bool_decide (level' = "remove")
    then default []
           (filter (λ e, type e ≠ "user" ∨ id e ≠ userId) <$> entities_of item)
    else default []
           (fmap (M := list)
              (λ e, if bool_decide (type e = "user" ∧ id e = userId)
                    then with_level level' e
                    else e)
              <$> entities_of item) in
  {| entities := entities'; public := public_of item |}.

End InternalAccess.

(** * The search of files and medias

    The hook [useSearchMessagesFilesOrMedias] (search of the files and of
    the medias of the messages) and its [refresh].  The state it works on is
    the module variable [currentQuery] and the atoms it reads and sets: the
    loading flag of its mode, and the searched and the recent results of
    its mode and company.  [refresh] is asynchronous: it runs to its
    [await], where the request leaves, and goes on when the answer has
    come; other calls of [refresh] may run in between. *)

Module SearchFiles.

Inductive Mode : Type := files | medias.

Global Instance Mode_eq_dec : EqDecision Mode.
Proof. solve_decision. Defined.

(** [SearchInputState], with the fields the hook reads. *)
Record SearchInput : Type := {
  query : Nullable string;
  workspaceId : Nullable string;
  channelId : Nullable string;
}.

(** A file of a message, as the search returns it: the hook reads
    [message.created_at], a number (here an integer, as the timestamps
    are); [rest] stands for its other properties. *)
Record Message : Type := { created_at : Nullable Z }.

Record MessageFile : Type := {
  message : option Message;
  rest : JValue;
}.

(** The answer of [MessagesAPIClient.searchFile]. *)
Record Response : Type := {
  resources : option (list MessageFile);
  next_page_token : Nullable string;
}.

(** [{ results, nextPage }] *)
Record Results : Type := {
  results : list MessageFile;
  nextPage : Nullable string;
}.

Record State : Type := {
  currentQuery : Nullable string;
  loading : Mode → bool;
  searched : Mode * string → Results;
  recent : Mode * string → Results;
}.

Definition set_currentQuery (q : Nullable string) (s : State) : State := {|
  currentQuery := q;
  loading := loading s;
  searched := searched s;
  recent := recent s;
|}.

Definition setLoading (mode : Mode) (b : bool) (s : State) : State := {|
  currentQuery := currentQuery s;
  loading := λ mode', if decide (mode' = mode) then b else loading s mode';
  searched := searched s;
  recent := recent s;
|}.

Definition setSearched (mode : Mode) (companyId : string) (update : Results)
    (s : State) : State := {|
  currentQuery := currentQuery s;
  loading := loading s;
  searched := λ key, if decide (key = (mode, companyId)) then update else searched s key;
  recent := recent s;
|}.

Definition setRecent (mode : Mode) (companyId : string) (update : Results)
    (s : State) : State := {|
  currentQuery := currentQuery s;
  loading := loading s;
  searched := searched s;
  recent := λ key, if decide (key = (mode, companyId)) then update else recent s key;
|}.

(** A string that may be missing, as a value. *)
Definition value_of (x : Nullable string) : JValue :=
  match x with
  | Undefined => JUndefined
  | Null => JNull
  | Value s => JStr s
  end.

(** [_.omitBy(object, _.isUndefined)] *)
Definition omitBy_isUndefined (object : gmap string JValue) : gmap string JValue :=
  filter (λ kv, kv.2 ≠ JUndefined) object.

(** [opt]; [mode === "files" || undefined] is [true] or [undefined]. *)
Definition opt (mode : Mode) (searchInput : SearchInput) : gmap string JValue :=
  omitBy_isUndefined
    (<["limit" := JNum (Q2Qc (QArith_base.inject_Z 100))]>
       (<["is_file" := if decide (mode = files) then JBool true else JUndefined]>
          (<["is_media" := if decide (mode = medias) then JBool true else JUndefined]>
             (<["workspace_id" := value_of (workspaceId searchInput)]>
                (<["channel_id" := value_of (channelId searchInput)]> ∅))))).

(** [Array.prototype.sort(compare)]: the sort is stable, and [compare] is
    called on values that are not [undefined].  For a comparison that is
    consistent, as the difference of two keys is, the outcome is the one of
    inserting each element, from the last to the first, before the first
    element that it does not come after. *)
Fixpoint sort_insert {A} (compare : A → A → Z) (x : A) (l : list A) : list A :=
  match l with
  | [] => [x]
  | y :: l' =>
      if 0 <? compare x y then y :: sort_insert compare x l' else x :: y :: l'
  end.

Definition Array_sort {A} (compare : A → A → Z) (l : list A) : list A :=
  foldr (sort_insert compare) [] l.

(** [x?.message?.created_at || 0] *)
Definition created_at_or_0 (x : MessageFile) : Z :=
  match message x with
  | Some m =>
      match created_at m with
      | Value t => t
      | _ => 0
      end
  | None => 0
  end.

(** Newest first, by that time. *)
Definition newest_first (x y : MessageFile) : Prop :=
  created_at_or_0 y ≤ created_at_or_0 x.

(** The arguments of [MessagesAPIClient.searchFile]. *)
Record Request : Type := {
  request_query : Nullable string;
  request_options : gmap string JValue;
}.

(** [refresh], to its [await]: the request that leaves. *)
Definition refresh_call (mode : Mode) (searchInput : SearchInput)
    (s : State) : State * Request :=
  let s := setLoading mode true s in
  let query' := query searchInput in
  let s := set_currentQuery query' s in
  (s, {|
     request_query := if truthy (query searchInput) then query searchInput else Null;
     request_options := opt mode searchInput;
   |}).

(** [refresh], from its [await]: [response] is the answer. *)
Definition refresh_resume (mode : Mode) (companyId : string) (searchInput : SearchInput)
    (response : Response) (s : State) : State :=
  let isRecent := negb (truthy (query searchInput)) in
  let query' := query searchInput in
  let results' := default [] (resources response) in
  let results' :=
    if isRecent
    then Array_sort (λ a b, created_at_or_0 b - created_at_or_0 a) results'
    else results' in
  let update := {| results := results'; nextPage := next_page_token response |} in
  if bool_decide (currentQuery s ≠ query')
  then s
  else
    let s := if negb isRecent then setSearched mode companyId update s else s in
    let s := if isRecent then setRecent mode companyId update s else s in
    setLoading mode false s.

(** [files], as the hook returns it. *)
Definition files_of (mode : Mode) (companyId : string) (searchInput : SearchInput)
    (s : State) : list MessageFile :=
  if truthy (query searchInput)
  then results (searched s (mode, companyId))
  else results (recent s (mode, companyId)).

(** Sample data: a state in which the mode [files] loads the recent files,
    and an answer of four files, one of them without a message. *)
Definition no_results : Results := {| results := []; nextPage := Undefined |}.

Definition sample_state : State := {|
  currentQuery := Value "";
  loading := λ _, true;
  searched := λ _, no_results;
  recent := λ _, no_results;
|}.

Definition sample_file (label : string) (time : Nullable Z) : MessageFile := {|
  message := Some {| created_at := time |};
  rest := JStr label;
|}.

Definition sample_response : Response := {|
  resources := Some [ sample_file "f1" (Value 10);
                      {| message := None; rest := JStr "f2" |};
                      sample_file "f3" (Value 30);
                      sample_file "f4" (Value 10) ];
  next_page_token := Value "next";
|}.

Definition sample_input (text : string) : SearchInput := {|
  query := Value text;
  workspaceId := Undefined;
  channelId := Null;
|}.

End SearchFiles.

(** * Properties *)

(** ** Running an action *)

Lemma bind_run {A B} (m : Action A) (f : A → Action B) (w : World) :
  (m ≫= f) w =
  match m w with
  | (w', Returned a) => f a w'
  | (w', Thrown e) => (w', Thrown e)
  end.
Proof. reflexivity. Qed.

Lemma truthy_text (k : string) : k ≠ "" → truthy (Value k) = true.
Proof.
  intros Hk. unfold truthy, Nullable_truthy, truthy, string_truthy.
  by rewrite bool_decide_eq_false_2.
Qed.

Lemma or_text_nonempty (k : string) : k ≠ "" → or_text (Value k) "" = k.
Proof.
  intros Hk. unfold or_text, truthy, string_truthy.
  by rewrite bool_decide_eq_false_2.
Qed.

(** Reads the fields of an application that was assigned to. *)
Ltac fields :=
  cbn [id company_id is_default identity publication stats api access display
       with_id with_company_id with_is_default with_identity with_publication
       with_stats with_api with_access with_display].

(** Runs the steps of an action that do not depend on the world. *)
Ltac run :=
  repeat first
    [ progress cbn [the pure throw mret mbind Action_ret Action_bind
                    Outcome_ret Outcome_bind fst snd]
    | progress unfold pure, throw, mret, mbind, Action_ret, Action_bind ].

(** ** The update branch *)

Lemma save_update_returned now k app w w' r :
  ApplicationController.save_update now k app w = (w', Returned r) →
  ∃ stored sp p sa a ss,
    applications w !! k = Some stored
    ∧ publication stored = Some sp ∧ publication app = Some p
    ∧ api stored = Some sa ∧ api app = Some a
    ∧ stats stored = Some ss
    ∧ (is_false (requested p) = false → truthy (published sp) = true →
       pick stored = pick app)
    ∧ r = with_id (Some (key_of stored w)) (updated now stored app sp p sa a ss)
    ∧ w' = with_applications (<[key_of stored w := r]> (applications w)) w.
Proof.
  unfold ApplicationController.save_update. rewrite bind_run.
  unfold marketplaceApps_get at 1.
  destruct (applications w !! k) as [stored|] eqn:Hget; [|by run].
  destruct (publication app) as [p|] eqn:Hp; [|by run].
  destruct (publication stored) as [sp|] eqn:Hsp; [|by run].
  run. simpl.
  set (frozen := truthy (published _)).
  set (differs := negb (isEqual _ _)).
  assert (Hgate : frozen = true → differs = false →
                  is_false (requested p) = false → truthy (published sp) = true →
                  pick stored = pick app).
  { subst frozen differs. intros _ Heq _ _.
    apply negb_false_iff in Heq. by apply bool_decide_eq_true in Heq. }
  assert (Hopen : frozen = false →
                  is_false (requested p) = false → truthy (published sp) = true →
                  pick stored = pick app).
  { subst frozen. intros Hf Hreq Hpub. rewrite Hreq in Hf. simpl in Hf. congruence. }
  clearbody frozen differs.
  destruct (api app) as [a|] eqn:Ha;
    [|destruct frozen, differs; simpl; intros; simplify_eq].
  destruct (api stored) as [sa|] eqn:Hsa;
    [|destruct frozen, differs; simpl; intros; simplify_eq].
  destruct (stats stored) as [ss|] eqn:Hss;
    [|destruct frozen, differs; simpl; intros; simplify_eq].
  intros Hrun.
  assert (Hsave :
    marketplaceApps_save (updated now stored app sp p sa a ss) w = (w', Returned r)
    ∧ (is_false (requested p) = false → truthy (published sp) = true →
       pick stored = pick app)).
  { destruct frozen, differs; simpl in Hrun; simplify_eq;
      (split; [|by auto]); rewrite <- Hrun; unfold updated;
      by destruct (is_false (requested p)). }
  destruct Hsave as [Hsave Hpick].
  unfold marketplaceApps_save in Hsave. simplify_eq.
  exists stored, sp, p, sa, a, ss. repeat split; try done.
Qed.

Lemma save_update_rejected now k app w stored sp p :
  applications w !! k = Some stored →
  publication stored = Some sp → truthy (published sp) = true →
  publication app = Some p → is_false (requested p) = false →
  pick stored ≠ pick app →
  ApplicationController.save_update now k app w
  = (w, Thrown (BadRequest "You can't update applications details while it published")).
Proof.
  intros Hget Hsp Hpub Hp Hreq Hne.
  unfold ApplicationController.save_update. rewrite bind_run.
  unfold marketplaceApps_get at 1.
  rewrite Hget. run. rewrite Hp, Hsp. run. rewrite Hreq. simpl. rewrite Hpub.
  unfold isEqual. rewrite bool_decide_eq_false_2; [done|].
  unfold pick in *. by destruct stored.
Qed.

(** ** The notification of the plugin registrar *)

Lemma sync_plugins_missing endpoint app entity w :
  identity app = None →
  ApplicationController.sync_plugins endpoint app entity w = (w, Thrown TypeError).
Proof. intros Hid. unfold ApplicationController.sync_plugins. rewrite Hid. by run. Qed.

Lemma sync_plugins_returned endpoint app entity w idn :
  identity app = Some idn →
  ∃ w', ApplicationController.sync_plugins endpoint app entity w = (w', Returned tt)
        ∧ applications w' = applications w
        ∧ ticks w' = ticks w ∧ drawn w' = drawn w
        ∧ clock w' = clock w ∧ entropy w' = entropy w.
Proof.
  intros Hid. unfold ApplicationController.sync_plugins. rewrite Hid. run.
  destruct (truthy (repository idn)); [|by eexists].
  destruct (api (getApplicationObject entity)); by eexists.
Qed.

(** ** [save], by branch *)

Lemma save_existing k app w :
  k ≠ "" →
  ApplicationController.save (Value k) app w =
  match ApplicationController.save_update (clock w (ticks w)) k app
          (with_ticks (S (ticks w)) w) with
  | (w1, Returned entity) =>
      match ApplicationController.sync_plugins (plugins_api w) app entity w1 with
      | (w2, Returned _) => (w2, Returned entity)
      | (w2, Thrown e) => (w2, Thrown e)
      end
  | (w1, Thrown e) => (w1, Thrown e)
  end.
Proof.
  intros Hk. unfold ApplicationController.save. rewrite bind_run.
  unfold Date_now at 1.
  rewrite bind_run. cbn beta iota. rewrite truthy_text, or_text_nonempty by done.
  rewrite !bind_run.
  destruct (ApplicationController.save_update _ _ _ _) as [w1 [entity|e]]; [|done].
  run. cbn. by destruct (ApplicationController.sync_plugins _ _ _ _) as [w2 [[]|e]].
Qed.

Lemma save_new application_id app w :
  truthy application_id = false →
  ApplicationController.save application_id app w =
  match ApplicationController.save_insert (clock w (ticks w)) app
          (with_ticks (S (ticks w)) w) with
  | (w1, Returned (app', entity)) =>
      match ApplicationController.sync_plugins (plugins_api w) app' entity w1 with
      | (w2, Returned _) => (w2, Returned entity)
      | (w2, Thrown e) => (w2, Thrown e)
      end
  | (w1, Thrown e) => (w1, Thrown e)
  end.
Proof.
  intros Hk. unfold ApplicationController.save. rewrite bind_run.
  unfold Date_now at 1.
  rewrite bind_run. cbn beta iota. rewrite Hk.
  rewrite !bind_run.
  destruct (ApplicationController.save_insert _ _ _) as [w1 [[app' entity]|e]]; [|done].
  run. cbn. by destruct (ApplicationController.sync_plugins _ _ _ _) as [w2 [[]|e]].
Qed.

Lemma save_existing_returned k app w w' r :
  k ≠ "" →
  ApplicationController.save (Value k) app w = (w', Returned r) →
  ∃ stored sp p sa a ss,
    applications w !! k = Some stored
    ∧ publication stored = Some sp ∧ publication app = Some p
    ∧ api stored = Some sa ∧ api app = Some a
    ∧ stats stored = Some ss
    ∧ (is_false (requested p) = false → truthy (published sp) = true →
       pick stored = pick app)
    ∧ r = with_id (Some (key_of stored w))
            (updated (clock w (ticks w)) stored app sp p sa a ss)
    ∧ applications w' = <[key_of stored w := r]> (applications w).
Proof.
  intros Hk. rewrite save_existing by done.
  destruct (ApplicationController.save_update _ _ _ _) as [w1 [entity|e]] eqn:Hupdate;
    [|done].
  apply save_update_returned in Hupdate
    as (stored & sp & p & sa & a & ss & Hget & Hsp & Hp & Hsa & Ha & Hss & Hpick & -> & ->).
  destruct (identity app) as [idn|] eqn:Hid.
  - match goal with
    | |- context [ApplicationController.sync_plugins ?e ?x ?y ?z] =>
        destruct (sync_plugins_returned e x y z idn Hid) as (w2 & -> & Happs & _)
    end.
    intros [= -> <-]. exists stored, sp, p, sa, a, ss.
    repeat split; try done.
  - by rewrite sync_plugins_missing.
Qed.

Lemma save_insert_returned now app w p a :
  publication app = Some p → api app = Some a →
  let app' := created now (entropy w <$> seq (drawn w) 32) app p a in
  let entity := with_id (Some (key_of app w)) app' in
  ApplicationController.save_insert now app w
  = (with_applications (<[key_of app w := entity]> (applications w))
       (with_drawn (drawn w + 32) w),
     Returned (app', entity)).
Proof.
  intros Hp Ha. unfold ApplicationController.save_insert. fields.
  rewrite Hp. run. fields. rewrite Ha. run. reflexivity.
Qed.

Lemma save_insert_thrown now app w :
  publication app = None ∨ api app = None →
  ∃ w', ApplicationController.save_insert now app w = (w', Thrown TypeError)
        ∧ applications w' = applications w.
Proof.
  intros Hmissing. unfold ApplicationController.save_insert. fields.
  destruct (publication app) as [p|] eqn:Hp; [|by eexists].
  destruct Hmissing as [|Ha]; [done|].
  run. fields. rewrite Ha. by eexists.
Qed.

Lemma save_new_returned application_id app w w' r :
  truthy application_id = false →
  ApplicationController.save application_id app w = (w', Returned r) →
  ∃ p a,
    publication app = Some p ∧ api app = Some a
    ∧ r = with_id (Some (key_of app w))
            (created (clock w (ticks w)) (entropy w <$> seq (drawn w) 32) app p a)
    ∧ applications w' = <[key_of app w := r]> (applications w)
    ∧ drawn w' = (drawn w + 32)%nat.
Proof.
  intros Hk. rewrite save_new by done.
  destruct (publication app) as [p|] eqn:Hp; cycle 1.
  { destruct (save_insert_thrown (clock w (ticks w)) app (with_ticks (S (ticks w)) w))
      as (w1 & -> & _); by auto. }
  destruct (api app) as [a|] eqn:Ha; cycle 1.
  { destruct (save_insert_thrown (clock w (ticks w)) app (with_ticks (S (ticks w)) w))
      as (w1 & -> & _); by auto. }
  rewrite (save_insert_returned _ _ _ p a) by done.
  destruct (identity app) as [idn|] eqn:Hid.
  - match goal with
    | |- context [ApplicationController.sync_plugins ?e ?x ?y ?z] =>
        destruct (sync_plugins_returned e x y z idn Hid)
          as (w2 & -> & Happs & _ & Hdrawn & _)
    end.
    intros [= -> <-]. exists p, a. repeat split; try done.
  - rewrite sync_plugins_missing; done.
Qed.

(** ** The counter *)

Lemma increment_exact (x : Z) : - 2 ^ 53 ≤ x < 2 ^ 53 → increment x = x + 1.
Proof.
  intros Hx. unfold increment, nearest_double. cbn zeta.
  destruct (Z.ltb_spec (Z.abs (x + 1)) (2 ^ 53)) as [|Hedge]; [done|].
  assert (x + 1 = 2 ^ 53) as -> by lia. by vm_compute.
Qed.

Lemma increment_stuck : increment (2 ^ 53) = 2 ^ 53.
Proof. by vm_compute. Qed.

(** ** Sequences of updates *)

Lemma updates_frame k n w w' :
  updates k n w w' →
  k ≠ "" →
  ∀ stored,
    applications w !! k = Some stored → id stored = Some k →
    ∃ stored',
      applications w' !! k = Some stored'
      ∧ id stored' = Some k
      ∧ company_id stored' = company_id stored
      ∧ is_default stored' = is_default stored
      ∧ chain (api stored') private_key = chain (api stored) private_key
      ∧ ∀ s, stats stored = Some s →
             - 2 ^ 53 ≤ version s → version s + Z.of_nat n ≤ 2 ^ 53 →
             ∃ s', stats stored' = Some s'
                   ∧ created_at s' = created_at s
                   ∧ version s' = version s + Z.of_nat n.
Proof.
  induction 1 as [w|n w app w1 r w2 Hsave _ IH]; intros Hk stored Hget Hid.
  - exists stored. repeat split; try done.
    intros s Hs _ _. exists s. split; [done|]. split; [done|]. lia.
  - apply save_existing_returned in Hsave
      as (stored0 & sp & p & sa & a & ss & Hget0 & Hsp & Hp & Hsa & Ha & Hss
          & _ & Hr & Happs); [|done].
    assert (stored0 = stored) as -> by congruence.
    assert (Hkey : key_of stored w = k) by (unfold key_of; by rewrite Hid).
    rewrite Hkey in Hr, Happs.
    destruct (IH Hk r) as (stored' & Hget' & Hid' & Hcompany & Hdefault & Hkey' & Hstats).
    { rewrite Happs. apply lookup_insert_eq. }
    { by rewrite Hr. }
    exists stored'. rewrite Hcompany, Hdefault, Hkey', Hr. fields.
    repeat split; try done.
    + by rewrite Hsa.
    + intros s Hs Hlow Hhigh. assert (s = ss) as -> by congruence.
      assert (increment (version ss) = version ss + 1) as Hnext
        by (apply increment_exact; lia).
      destruct (Hstats {| created_at := created_at ss;
                          updated_at := clock w (ticks w);
                          version := version ss + 1 |}) as (s' & Hs' & Hc & Hv).
      { rewrite Hr. unfold updated. fields. by rewrite Hnext. }
      { cbn [version]. lia. }
      { cbn [version]. lia. }
      exists s'. split; [done|]. split; [done|]. rewrite Hv. cbn. lia.
Qed.

(** ** Base64 *)

Lemma base64_length (bytes : list byte) :
  String.length (base64 bytes) = (4 * ((List.length bytes + 2) / 3))%nat.
Proof.
  assert (Hall : ∀ n bs, (List.length bs < n)%nat →
            String.length (base64 bs) = (4 * ((List.length bs + 2) / 3))%nat).
  { induction n as [|n IH]; intros bs Hn; [lia|].
    destruct bs as [|a [|b [|c rest]]]; try reflexivity.
    cbn [base64 String.length List.length]. rewrite IH by (cbn in Hn; lia).
    replace (S (S (S (List.length rest))) + 2)%nat
      with (1 * 3 + (List.length rest + 2))%nat by lia.
    rewrite Nat.div_add_l by lia. lia. }
  apply (Hall (S (List.length bytes))). lia.
Qed.

(** ** The importer *)

Section ImportedFields.
Context `{Runtime}.

Lemma importDepreciatedFields_run application w :
  importDepreciatedFields application w =
  let newApplication :=
    imported application (clock w (ticks w)) (clock w (S (ticks w))) in
  (depreciatedDisplay ←
     pure (JSON_parse_column (depreciated_display_configuration application));
   display' ← pure (importDepreciatedDisplayFields newApplication depreciatedDisplay);
   mret (with_display (Some display') newApplication))
    (with_ticks (S (S (ticks w))) w).
Proof.
  unfold importDepreciatedFields, imported, capability, parse_capabilities.
  unfold JSON_parse_column.
  destruct (JSON_parse (or_text (depreciated_capabilities application) "[]"));
    reflexivity.
Qed.

Lemma importDepreciatedFields_thrown application w e :
  JSON_parse_column (depreciated_display_configuration application) = Thrown e →
  importDepreciatedFields application w = (with_ticks (S (S (ticks w))) w, Thrown e).
Proof.
  intros Hparse. rewrite importDepreciatedFields_run. cbn zeta. run.
  by rewrite Hparse.
Qed.

Lemma importDepreciatedFields_returned application w w' e :
  importDepreciatedFields application w = (w', Returned e) →
  ∃ depreciatedDisplay display',
    let newApplication :=
      imported application (clock w (ticks w)) (clock w (S (ticks w))) in
    JSON_parse_column (depreciated_display_configuration application)
    = Returned depreciatedDisplay
    ∧ importDepreciatedDisplayFields newApplication depreciatedDisplay
      = Returned display'
    ∧ e = with_display (Some display') newApplication
    ∧ w' = with_ticks (S (S (ticks w))) w.
Proof.
  rewrite importDepreciatedFields_run. cbn zeta. run.
  destruct (JSON_parse_column _) as [d|]; [|done].
  destruct (importDepreciatedDisplayFields _ d) as [disp|] eqn:Hdisplay; [|done].
  intros [= <- <-]. by exists d, disp.
Qed.

Lemma capability_malformed (s : string) :
  s ≠ "" → JSON_parse s = None → capability (Value s) = JArr [].
Proof.
  intros Hs Hparse. unfold capability, parse_capabilities, JSON_parse_column, or_text.
  unfold truthy at 1, string_truthy. rewrite bool_decide_eq_false_2 by done.
  cbn [negb]. by rewrite Hparse.
Qed.

Lemma capability_absent (text : Nullable string) :
  truthy text = false → JSON_parse "[]" = Some (JArr []) → capability text = JArr [].
Proof.
  intros Habsent Hparse.
  assert (or_text text "[]" = "[]") as Htext.
  { destruct text as [| |s]; try done. unfold or_text.
    change (truthy s = false) in Habsent. by rewrite Habsent. }
  unfold capability, parse_capabilities, JSON_parse_column.
  by rewrite Htext, Hparse.
Qed.

End ImportedFields.

(** ** The display configuration *)

(** The part of the display that does not depend on the modules. *)
Lemma importDepreciatedDisplayFields_returned application depreciatedDisplay display' :
  importDepreciatedDisplayFields application depreciatedDisplay = Returned display' →
  ∃ direct' files' chat',
    display' = {| twake := Some {|
      tab :=
        if truthy (depreciatedDisplay?."channel_tab")
        then Some (UrlObject (depreciatedDisplay?."channel_tab"?."iframe"))
        else None;
      standalone :=
        if truthy (depreciatedDisplay?."app")
        then Some (UrlObject (depreciatedDisplay?."app"?."iframe"))
        else None;
      configuration := Some (
        (if truthy (depreciatedDisplay?."configuration"?."can_configure_in_workspace")
         then ["global"] else [])
        ++
        (if truthy (depreciatedDisplay?."configuration"?."can_configure_in_channel")
         then ["channel"] else []));
      direct := direct';
      files := files';
      chat := chat';
    |} |}.
Proof.
  unfold importDepreciatedDisplayFields. cbn zeta.
  repeat match goal with
  | |- (?m ≫= _) = _ → _ =>
      let x := fresh "x" in destruct m as [x|]; [cbn [mbind Outcome_bind]|done]
  end.
  intros [= <-]. eexists _, _, _.
  by destruct
    (truthy (depreciatedDisplay?."configuration"?."can_configure_in_workspace")),
    (truthy (depreciatedDisplay?."configuration"?."can_configure_in_channel")).
Qed.

(** The transformation returns for an application that has an identity and
    a configuration without a drive module. *)
Lemma importDepreciatedDisplayFields_total application depreciatedDisplay :
  is_Some (identity application) →
  truthy (depreciatedDisplay?."drive_module") = false →
  ∃ display', importDepreciatedDisplayFields application depreciatedDisplay
              = Returned display'.
Proof.
  intros [idn Hid] Hdrive. unfold importDepreciatedDisplayFields. cbn zeta.
  rewrite Hid, Hdrive. cbn [the mbind mret Outcome_bind Outcome_ret].
  destruct (truthy (depreciatedDisplay?."member_app"));
    cbn [the mbind mret Outcome_bind Outcome_ret];
    destruct (truthy (depreciatedDisplay?."messages_module"));
    cbn [the mbind mret Outcome_bind Outcome_ret];
    try (destruct (truthy (_ ||| _)); cbn [the mbind mret Outcome_bind Outcome_ret]);
    by eexists.
Qed.

(** The bindings of the channel tab and of the standalone application are
    never the boolean flag. *)
Lemma tab_is_never_a_flag application depreciatedDisplay display' tw :
  importDepreciatedDisplayFields application depreciatedDisplay = Returned display' →
  twake display' = Some tw →
  tab tw =
    (if truthy (depreciatedDisplay?."channel_tab")
     then Some (UrlObject (depreciatedDisplay?."channel_tab"?."iframe"))
     else None)
  ∧ standalone tw =
    (if truthy (depreciatedDisplay?."app")
     then Some (UrlObject (depreciatedDisplay?."app"?."iframe"))
     else None).
Proof.
  intros Hrun Htw.
  apply importDepreciatedDisplayFields_returned in Hrun as (x & y & z & ->).
  by injection Htw as <-.
Qed.

(** ** The migration *)

Section Migration.
Context `{Runtime}.

Lemma migrate_each_app replaceExisting entities page1 page2 w :
  ApplicationController.migrate_each replaceExisting entities (page1 ++ page2) w =
  match ApplicationController.migrate_each replaceExisting entities page1 w with
  | (w1, Returned entities1) =>
      ApplicationController.migrate_each replaceExisting entities1 page2 w1
  | (w1, Thrown e) => (w1, Thrown e)
  end.
Proof.
  revert entities w. induction page1 as [|application page1 IH]; intros entities w.
  - reflexivity.
  - cbn [app ApplicationController.migrate_each]. rewrite !bind_run.
    destruct (ApplicationController.migrate_one _ _ _ _) as [w1 [entities1|e]];
      [apply IH|done].
Qed.

Lemma migrate_pages_concat replaceExisting first nextPage entities w :
  ApplicationController.migrate_pages replaceExisting first nextPage entities w =
  ApplicationController.migrate_each replaceExisting entities
    (first ++ List.concat nextPage) w.
Proof.
  revert first entities w.
  induction nextPage as [|second nextPage IH]; intros first entities w.
  - cbn [ApplicationController.migrate_pages List.concat].
    rewrite app_nil_r, bind_run.
    by destruct (ApplicationController.migrate_each _ _ _ _) as [w1 [entities1|e]].
  - cbn [ApplicationController.migrate_pages List.concat].
    rewrite bind_run, migrate_each_app.
    destruct (ApplicationController.migrate_each _ _ first _) as [w1 [entities1|e]];
      [apply IH|done].
Qed.

(** The migration takes the legacy records in the order of the pages. *)
Lemma migrate_all w :
  ApplicationController.migrate w =
  ApplicationController.migrate_each true [] (List.concat (php_applications w)) w.
Proof.
  unfold ApplicationController.migrate, phpRepository_find.
  destruct (php_applications w) as [|first nextPage]; [done|].
  apply migrate_pages_concat.
Qed.

Lemma migrate_one_thrown entities application w e :
  JSON_parse_column (depreciated_display_configuration application) = Thrown e →
  ApplicationController.migrate_one true entities application w
  = (with_ticks (S (S (ticks w))) w, Thrown e).
Proof.
  intros Hparse. unfold ApplicationController.migrate_one.
  rewrite bind_run. unfold repository_findOne, marketplaceApps_get at 1.
  rewrite orb_true_r, bind_run.
  by rewrite (importDepreciatedFields_thrown application w e).
Qed.

End Migration.

(** ** The event handler *)

(** Whether the user is a member of the company plays no part. *)
Lemma event_run application_id body user w :
  ApplicationController.event application_id body user w =
  match applications w !! application_id with
  | None => (w, Thrown (NotFound "Application not found"))
  | Some _ =>
      if bool_decide ((body_company_id body, application_id) ∈ company_applications w)
      then
        let call := {|
          hook_application_id := application_id;
          hook_connection_id := body_connection_id body;
          hook_user_id := user;
          hook_type := body_type body;
          hook_name := body_name body;
          hook_content := body_data body;
          hook_company_id := body_company_id body;
          hook_workspace_id := body_workspace_id body;
        |} in
        (with_notifications (call :: notifications w) w, Returned (hook_response w call))
      else (w, Thrown (BadRequest "Application isn't installed in this company"))
  end.
Proof.
  unfold ApplicationController.event. rewrite bind_run.
  unfold marketplaceApps_get at 1.
  destruct (applications w !! application_id); [|done].
  cbn [truthy object_truthy negb Promise_truthy]. rewrite bind_run.
  unfold companyApps_get at 1.
  by destruct (bool_decide _).
Qed.

(** ** Accepted and refused updates *)

Lemma save_update_accepted now k app w stored sp p sa a ss :
  applications w !! k = Some stored →
  publication stored = Some sp → publication app = Some p →
  api stored = Some sa → api app = Some a →
  stats stored = Some ss →
  is_false (requested p) = true ∨ truthy (published sp) = false →
  let r := with_id (Some (key_of stored w)) (updated now stored app sp p sa a ss) in
  ApplicationController.save_update now k app w
  = (with_applications (<[key_of stored w := r]> (applications w)) w, Returned r).
Proof.
  intros Hget Hsp Hp Hsa Ha Hss Hopen r.
  unfold ApplicationController.save_update. rewrite bind_run.
  unfold marketplaceApps_get at 1. rewrite Hget. run. rewrite Hp, Hsp. run.
  fields. rewrite Ha, Hsa, Hss. run.
  assert (Hr : r = with_id (Some (key_of stored w))
                 (with_stats (Some {| created_at := created_at ss; updated_at := now;
                                      version := increment (version ss) |})
                    (with_display (display app)
                       (with_access (access app)
                          (with_api (Some {| hooks_url := hooks_url a;
                                             allowed_ips := allowed_ips a;
                                             private_key := private_key sa |})
                             (with_identity (identity app)
                                (with_publication
                                   (Some (if is_false (requested p)
                                          then {| published := Value false;
                                                  requested := requested p |}
                                          else {| published := published sp;
                                                  requested := requested p |}))
                                   stored))))))).
  { subst r. unfold updated. by destruct (is_false (requested p)). }
  destruct (is_false (requested p)) eqn:Hreq; cbn [published requested truthy
    Nullable_truthy bool_truthy].
  - by rewrite Hr.
  - destruct (truthy (published sp)) eqn:Hpub.
    + by destruct Hopen.
    + by rewrite Hr.
Qed.

Lemma save_update_thrown now k app w w' e :
  ApplicationController.save_update now k app w = (w', Thrown e) → w' = w.
Proof.
  unfold ApplicationController.save_update. rewrite bind_run.
  unfold marketplaceApps_get at 1.
  destruct (applications w !! k) as [stored|]; [|by intros [= <-]].
  run. destruct (publication app) as [p|]; [|by intros [= <-]].
  destruct (publication stored) as [sp|]; [|by intros [= <-]].
  run. fields.
  destruct (truthy (published _));
    [destruct (negb (isEqual _ _)); [by intros [= <-]|]|];
    (destruct (api app); [|by intros [= <-]]);
    (destruct (api stored); [|by intros [= <-]]);
    (destruct (stats stored); [|by intros [= <-]]);
    by unfold marketplaceApps_save.
Qed.

(** ** The keying of the store *)

Lemma keyed_insert w key entity w' :
  keyed w → id entity = Some key →
  applications w' = <[key := entity]> (applications w) →
  keyed w'.
Proof.
  intros Hkeyed Hid Happs key' entity'. rewrite Happs, lookup_insert.
  case_decide; [|by apply Hkeyed]. by intros [= <-]; subst.
Qed.

Lemma save_keeps_keyed application_id app w :
  keyed w → keyed (ApplicationController.save application_id app w).1.
Proof.
  intros Hkeyed. destruct (truthy application_id) eqn:Hk.
  - destruct application_id as [| |k]; try done.
    assert (k ≠ "") as Hne.
    { intros ->. by vm_compute in Hk. }
    rewrite save_existing by done.
    destruct (ApplicationController.save_update _ _ _ _) as [w1 [entity|e]] eqn:Hupdate.
    + apply save_update_returned in Hupdate
        as (stored & sp & p & sa & a & ss & _ & _ & _ & _ & _ & _ & _ & Hr & ->).
      assert (keyed (with_applications
                       (<[key_of stored (with_ticks (S (ticks w)) w) := entity]>
                          (applications (with_ticks (S (ticks w)) w)))
                       (with_ticks (S (ticks w)) w))) as Hkeyed1.
      { eapply (keyed_insert w); [done| |done]. by rewrite Hr. }
      destruct (identity app) as [idn|] eqn:Hid.
      * match goal with
        | |- context [ApplicationController.sync_plugins ?e ?x ?y ?z] =>
            destruct (sync_plugins_returned e x y z idn Hid) as (w2 & -> & Happs & _)
        end.
        cbn [fst]. intros key e'. rewrite Happs. apply Hkeyed1.
      * by rewrite sync_plugins_missing.
    + apply save_update_thrown in Hupdate as ->. done.
  - rewrite save_new by done.
    destruct (publication app) as [p|] eqn:Hp; cycle 1.
    { destruct (save_insert_thrown (clock w (ticks w)) app (with_ticks (S (ticks w)) w))
        as (w1 & -> & Happs); [by auto|].
      cbn [fst]. intros key e'. rewrite Happs. apply Hkeyed. }
    destruct (api app) as [a|] eqn:Ha; cycle 1.
    { destruct (save_insert_thrown (clock w (ticks w)) app (with_ticks (S (ticks w)) w))
        as (w1 & -> & Happs); [by auto|].
      cbn [fst]. intros key e'. rewrite Happs. apply Hkeyed. }
    rewrite (save_insert_returned _ _ _ p a) by done. cbn zeta.
    match goal with
    | |- context [ApplicationController.sync_plugins ?e ?x (with_id ?k ?y) ?z] =>
        assert (keyed z) as Hkeyed1
          by (eapply (keyed_insert w); [done| |done]; done);
        destruct (identity x) as [idn|] eqn:Hid;
          [destruct (sync_plugins_returned e x (with_id k y) z idn Hid)
             as (w2 & -> & Happs & _)
          |rewrite (sync_plugins_missing e x (with_id k y) z Hid)]
    end.
    + cbn [fst]. intros key e'. rewrite Happs. apply Hkeyed1.
    + done.
Qed.

Section MigrationInvariant.
Context `{Runtime}.

Lemma migrate_one_keeps_keyed entities application w :
  keyed w →
  keyed (ApplicationController.migrate_one true entities application w).1.
Proof.
  intros Hkeyed. unfold ApplicationController.migrate_one.
  rewrite bind_run. unfold repository_findOne, marketplaceApps_get at 1.
  rewrite orb_true_r, bind_run.
  destruct (importDepreciatedFields application w) as [w1 [e|err]] eqn:Himport.
  - apply importDepreciatedFields_returned in Himport as (d & disp & _ & _ & -> & ->).
    rewrite bind_run. unfold marketplaceApps_save at 1. cbn [fst].
    eapply (keyed_insert w); [done| |reflexivity]. reflexivity.
  - rewrite importDepreciatedFields_run in Himport. cbn zeta in Himport.
    revert Himport. run.
    destruct (JSON_parse_column _) as [d|];
      [destruct (importDepreciatedDisplayFields _ d)|]; by intros [= <- _].
Qed.

Lemma migrate_each_keeps_keyed entities page w :
  keyed w →
  keyed (ApplicationController.migrate_each true entities page w).1.
Proof.
  revert entities w. induction page as [|application page IH]; intros entities w Hkeyed.
  - done.
  - cbn [ApplicationController.migrate_each]. rewrite bind_run.
    pose proof (migrate_one_keeps_keyed entities application w Hkeyed) as Hone.
    destruct (ApplicationController.migrate_one _ _ _ _) as [w1 [entities1|e]];
      [by apply IH|done].
Qed.

End MigrationInvariant.

(** The display transformation reads the identity and the display of the
    application, and nothing else of it. *)
Lemma importDepreciatedDisplayFields_reads a b depreciatedDisplay :
  identity a = identity b → display a = display b →
  importDepreciatedDisplayFields a depreciatedDisplay
  = importDepreciatedDisplayFields b depreciatedDisplay.
Proof.
  intros Hid Hdisplay. unfold importDepreciatedDisplayFields.
  by rewrite Hid, Hdisplay.
Qed.


(** * The claims *)

(** ** C1: the freeze of a published record *)

(** C1, as amended.  An update request that carries a publication object
    whose [requested] is not [false], on a record whose stored state is
    published: when the request's identity, api, access or display differ
    (deep equality) from the stored ones, [save] throws the validation error
    and nothing is saved; the handler has only read the clock. *)
Theorem update_of_published_is_frozen
    (w : World) (application_id : string) (app stored : Application)
    (sp p : Publication) :
  application_id ≠ "" →
  applications w !! application_id = Some stored →
  publication stored = Some sp → truthy (published sp) = true →
  publication app = Some p → is_false (requested p) = false →
  pick stored ≠ pick app →
  ∃ w',
    ApplicationController.save (Value application_id) app w
    = (w', Thrown (BadRequest "You can't update applications details while it published"))
    ∧ w' = with_ticks (S (ticks w)) w
    ∧ applications w' = applications w
    ∧ plugin_posts w' = plugin_posts w.
Proof.
  intros Hk Hget Hsp Hpub Hp Hreq Hne.
  eexists. rewrite save_existing by done.
  erewrite save_update_rejected by done. done.
Qed.

(** The published application [a1] cannot be renamed by a request that
    keeps the publication requested. *)
Lemma update_of_published_is_frozen_witness :
  ∃ w',
    ApplicationController.save (Value "a1")
      (sample_application "a1" true true "Bar") sample_world
    = (w', Thrown (BadRequest "You can't update applications details while it published"))
    ∧ w' = with_ticks (S (ticks sample_world)) sample_world
    ∧ applications w' = applications sample_world
    ∧ plugin_posts w' = plugin_posts sample_world.
Proof.
  apply (update_of_published_is_frozen sample_world "a1"
           (sample_application "a1" true true "Bar")
           (sample_application "a1" true true "Foo")
           {| published := Value true; requested := Value true |}
           {| published := Value true; requested := Value true |});
    [done | reflexivity | reflexivity | reflexivity | reflexivity | reflexivity
    | vm_compute; congruence].
Defined.

(** C1 as stated fails: a request with [requested = false] un-publishes the
    record before the comparison, so it renames the published application
    [a1], and the renamed record is saved. *)
Lemma withdrawn_request_lifts_the_freeze :
  applications sample_world !! "a1" = Some (sample_application "a1" true true "Foo")
  ∧ isEqual (pick (sample_application "a1" true true "Foo"))
            (pick (sample_application "a1" true false "Bar")) = false
  ∧ ∃ w' r,
      ApplicationController.save (Value "a1")
        (sample_application "a1" true false "Bar") sample_world
      = (w', Returned r)
      ∧ identity r = Some (sample_identity "Bar")
      ∧ applications w' !! "a1" = Some r.
Proof.
  split; [reflexivity|]. split; [vm_compute; reflexivity|].
  eexists _, _. split; [vm_compute; reflexivity|]. split; reflexivity.
Qed.

(** ** C2: creation *)

(** C2, as amended.  For every draft that carries an identity, a
    publication and an api object, [save] without an application id returns
    the record as stored, with [is_default = false],
    [publication.published = false], [stats = {now, now, 0}] and
    [api.private_key] the base64 text (44 characters) of the next 32 bytes
    of the random source, whatever the draft held in these fields. *)
Theorem create_forces_the_reserved_fields
    (w : World) (application_id : Nullable string) (app : Application)
    (idn : Identity) (p : Publication) (a : Api) :
  truthy application_id = false →
  identity app = Some idn → publication app = Some p → api app = Some a →
  let now := clock w (ticks w) in
  let secret := entropy w <$> seq (drawn w) 32 in
  ∃ w' r key,
    ApplicationController.save application_id app w = (w', Returned r)
    ∧ is_default r = Value false
    ∧ publication r = Some {| published := Value false; requested := requested p |}
    ∧ api r = Some {|
        hooks_url := hooks_url a;
        allowed_ips := allowed_ips a;
        private_key := Value (base64 secret);
      |}
    ∧ stats r = Some {| created_at := now; updated_at := now; version := 0 |}
    ∧ List.length secret = 32%nat
    ∧ String.length (base64 secret) = 44%nat
    ∧ drawn w' = (drawn w + 32)%nat
    ∧ id r = Some key
    ∧ applications w' !! key = Some r.
Proof.
  intros Hk Hid Hp Ha now secret.
  rewrite save_new by done.
  rewrite (save_insert_returned _ _ _ p a) by done. cbn zeta.
  match goal with
  | |- context [ApplicationController.sync_plugins ?e ?x ?y ?z] =>
      destruct (sync_plugins_returned e x y z idn Hid)
        as (w2 & -> & Happs & _ & Hdrawn & _)
  end.
  eexists _, _, (key_of app w). split; [done|]. rewrite Happs, Hdrawn.
  clear Happs Hdrawn.
  assert (Hlen : List.length secret = 32%nat)
    by (subst secret; by rewrite length_fmap, length_seq).
  assert (Hkey : String.length (base64 secret) = 44%nat)
    by (by rewrite base64_length, Hlen).
  repeat split; try done.
  cbn [applications with_applications]. apply lookup_insert_eq.
Qed.

(** The draft of the creation scenario, given an api object and the
    default flag. *)
Lemma create_forces_the_reserved_fields_witness :
  ∃ w' r key,
    ApplicationController.save Undefined
      (with_api (Some (sample_api "mine"))
         (with_is_default (Value true) scenario_A_draft)) sample_world
    = (w', Returned r)
    ∧ is_default r = Value false
    ∧ publication r = Some {| published := Value false; requested := Value false |}
    ∧ api r = Some {|
        hooks_url := Value "https://foo.example/hooks";
        allowed_ips := Value "*";
        private_key :=
          Value (base64 (entropy sample_world <$> seq (drawn sample_world) 32));
      |}
    ∧ stats r = Some {| created_at := 2000; updated_at := 2000; version := 0 |}
    ∧ List.length (entropy sample_world <$> seq (drawn sample_world) 32) = 32%nat
    ∧ String.length (base64 (entropy sample_world <$> seq (drawn sample_world) 32))
      = 44%nat
    ∧ drawn w' = (drawn sample_world + 32)%nat
    ∧ id r = Some key
    ∧ applications w' !! key = Some r.
Proof.
  apply (create_forces_the_reserved_fields sample_world Undefined
           (with_api (Some (sample_api "mine"))
              (with_is_default (Value true) scenario_A_draft))
           {| code := Undefined; name := Value "Foo"; icon := Undefined;
              description := Undefined; website := Undefined; categories := None;
              compatibility := None; repository := Undefined |}
           {| published := Undefined; requested := Value false |}
           (sample_api "mine"));
    reflexivity.
Defined.

(** C2 as stated fails: the draft of the creation scenario has no api
    object, the assignment to [app.api.private_key] throws, and nothing is
    stored. *)
Lemma scenario_A_draft_is_refused :
  api scenario_A_draft = None
  ∧ ∃ w',
      ApplicationController.save Undefined scenario_A_draft sample_world
      = (w', Thrown TypeError)
      ∧ applications w' = applications sample_world.
Proof. split; [reflexivity|]. eexists. split; reflexivity. Qed.

(** The key made of the bytes 0, 1, ..., 31. *)
Example key_of_the_first_bytes :
  base64 (entropy sample_world <$> seq (drawn sample_world) 32)
  = "AAECAwQFBgcICQoLDA0ODxAREhMUFRYXGBkaGxwdHh8=".
Proof. vm_compute. reflexivity. Qed.

(** ** C3: the version counter *)

(** C3, as amended.  The version is a double and an update adds one to it
    as doubles are added.  An update that returns leaves a version one above
    the stored one when the stored version lies from -2^53 up to, and
    without, 2^53; a stored version of 2^53 is left as it is.  A creation
    that returns leaves version 0; an import that returns leaves version 1.
    Hence after [n] updates of a record that all returned, the stored
    version is the initial one plus [n], as long as the initial version is
    at least -2^53 and that sum at most 2^53. *)
Theorem version_counts_the_updates `{Runtime} :
  (∀ w application_id app stored s w' r,
     application_id ≠ "" →
     applications w !! application_id = Some stored → stats stored = Some s →
     ApplicationController.save (Value application_id) app w = (w', Returned r) →
     version <$> stats r = Some (increment (version s))
     ∧ (- 2 ^ 53 ≤ version s < 2 ^ 53 →
        version <$> stats r = Some (version s + 1))
     ∧ (version s = 2 ^ 53 → version <$> stats r = Some (version s)))
  ∧ (∀ w application_id app w' r,
       truthy application_id = false →
       ApplicationController.save application_id app w = (w', Returned r) →
       version <$> stats r = Some 0)
  ∧ (∀ w application w' e,
       importDepreciatedFields application w = (w', Returned e) →
       version <$> stats e = Some 1)
  ∧ (∀ n w application_id stored s w',
       application_id ≠ "" →
       applications w !! application_id = Some stored →
       id stored = Some application_id → stats stored = Some s →
       - 2 ^ 53 ≤ version s → version s + Z.of_nat n ≤ 2 ^ 53 →
       updates application_id n w w' →
       ∃ stored' s',
         applications w' !! application_id = Some stored'
         ∧ stats stored' = Some s'
         ∧ version s' = version s + Z.of_nat n).
Proof.
  split; [|split; [|split]].
  - intros w k app stored s w' r Hk Hget Hs Hsave.
    apply save_existing_returned in Hsave
      as (stored0 & sp & p & sa & a & ss & Hget0 & _ & _ & _ & _ & Hss & _ & -> & _);
      [|done].
    assert (stored0 = stored) as -> by congruence.
    assert (ss = s) as -> by congruence.
    split; [reflexivity|]. split.
    + intros Hbound.
      change (Some (increment (version s)) = Some (version s + 1)).
      by rewrite increment_exact.
    + intros Hlast.
      change (Some (increment (version s)) = Some (version s)).
      by rewrite Hlast, increment_stuck.
  - intros w k app w' r Hk Hsave.
    apply save_new_returned in Hsave as (p & a & _ & _ & -> & _); [|done].
    reflexivity.
  - intros w application w' e Hrun.
    apply importDepreciatedFields_returned in Hrun as (d & disp & _ & _ & -> & _).
    reflexivity.
  - intros n w k stored s w' Hk Hget Hid Hs Hlow Hhigh Hupdates.
    destruct (updates_frame k n w w' Hupdates Hk stored Hget Hid)
      as (stored' & Hget' & _ & _ & _ & _ & Hstats).
    destruct (Hstats s Hs Hlow Hhigh) as (s' & Hs' & _ & Hv). by exists stored', s'.
Qed.

(** Two updates of the draft [a2], stored with version 3, leave version 5. *)
Lemma two_updates_of_a_draft :
  ∃ w',
    updates "a2" 2 sample_world w'
    ∧ ∃ stored' s',
        applications w' !! "a2" = Some stored'
        ∧ stats stored' = Some s'
        ∧ version s' = 3 + Z.of_nat 2.
Proof.
  assert (∃ w', updates "a2" 2 sample_world w') as [w' Hupdates].
  { eexists.
    eapply (updates_more "a2" _ _ (sample_application "a2" false false "Bar"));
      [vm_compute; reflexivity|].
    eapply (updates_more "a2" _ _ (sample_application "a2" false true "Baz"));
      [vm_compute; reflexivity|].
    apply updates_none. }
  exists w'. split; [done|].
  apply (proj2 (proj2 (proj2 (version_counts_the_updates (H := Node.runtime))))
           2%nat sample_world "a2" (sample_application "a2" false false "Foo")
           {| created_at := 1000; updated_at := 1000; version := 3 |} w');
    [done | reflexivity | reflexivity | reflexivity | done | done | done].
Defined.

(** C3 as stated fails: a version of 2^53 is not increased.  The draft [a2]
    stored with version 9007199254740992 is renamed; the update returns,
    and the record it stores has that same version. *)
Lemma version_stays_at_two_to_the_53 :
  applications worn_world !! "a2" = Some worn_application
  ∧ version <$> stats worn_application = Some 9007199254740992
  ∧ ∃ w' r,
      ApplicationController.save (Value "a2")
        (sample_application "a2" false false "Bar") worn_world
      = (w', Returned r)
      ∧ applications w' !! "a2" = Some r
      ∧ (name <$> identity r) = Some (Value "Bar")
      ∧ version <$> stats r = Some 9007199254740992.
Proof.
  split; [reflexivity|]. split; [reflexivity|]. eexists _, _.
  split; [vm_compute; reflexivity|]. split; [reflexivity|]. split; reflexivity.
Qed.

(** ** C4: what an update writes *)

(** C4, as amended.  An update that returns writes the publication, the
    identity, [api.hooks_url], [api.allowed_ips], the access, the display
    and the stats of the one record it names; the id, the company, the
    default flag, [api.private_key] and the creation time keep their stored
    values.  Of the publication, [requested] is the request's, and
    [published] keeps its stored value unless the request has
    [requested = false], which sets it to [false]; of the stats,
    [updated_at] is the time of the update.  Hence the private key after
    [n] updates is the stored one, and after a creation and [n] updates it
    is the key generated at creation. *)
Theorem update_keeps_the_private_key :
  (∀ w application_id app stored w' r,
     application_id ≠ "" →
     applications w !! application_id = Some stored →
     id stored = Some application_id →
     ApplicationController.save (Value application_id) app w = (w', Returned r) →
     (id r = id stored
      ∧ company_id r = company_id stored
      ∧ is_default r = is_default stored
      ∧ chain (api r) private_key = chain (api stored) private_key
      ∧ created_at <$> stats r = created_at <$> stats stored)
     ∧ (identity r = identity app
        ∧ chain (api r) hooks_url = chain (api app) hooks_url
        ∧ chain (api r) allowed_ips = chain (api app) allowed_ips
        ∧ access r = access app
        ∧ display r = display app)
     ∧ (chain (publication r) requested = chain (publication app) requested
        ∧ (is_false (chain (publication app) requested) = false →
           chain (publication r) published = chain (publication stored) published)
        ∧ (is_false (chain (publication app) requested) = true →
           chain (publication r) published = Value false))
     ∧ updated_at <$> stats r = Some (clock w (ticks w))
     ∧ applications w' = <[application_id := r]> (applications w))
  ∧ (∀ n w application_id stored w',
       application_id ≠ "" →
       applications w !! application_id = Some stored →
       id stored = Some application_id →
       updates application_id n w w' →
       ∃ stored',
         applications w' !! application_id = Some stored'
         ∧ chain (api stored') private_key = chain (api stored) private_key)
  ∧ (∀ n w draft w1 r application_id w2,
       ApplicationController.save Undefined draft w = (w1, Returned r) →
       id r = Some application_id → application_id ≠ "" →
       updates application_id n w1 w2 →
       ∃ stored',
         applications w2 !! application_id = Some stored'
         ∧ chain (api stored') private_key
           = Value (base64 (entropy w <$> seq (drawn w) 32))).
Proof.
  split; [|split].
  - intros w k app stored w' r Hk Hget Hid Hsave.
    apply save_existing_returned in Hsave
      as (stored0 & sp & p & sa & a & ss & Hget0 & Hsp & Hp & Hsa & Ha & Hss & _ & Hr & Happs);
      [|done].
    assert (stored0 = stored) as -> by congruence.
    assert (Hkey : key_of stored w = k) by (unfold key_of; by rewrite Hid).
    rewrite Hkey in Hr, Happs. rewrite Happs, Hr. fields.
    rewrite Hid, Hsp, Hp, Hsa, Ha, Hss. cbn [chain].
    split; [done|]. split; [done|]. split; [|done].
    unfold updated. cbn [publication chain].
    split; [by destruct (is_false (requested p))|].
    split; by intros ->.
  - intros n w k stored w' Hk Hget Hid Hupdates.
    destruct (updates_frame k n w w' Hupdates Hk stored Hget Hid)
      as (stored' & Hget' & _ & _ & _ & Hkey & _).
    by exists stored'.
  - intros n w draft w1 r k w2 Hsave Hid Hk Hupdates.
    apply save_new_returned in Hsave as (p & a & _ & _ & Hr & Happs & _); [|done].
    assert (Hkey : key_of draft w = k) by (rewrite Hr in Hid; by injection Hid).
    rewrite Hkey in Happs.
    destruct (updates_frame k n w1 w2 Hupdates Hk r)
      as (stored' & Hget' & _ & _ & _ & Hsecret & _).
    { rewrite Happs. apply lookup_insert_eq. }
    { done. }
    exists stored'. split; [done|]. rewrite Hsecret, Hr. reflexivity.
Qed.

(** Two updates of the draft [a2], the second of which carries another
    private key, leave the stored key. *)
Lemma private_key_after_two_updates :
  ∃ w',
    updates "a2" 2 sample_world w'
    ∧ ∃ stored',
        applications w' !! "a2" = Some stored'
        ∧ chain (api stored') private_key = Value "c2VjcmV0".
Proof.
  assert (∃ w', updates "a2" 2 sample_world w') as [w' Hupdates].
  { eexists.
    eapply (updates_more "a2" _ _ (sample_application "a2" false false "Bar"));
      [vm_compute; reflexivity|].
    eapply (updates_more "a2" _ _
              (with_api (Some (sample_api "b3RoZXI="))
                 (sample_application "a2" false true "Baz")));
      [vm_compute; reflexivity|].
    apply updates_none. }
  exists w'. split; [done|].
  apply (proj1 (proj2 update_keeps_the_private_key)
           2%nat sample_world "a2" (sample_application "a2" false false "Foo") w');
    [done | reflexivity | reflexivity | done].
Defined.

(** C4 as stated fails: an update also writes the publication.  A request
    that differs from the draft [a2] in [publication.requested] only is
    saved with the new value. *)
Lemma update_writes_the_publication :
  applications sample_world !! "a2" = Some (sample_application "a2" false false "Foo")
  ∧ ∃ w' r,
      ApplicationController.save (Value "a2")
        (sample_application "a2" false true "Foo") sample_world
      = (w', Returned r)
      ∧ applications w' !! "a2" = Some r
      ∧ publication (sample_application "a2" false false "Foo")
        = Some {| published := Value false; requested := Value false |}
      ∧ publication r = Some {| published := Value false; requested := Value true |}.
Proof.
  split; [reflexivity|]. eexists _, _.
  split; [vm_compute; reflexivity|]. split; [reflexivity|]. split; reflexivity.
Qed.

(** ** C5: the capability columns *)

(** C5.  In an imported record every capability list is the value of its
    own column ([write] and [delete] share one): a text that is not JSON
    gives the empty list, and so does a missing text when the platform
    parses the text of the empty array to the empty array.  The capability
    columns decide nothing but the access lists: with other columns the
    importer returns the same record but for its access, or throws the same
    error.  In particular a record whose capability columns are "not json"
    is imported with four empty lists; and whatever the capability columns
    hold, the importer returns when the display configuration parses to a
    configuration without a drive module. *)
Theorem capabilities_are_parsed_independently `{Runtime}
    (application : PhpApplication) (w : World) :
  (∀ w' e,
     importDepreciatedFields application w = (w', Returned e) →
     access e = Some {|
       read := capability (depreciated_privileges application);
       write := capability (depreciated_capabilities application);
       delete := capability (depreciated_capabilities application);
       hooks := capability (depreciated_hooks application);
     |})
  ∧ (∀ s, s ≠ "" → JSON_parse s = None → capability (Value s) = JArr [])
  ∧ (∀ text, truthy text = false → JSON_parse "[]" = Some (JArr []) →
       capability text = JArr [])
  ∧ (∀ capabilities privileges hooks',
       importDepreciatedFields
         (with_capability_columns capabilities privileges hooks' application) w
       = match importDepreciatedFields application w with
         | (w', Returned e) =>
             (w', Returned (with_access (Some {|
                read := capability privileges;
                write := capability capabilities;
                delete := capability capabilities;
                hooks := capability hooks';
              |}) e))
         | (w', Thrown err) => (w', Thrown err)
         end)
  ∧ (JSON_parse "not json" = None →
     depreciated_capabilities application = Value "not json" →
     depreciated_privileges application = Value "not json" →
     depreciated_hooks application = Value "not json" →
     ∀ w' e,
       importDepreciatedFields application w = (w', Returned e) →
       access e = Some {|
         read := JArr []; write := JArr []; delete := JArr []; hooks := JArr [];
       |})
  ∧ (∀ depreciatedDisplay,
       JSON_parse_column (depreciated_display_configuration application)
       = Returned depreciatedDisplay →
       truthy (depreciatedDisplay?."drive_module") = false →
       ∃ w' e, importDepreciatedFields application w = (w', Returned e)).
Proof.
  split; [|split; [|split; [|split; [|split]]]].
  - intros w' e Hrun.
    by apply importDepreciatedFields_returned in Hrun as (d & disp & _ & _ & -> & _).
  - apply capability_malformed.
  - apply capability_absent.
  - intros capabilities privileges hooks'. rewrite !importDepreciatedFields_run.
    cbn zeta. run.
    cbn [depreciated_display_configuration with_capability_columns].
    destruct (JSON_parse_column _) as [d|]; [|done].
    change (importDepreciatedDisplayFields
              (imported (with_capability_columns capabilities privileges hooks' application)
                 (clock w (ticks w)) (clock w (S (ticks w)))) d)
      with (importDepreciatedDisplayFields
              (imported application (clock w (ticks w)) (clock w (S (ticks w)))) d).
    by destruct (importDepreciatedDisplayFields _ d).
  - intros Hnot Hcaps Hprivs Hhooks w' e Hrun.
    apply importDepreciatedFields_returned in Hrun as (d & disp & _ & _ & -> & _).
    cbn [access with_display imported]. rewrite Hcaps, Hprivs, Hhooks.
    by rewrite capability_malformed.
  - intros d Hparse Hdrive.
    destruct (importDepreciatedDisplayFields_total
                (imported application (clock w (ticks w)) (clock w (S (ticks w)))) d)
      as [disp Hdisp]; [by eexists|done|].
    eexists _, _. rewrite importDepreciatedFields_run. cbn zeta. run.
    by rewrite Hparse, Hdisp.
Qed.

(** A legacy record whose capability columns are "not json" and whose
    display configuration is the empty object: it is imported, with four
    empty lists. *)
Lemma capabilities_that_are_not_json :
  ∃ w' e,
    importDepreciatedFields (H := Node.runtime)
      (sample_legacy "p1" (Value "{}")) sample_world = (w', Returned e)
    ∧ access e = Some {|
        read := JArr []; write := JArr []; delete := JArr []; hooks := JArr [];
      |}.
Proof.
  destruct (proj2 (proj2 (proj2 (proj2 (proj2
              (capabilities_are_parsed_independently (H := Node.runtime)
                 (sample_legacy "p1" (Value "{}")) sample_world)))))
              (JObj ∅))
    as (w' & e & Hrun); [vm_compute; reflexivity|vm_compute; reflexivity|].
  exists w', e. split; [exact Hrun|].
  apply (proj1 (proj2 (proj2 (proj2 (proj2
           (capabilities_are_parsed_independently (H := Node.runtime)
              (sample_legacy "p1" (Value "{}")) sample_world)))))
           eq_refl eq_refl eq_refl eq_refl w' e Hrun).
Defined.

(** ** C6: a display configuration that does not parse *)

(** C6, as amended.  When the display configuration of a legacy record is
    not JSON, the import of that record throws, and the migration throws
    the same error there: the records before it in the order of the pages
    stay imported, the records after it are not imported, and the world is
    the one they left, with two more readings of the clock. *)
Theorem migration_stops_at_unparsable_display `{Runtime}
    (w w1 : World) (before after : list PhpApplication)
    (application : PhpApplication) (entities : list Application) :
  List.concat (php_applications w) = before ++ application :: after →
  JSON_parse_column (depreciated_display_configuration application)
  = Thrown SyntaxError →
  ApplicationController.migrate_each true [] before w = (w1, Returned entities) →
  importDepreciatedFields application w1
  = (with_ticks (S (S (ticks w1))) w1, Thrown SyntaxError)
  ∧ ApplicationController.migrate w
    = (with_ticks (S (S (ticks w1))) w1, Thrown SyntaxError)
  ∧ applications (with_ticks (S (S (ticks w1))) w1) = applications w1.
Proof.
  intros Hpages Hparse Hbefore. split; [|split; [|done]].
  - by apply importDepreciatedFields_thrown.
  - rewrite migrate_all, Hpages, migrate_each_app, Hbefore.
    cbn [ApplicationController.migrate_each]. rewrite bind_run.
    by rewrite (migrate_one_thrown entities application w1 SyntaxError).
Qed.

(** Three legacy records on two pages, the second of which has a display
    configuration that is not JSON. *)
Lemma migration_stops_at_unparsable_display_witness :
  ∃ w1,
    importDepreciatedFields (H := Node.runtime)
      (sample_legacy "p1" (Value "not json")) w1
    = (with_ticks (S (S (ticks w1))) w1, Thrown SyntaxError)
    ∧ ApplicationController.migrate (H := Node.runtime)
        (legacy_world [[sample_legacy "p0" (Value "{}");
                        sample_legacy "p1" (Value "not json")];
                       [sample_legacy "p2" (Value "{}")]])
      = (with_ticks (S (S (ticks w1))) w1, Thrown SyntaxError)
    ∧ applications (with_ticks (S (S (ticks w1))) w1) = applications w1.
Proof.
  eexists.
  eapply (migration_stops_at_unparsable_display (H := Node.runtime)
            (legacy_world [[sample_legacy "p0" (Value "{}");
                            sample_legacy "p1" (Value "not json")];
                           [sample_legacy "p2" (Value "{}")]])
            _ [sample_legacy "p0" (Value "{}")] [sample_legacy "p2" (Value "{}")]
            (sample_legacy "p1" (Value "not json")));
    vm_compute; reflexivity.
Defined.

(** C6 as stated fails: the batch does not continue.  The record [p2]
    follows a record whose display configuration is not JSON and is not
    imported, although alone it is. *)
Lemma migration_does_not_continue :
  (∃ w',
     ApplicationController.migrate (H := Node.runtime)
       (legacy_world [[sample_legacy "p1" (Value "not json");
                       sample_legacy "p2" (Value "{}")]])
     = (w', Thrown SyntaxError)
     ∧ applications w' !! "p2" = None)
  ∧ (∃ w' e,
       ApplicationController.migrate (H := Node.runtime)
         (legacy_world [[sample_legacy "p2" (Value "{}")]])
       = (w', Returned [e])
       ∧ applications w' !! "p2" = Some e).
Proof.
  split.
  - eexists. split; [vm_compute; reflexivity|]. vm_compute. reflexivity.
  - eexists _, _. split; [vm_compute; reflexivity|]. vm_compute. reflexivity.
Qed.

(** ** C7: an event from another company *)

(** C7 fails on the code.  The membership is looked up and not awaited, so
    the test of its result never fails: the user [u9], who is no member of
    the company [c2], sends an event for the application [a1] installed
    there, and the application is notified. *)
Example event_from_another_company :
  company_users sample_world !! ("c2", "u9") = None
  ∧ ∃ w' call,
      ApplicationController.event "a1" sample_event "u9" sample_world
      = (w', Returned JNull)
      ∧ notifications w' = [call]
      ∧ hook_user_id call = "u9"
      ∧ hook_company_id call = "c2".
Proof.
  split; [vm_compute; reflexivity|]. eexists _, _.
  split; [vm_compute; reflexivity|]. repeat split.
Qed.

(** ** C8: the channel tab and the standalone application *)

(** C8 fails on the code.  A channel tab and a standalone application
    without an iframe give the object [{ url: undefined }] and not the
    boolean flag: an object is truthy, so the alternative of [||] is never
    taken. *)
Example channel_tab_without_iframe :
  importDepreciatedDisplayFields new_Application
    (JObj {[ "channel_tab" := JObj ∅; "app" := JObj ∅ ]})
  = Returned {| twake := Some {|
      tab := Some (UrlObject JUndefined);
      standalone := Some (UrlObject JUndefined);
      configuration := Some [];
      direct := None;
      files := None;
      chat := None;
    |} |}.
Proof. vm_compute. reflexivity. Qed.

(** ** C9: the order of the configuration *)

(** C9.  Whenever the display transformation returns, its configuration is
    the list with "global" if the workspace level is allowed, followed by
    "channel" if the channel level is allowed; with both, it is
    ["global"; "channel"]. *)
Theorem display_configuration_is_ordered
    (application : Application) (depreciatedDisplay : JValue) (display' : Display) :
  importDepreciatedDisplayFields application depreciatedDisplay = Returned display' →
  let in_workspace :=
    truthy (depreciatedDisplay?."configuration"?."can_configure_in_workspace") in
  let in_channel :=
    truthy (depreciatedDisplay?."configuration"?."can_configure_in_channel") in
  ∃ tw,
    twake display' = Some tw
    ∧ configuration tw
      = Some ((if in_workspace then ["global"] else [])
              ++ (if in_channel then ["channel"] else []))
    ∧ (in_workspace = true → in_channel = true →
       configuration tw = Some ["global"; "channel"]).
Proof.
  intros Hrun in_workspace in_channel.
  apply importDepreciatedDisplayFields_returned in Hrun as (x & y & z & ->).
  eexists. split; [reflexivity|]. split; [reflexivity|].
  intros Hw Hc. cbn [configuration]. subst in_workspace in_channel.
  by rewrite Hw, Hc.
Qed.

(** A configuration that allows both levels. *)
Lemma display_configuration_is_ordered_witness :
  ∃ tw,
    twake {| twake := Some {|
      tab := None; standalone := None; configuration := Some ["global"; "channel"];
      direct := None; files := None; chat := None |} |} = Some tw
    ∧ configuration tw
      = Some ((if truthy (both_levels?."configuration"?."can_configure_in_workspace")
               then ["global"] else [])
              ++ (if truthy (both_levels?."configuration"?."can_configure_in_channel")
                  then ["channel"] else []))
    ∧ (truthy (both_levels?."configuration"?."can_configure_in_workspace") = true →
       truthy (both_levels?."configuration"?."can_configure_in_channel") = true →
       configuration tw = Some ["global"; "channel"]).
Proof.
  apply (display_configuration_is_ordered new_Application both_levels).
  vm_compute. reflexivity.
Defined.

(** ** C10: the api object is compared whole *)

(** C10, as amended.  An update request that carries a publication object
    whose [requested] is not [false], on a record whose stored state is
    published: when [api.private_key], [api.hooks_url] or [api.allowed_ips]
    of the request differs from the stored value, [save] throws the
    validation error and nothing is saved; and no request that [save]
    accepts for this record changes the stored private key. *)
Theorem published_api_is_compared_whole
    (w : World) (application_id : string) (app stored : Application)
    (sp p : Publication) :
  application_id ≠ "" →
  applications w !! application_id = Some stored →
  publication stored = Some sp → truthy (published sp) = true →
  publication app = Some p → is_false (requested p) = false →
  chain (api stored) private_key ≠ chain (api app) private_key
  ∨ chain (api stored) hooks_url ≠ chain (api app) hooks_url
  ∨ chain (api stored) allowed_ips ≠ chain (api app) allowed_ips →
  (∃ w',
     ApplicationController.save (Value application_id) app w
     = (w', Thrown (BadRequest "You can't update applications details while it published"))
     ∧ applications w' = applications w)
  ∧ (∀ app' w' r,
       ApplicationController.save (Value application_id) app' w = (w', Returned r) →
       chain (api r) private_key = chain (api stored) private_key).
Proof.
  intros Hk Hget Hsp Hpub Hp Hreq Hne. split.
  - eexists. rewrite save_existing by done.
    erewrite save_update_rejected; [done|done|done|done|done|done|].
    unfold pick. intros [= _ Hapi _ _].
    destruct Hne as [Hne|[Hne|Hne]]; by rewrite Hapi in Hne.
  - intros app' w' r Hsave.
    apply save_existing_returned in Hsave
      as (stored0 & sp0 & p0 & sa & a & ss & Hget0 & _ & _ & Hsa & _ & _ & _ & -> & _);
      [|done].
    assert (stored0 = stored) as -> by congruence.
    by rewrite Hsa.
Qed.

(** A request for the published application [a1] that differs from the
    stored record in the private key only. *)
Lemma published_api_is_compared_whole_witness :
  (∃ w',
     ApplicationController.save (Value "a1")
       (with_api (Some (sample_api "b3RoZXI=")) (sample_application "a1" true true "Foo"))
       sample_world
     = (w', Thrown (BadRequest "You can't update applications details while it published"))
     ∧ applications w' = applications sample_world)
  ∧ (∀ app' w' r,
       ApplicationController.save (Value "a1") app' sample_world = (w', Returned r) →
       chain (api r) private_key
       = chain (api (sample_application "a1" true true "Foo")) private_key).
Proof.
  apply (published_api_is_compared_whole sample_world "a1"
           (with_api (Some (sample_api "b3RoZXI=")) (sample_application "a1" true true "Foo"))
           (sample_application "a1" true true "Foo")
           {| published := Value true; requested := Value true |}
           {| published := Value true; requested := Value true |});
    [done | reflexivity | reflexivity | reflexivity | reflexivity | reflexivity
    | left; vm_compute; congruence].
Defined.

(** C10 as stated fails: a request with [requested = false] and another
    private key is accepted for the published application [a1]; the stored
    key stays. *)
Lemma withdrawn_request_skips_the_api_comparison :
  applications sample_world !! "a1" = Some (sample_application "a1" true true "Foo")
  ∧ chain (api (with_api (Some (sample_api "b3RoZXI="))
                  (sample_application "a1" true false "Foo"))) private_key
    = Value "b3RoZXI="
  ∧ ∃ w' r,
      ApplicationController.save (Value "a1")
        (with_api (Some (sample_api "b3RoZXI=")) (sample_application "a1" true false "Foo"))
        sample_world
      = (w', Returned r)
      ∧ chain (api r) private_key = Value "c2VjcmV0"
      ∧ applications w' !! "a1" = Some r.
Proof.
  split; [reflexivity|]. split; [reflexivity|].
  eexists _, _. split; [vm_compute; reflexivity|]. split; reflexivity.
Qed.

(** * Further properties *)

(** ** X1: the updates that are accepted *)

(** X1.  An update request that carries an identity, a publication and an api
    object, for a stored record that has a publication, an api and stats,
    is accepted when it withdraws the publication request, or the stored
    record is not published; the record is then stored as [updated], its
    version incremented as a double is, and a withdrawal un-publishes
    it. *)
Theorem update_is_accepted
    (w : World) (application_id : string) (app stored : Application)
    (idn : Identity) (sp p : Publication) (sa a : Api) (ss : Stats) :
  application_id ≠ "" →
  applications w !! application_id = Some stored →
  id stored = Some application_id →
  publication stored = Some sp → api stored = Some sa → stats stored = Some ss →
  identity app = Some idn → publication app = Some p → api app = Some a →
  is_false (requested p) = true ∨ truthy (published sp) = false →
  let r := updated (clock w (ticks w)) stored app sp p sa a ss in
  ∃ w',
    ApplicationController.save (Value application_id) app w = (w', Returned r)
    ∧ applications w' = <[application_id := r]> (applications w)
    ∧ (is_false (requested p) = true →
       publication r = Some {| published := Value false; requested := Value false |}).
Proof.
  intros Hk Hget Hid Hsp Hsa Hss Hidn Hp Ha Hopen r.
  rewrite save_existing by done.
  rewrite (save_update_accepted _ _ _ _ stored sp p sa a ss) by done.
  assert (Hkey : key_of stored (with_ticks (S (ticks w)) w) = application_id)
    by (unfold key_of; by rewrite Hid).
  rewrite Hkey.
  assert (Hr : with_id (Some application_id)
                 (updated (clock w (ticks w)) stored app sp p sa a ss) = r)
    by (subst r; unfold with_id, updated; cbn; by rewrite Hid).
  rewrite Hr.
  match goal with
  | |- context [ApplicationController.sync_plugins ?e ?x ?y ?z] =>
      destruct (sync_plugins_returned e x y z idn Hidn) as (w2 & -> & Happs & _)
  end.
  exists w2. split; [done|]. split; [done|].
  intros Hreq. subst r. unfold updated. cbn [publication]. rewrite Hreq.
  by destruct (requested p) as [| |[]].
Qed.

(** Renaming the draft [a2] from "Foo" to "Bar". *)
Lemma renaming_a_draft :
  ∃ w',
    ApplicationController.save (Value "a2")
      (sample_application "a2" false false "Bar") sample_world
    = (w', Returned
             (updated 2000 (sample_application "a2" false false "Foo")
                (sample_application "a2" false false "Bar")
                {| published := Value false; requested := Value false |}
                {| published := Value false; requested := Value false |}
                (sample_api "c2VjcmV0") (sample_api "c2VjcmV0")
                {| created_at := 1000; updated_at := 1000; version := 3 |}))
    ∧ applications w'
      = <["a2" :=
            updated 2000 (sample_application "a2" false false "Foo")
              (sample_application "a2" false false "Bar")
              {| published := Value false; requested := Value false |}
              {| published := Value false; requested := Value false |}
              (sample_api "c2VjcmV0") (sample_api "c2VjcmV0")
              {| created_at := 1000; updated_at := 1000; version := 3 |}]>
          (applications sample_world)
    ∧ (is_false (Value false) = true →
       publication
         (updated 2000 (sample_application "a2" false false "Foo")
            (sample_application "a2" false false "Bar")
            {| published := Value false; requested := Value false |}
            {| published := Value false; requested := Value false |}
            (sample_api "c2VjcmV0") (sample_api "c2VjcmV0")
            {| created_at := 1000; updated_at := 1000; version := 3 |})
       = Some {| published := Value false; requested := Value false |}).
Proof.
  apply (update_is_accepted sample_world "a2"
           (sample_application "a2" false false "Bar")
           (sample_application "a2" false false "Foo")
           (sample_identity "Bar")
           {| published := Value false; requested := Value false |}
           {| published := Value false; requested := Value false |}
           (sample_api "c2VjcmV0") (sample_api "c2VjcmV0")
           {| created_at := 1000; updated_at := 1000; version := 3 |});
    [done | reflexivity | reflexivity | reflexivity | reflexivity | reflexivity
    | reflexivity | reflexivity | reflexivity | left; reflexivity].
Defined.

(** ** X2: the keying of the store *)

Section StoreKeying.
Context `{Runtime}.

(** X2.  The store keeps every record under its own id, whatever [save] and
    [migrate] do and however they end. *)
Theorem store_stays_keyed (w : World) :
  keyed w →
  (∀ application_id app, keyed (ApplicationController.save application_id app w).1)
  ∧ keyed (ApplicationController.migrate w).1.
Proof.
  intros Hkeyed. split.
  - intros application_id app. by apply save_keeps_keyed.
  - rewrite migrate_all. by apply migrate_each_keeps_keyed.
Qed.

End StoreKeying.

Lemma sample_world_keyed : keyed sample_world.
Proof.
  intros key entity Hget. unfold sample_world in Hget. cbn [applications] in Hget.
  apply lookup_insert_Some in Hget as [[<- <-]|[_ Hget]]; [reflexivity|].
  apply lookup_singleton_Some in Hget as [<- <-]. reflexivity.
Defined.

(** The store of the sample world stays keyed. *)
Lemma store_stays_keyed_witness :
  (∀ application_id app,
     keyed (ApplicationController.save application_id app sample_world).1)
  ∧ keyed (ApplicationController.migrate (H := Node.runtime) sample_world).1.
Proof. apply (store_stays_keyed (H := Node.runtime) sample_world sample_world_keyed). Defined.

(** ** X3: importing twice *)

Section Repeatable.
Context `{Runtime}.

(** X3.  Importing a legacy record twice gives the same record but for the two
    timestamps. *)
Theorem import_is_repeatable (application : PhpApplication) (w1 w2 w1' : World)
    (e1 : Application) :
  importDepreciatedFields application w1 = (w1', Returned e1) →
  ∃ w2' e2,
    importDepreciatedFields application w2 = (w2', Returned e2)
    ∧ e2 = with_stats (Some {|
             created_at := clock w2 (ticks w2);
             updated_at := clock w2 (S (ticks w2));
             version := 1;
           |}) e1.
Proof.
  intros Hrun.
  apply importDepreciatedFields_returned in Hrun as (d & disp & Hparse & Hdisp & -> & _).
  cbn zeta in *. eexists _, _. rewrite importDepreciatedFields_run. cbn zeta. run.
  rewrite Hparse.
  rewrite (importDepreciatedDisplayFields_reads _
             (imported application (clock w1 (ticks w1)) (clock w1 (S (ticks w1)))) d)
    by done.
  rewrite Hdisp. split; reflexivity.
Qed.

End Repeatable.

(** Importing the same legacy record at two times. *)
Lemma import_is_repeatable_witness :
  ∃ w2' e2,
    importDepreciatedFields (H := Node.runtime) (sample_legacy "p1" (Value "{}"))
      (with_ticks 7 sample_world) = (w2', Returned e2)
    ∧ e2 = with_stats (Some {| created_at := 2007; updated_at := 2008; version := 1 |})
             (with_display (Some {| twake := Some {|
                 tab := None; standalone := None; configuration := Some [];
                 direct := None; files := None; chat := None |} |})
                (imported (H := Node.runtime) (sample_legacy "p1" (Value "{}")) 2000 2001)).
Proof.
  apply (import_is_repeatable (H := Node.runtime) (sample_legacy "p1" (Value "{}"))
           sample_world (with_ticks 7 sample_world) (with_ticks 2 sample_world)).
  vm_compute. reflexivity.
Defined.

(** ** X4: a drive module without a messages module *)

(** A string spreads to its code points, whatever the number of bytes that
    hold each of them. *)
Example spread_of_a_string :
  spread (JStr "hé€𝄞") = Returned [JStr "h"; JStr "é"; JStr "€"; JStr "𝄞"]
  ∧ String.length "hé€𝄞" = 10%nat.
Proof. split; vm_compute; reflexivity. Qed.

(** The code points of a string are pieces of it, in their order. *)
Lemma code_points_from_concat (s current : list ascii) (pending : nat) :
  foldr append "" (code_points_from s current pending)
  = string_of_list_ascii (rev current ++ s).
Proof.
  assert (Hflush : ∀ current rest,
            foldr append "" (code_point current ++ rest)
            = string_of_list_ascii (rev current) +:+ foldr append "" rest).
  { intros [|c current'] rest; [done|]. reflexivity. }
  assert (Hcat : ∀ a b,
            string_of_list_ascii a +:+ string_of_list_ascii b
            = string_of_list_ascii (a ++ b)).
  { intros a b. induction a as [|c a IH]; [done|]. cbn. by rewrite <- IH. }
  revert current pending. induction s as [|c s IH]; intros current pending.
  - cbn [code_points_from]. rewrite <- (app_nil_r (code_point current)).
    by rewrite Hflush, <- Hcat.
  - assert (Hstart :
      foldr append "" (code_point current ++ code_points_from s [c] (continuation_bytes c))
      = string_of_list_ascii (rev current ++ c :: s)).
    { rewrite Hflush, IH, Hcat. done. }
    cbn [code_points_from]. destruct pending as [|pending]; [done|].
    destruct (is_continuation c); [|done].
    rewrite IH. cbn [rev]. by rewrite <- app_assoc.
Qed.

Lemma code_points_concat (s : string) : foldr append "" (code_points s) = s.
Proof.
  unfold code_points. rewrite code_points_from_concat. cbn [rev app].
  apply string_of_list_ascii_of_string.
Qed.

(** X4.  A drive module without a messages module fills [files] and leaves
    [chat] as it was: the extensions are the elements of [main_ext] and
    then those of [other_ext], an array counting for its elements and a
    string for its code points. *)
Theorem drive_module_without_messages_module
    (application : Application) (depreciatedDisplay : JValue) (display' : Display) :
  importDepreciatedDisplayFields application depreciatedDisplay = Returned display' →
  display application = None →
  truthy (depreciatedDisplay?."drive_module") = true →
  truthy (depreciatedDisplay?."messages_module") = false →
  let can_open_files := depreciatedDisplay?."drive_module"?."can_open_files" in
  ∃ tw main_ext other_ext,
    twake display' = Some tw
    ∧ spread (can_open_files?."main_ext" ||| JArr_empty) = Returned main_ext
    ∧ spread (can_open_files?."other_ext" ||| JArr_empty) = Returned other_ext
    ∧ files tw = Some {|
        editor := Some {|
          preview_url := can_open_files?."preview_url";
          edition_url := can_open_files?."url";
          extensions := main_ext ++ other_ext;
          empty_files :=
            depreciatedDisplay?."drive_module"?."can_create_files" ||| JArr_empty;
        |};
        files_actions := [];
      |}
    ∧ chat tw = None.
Proof.
  intros Hrun Hdisplay Hdrive Hmessages can_open_files. revert Hrun.
  unfold importDepreciatedDisplayFields. cbn zeta.
  rewrite Hdisplay, Hdrive, Hmessages. fold can_open_files.
  destruct (if truthy (depreciatedDisplay?."member_app") then _ else _) as [direct'|];
    [cbn [mbind Outcome_bind]|done].
  destruct (spread (can_open_files?."main_ext" ||| JArr_empty)) as [main_ext|];
    [cbn [mbind Outcome_bind]|done].
  destruct (spread (can_open_files?."other_ext" ||| JArr_empty)) as [other_ext|];
    [cbn [mbind Outcome_bind mret Outcome_ret]|done].
  intros [= <-]. by eexists _, main_ext, other_ext.
Qed.

(** The configuration [drive_only]. *)
Lemma drive_module_without_messages_module_witness :
  ∃ tw main_ext other_ext,
    twake {| twake := Some {|
      tab := None; standalone := None; configuration := Some []; direct := None;
      files := Some {|
        editor := Some {|
          preview_url := JUndefined;
          edition_url := JStr "https://docs.example/edit";
          extensions := [JStr "docx"; JStr "txt"];
          empty_files := JArr [];
        |};
        files_actions := [];
      |};
      chat := None |} |} = Some tw
    ∧ spread (drive_only?."drive_module"?."can_open_files"?."main_ext" ||| JArr_empty)
      = Returned main_ext
    ∧ spread (drive_only?."drive_module"?."can_open_files"?."other_ext" ||| JArr_empty)
      = Returned other_ext
    ∧ files tw = Some {|
        editor := Some {|
          preview_url := drive_only?."drive_module"?."can_open_files"?."preview_url";
          edition_url := drive_only?."drive_module"?."can_open_files"?."url";
          extensions := main_ext ++ other_ext;
          empty_files := drive_only?."drive_module"?."can_create_files" ||| JArr_empty;
        |};
        files_actions := [];
      |}
    ∧ chat tw = None.
Proof.
  apply (drive_module_without_messages_module new_Application drive_only);
    vm_compute; reflexivity.
Defined.

(** ** The event handler and the membership *)

(** X5.  The event handler never reads the memberships: in a world with
    any other membership table it ends in the same way.  It throws
    [NotFound] for an application that is not stored and [BadRequest] for
    one that is not installed in the company of the request, and neither
    notifies anyone; otherwise it notifies the application once, in the
    name of the caller, and returns its answer. *)
Theorem event_ignores_the_membership
    (application_id : string) (body : ApplicationEventRequestBody) (user : string)
    (w : World) :
  (∀ users,
     ApplicationController.event application_id body user (with_company_users users w)
     = let '(w', out) := ApplicationController.event application_id body user w in
       (with_company_users users w', out))
  ∧ (applications w !! application_id = None →
     ApplicationController.event application_id body user w
     = (w, Thrown (NotFound "Application not found")))
  ∧ (is_Some (applications w !! application_id) →
     (body_company_id body, application_id) ∉ company_applications w →
     ApplicationController.event application_id body user w
     = (w, Thrown (BadRequest "Application isn't installed in this company")))
  ∧ (is_Some (applications w !! application_id) →
     (body_company_id body, application_id) ∈ company_applications w →
     ∃ call,
       ApplicationController.event application_id body user w
       = (with_notifications (call :: notifications w) w, Returned (hook_response w call))
       ∧ hook_application_id call = application_id
       ∧ hook_user_id call = user
       ∧ hook_company_id call = body_company_id body
       ∧ hook_content call = body_data body).
Proof.
  split; [|split; [|split]].
  - intros users. rewrite !event_run.
    cbn [applications company_applications with_company_users].
    destruct (applications w !! application_id); [|done].
    by destruct (bool_decide _).
  - intros Hget. by rewrite event_run, Hget.
  - intros [entity Hget] Hout. rewrite event_run, Hget.
    by rewrite bool_decide_eq_false_2.
  - intros [entity Hget] Hin. rewrite event_run, Hget.
    rewrite bool_decide_eq_true_2 by done. by eexists.
Qed.

(** ** X6: who reads the full record *)

(** X6.  [get] leaves the world as it is.  For an application that is not
    stored it throws a [TypeError]; for a stored one it returns the full
    record when the caller is a member, with the role "admin", of the company
    that owns the application, and the public view otherwise. *)
Theorem full_view_is_for_company_admins {PublicApplicationObject : Type}
    (getPublicObject : Application → PublicApplicationObject)
    (application_id user : string) (w : World) :
  match applications w !! application_id with
  | None =>
      ApplicationController.get getPublicObject application_id user w
      = (w, Thrown TypeError)
  | Some entity =>
      (ApplicationController.get getPublicObject application_id user w
       = (w, Returned (inl entity))
       ∧ ∃ company companyUser,
           company_id entity = Value company
           ∧ company_users w !! (company, user) = Some companyUser
           ∧ role companyUser = "admin")
      ∨ (ApplicationController.get getPublicObject application_id user w
         = (w, Returned (inr (getPublicObject entity)))
         ∧ ∀ company companyUser,
             company_id entity = Value company →
             company_users w !! (company, user) = Some companyUser →
             role companyUser ≠ "admin")
  end.
Proof.
  unfold ApplicationController.get. rewrite bind_run.
  unfold marketplaceApps_get.
  destruct (applications w !! application_id) as [entity|]; [|by run].
  run. unfold await, getCompanyUser.
  destruct (company_id entity) as [| |company] eqn:Hcompany;
    [right; split; [done|congruence] ..|].
  destruct (company_users w !! (company, user)) as [companyUser|] eqn:Huser;
    [|right; split; [done|intros ? ? [= <-]; congruence]].
  case_bool_decide as Hrole.
  - left. split; [done|]. by exists company, companyUser.
  - right. split; [done|]. intros ? ? [= <-] Hu. congruence.
Qed.

(** ** X7: who deletes an application *)

(** X7.  [delete] throws a [TypeError] for an application that is not stored.
    For a stored one it removes the record from the store, and changes
    nothing else, when the caller is a member of the owning company whose
    role has the administrator's level; otherwise it throws [Forbidden] and
    the world is as it was. *)
Theorem delete_is_for_company_admins (hasCompanyAdminLevel : string → bool)
    (application_id user : string) (w : World) :
  match applications w !! application_id with
  | None =>
      ApplicationController.delete hasCompanyAdminLevel application_id user w
      = (w, Thrown TypeError)
  | Some application =>
      (ApplicationController.delete hasCompanyAdminLevel application_id user w
       = (with_applications (base.delete application_id (applications w)) w,
          Returned "success")
       ∧ ∃ company compUser,
           company_id application = Value company
           ∧ company_users w !! (company, user) = Some compUser
           ∧ hasCompanyAdminLevel (role compUser) = true)
      ∨ (ApplicationController.delete hasCompanyAdminLevel application_id user w
         = (w, Thrown (Forbidden "You don't have the rights to delete this application"))
         ∧ ∀ company compUser,
             company_id application = Value company →
             company_users w !! (company, user) = Some compUser →
             hasCompanyAdminLevel (role compUser) = false)
  end.
Proof.
  unfold ApplicationController.delete. rewrite bind_run.
  unfold marketplaceApps_get.
  destruct (applications w !! application_id) as [application|] eqn:Hget; [|by run].
  run. unfold await, getCompanyUser.
  destruct (company_id application) as [| |company] eqn:Hcompany;
    [right; split; [done|congruence] ..|].
  destruct (company_users w !! (company, user)) as [compUser|] eqn:Huser;
    [|right; split; [done|intros ? ? [= <-]; congruence]].
  cbn [truthy object_truthy negb orb from_option].
  destruct (hasCompanyAdminLevel (role compUser)) eqn:Hlevel; cbn [negb].
  - left. split; [|by exists company, compUser].
    unfold marketplaceApps_delete. rewrite Hget.
    rewrite bool_decide_eq_true_2 by by eexists. done.
  - right. split; [done|]. intros ? ? [= <-] Hu. congruence.
Qed.

(** ** After a deletion *)

Lemma delete_returned hasCompanyAdminLevel application_id user w w' status :
  ApplicationController.delete hasCompanyAdminLevel application_id user w
  = (w', Returned status) →
  is_Some (applications w !! application_id)
  ∧ w' = with_applications (base.delete application_id (applications w)) w.
Proof.
  unfold ApplicationController.delete. rewrite bind_run.
  unfold marketplaceApps_get at 1.
  destruct (applications w !! application_id) as [application|] eqn:Hget; [|by run].
  run. unfold await, getCompanyUser.
  match goal with
  | |- context [if ?c then _ else _] => destruct c; [done|]
  end.
  unfold marketplaceApps_delete. intros [= <- _]. by split.
Qed.

Lemma save_update_missing now k app w :
  applications w !! k = None →
  ApplicationController.save_update now k app w
  = (w, Thrown (NotFound "Application not found")).
Proof.
  intros Hget. unfold ApplicationController.save_update. rewrite bind_run.
  unfold marketplaceApps_get at 1. by rewrite Hget.
Qed.

(** X8.  Once [delete] has returned, the application is gone and the other
    records are as they were: an update of the application throws
    [NotFound] and stores nothing, an event for it throws [NotFound], and
    reading or deleting it throws a [TypeError]. *)
Theorem deleted_application_is_gone (hasCompanyAdminLevel : string → bool)
    (application_id user : string) (w w' : World) (status : string) :
  application_id ≠ "" →
  ApplicationController.delete hasCompanyAdminLevel application_id user w
  = (w', Returned status) →
  applications w' !! application_id = None
  ∧ (∀ key, key ≠ application_id → applications w' !! key = applications w !! key)
  ∧ (∀ app,
       ApplicationController.save (Value application_id) app w'
       = (with_ticks (S (ticks w')) w', Thrown (NotFound "Application not found")))
  ∧ (∀ body user',
       ApplicationController.event application_id body user' w'
       = (w', Thrown (NotFound "Application not found")))
  ∧ (∀ (PublicApplicationObject : Type)
       (getPublicObject : Application → PublicApplicationObject) user',
       ApplicationController.get getPublicObject application_id user' w'
       = (w', Thrown TypeError))
  ∧ (∀ user',
       ApplicationController.delete hasCompanyAdminLevel application_id user' w'
       = (w', Thrown TypeError)).
Proof.
  intros Hk Hdelete. apply delete_returned in Hdelete as [_ ->].
  assert (Hgone : applications
                    (with_applications (base.delete application_id (applications w)) w)
                  !! application_id = None) by apply lookup_delete_eq.
  split; [done|]. split; [|split; [|split; [|split]]].
  - intros key Hkey. cbn [applications with_applications]. by apply lookup_delete_ne.
  - intros app. rewrite save_existing by done.
    by rewrite save_update_missing.
  - intros body user'. rewrite event_run. by rewrite Hgone.
  - intros P getPublicObject user'. unfold ApplicationController.get. rewrite bind_run.
    unfold marketplaceApps_get. by rewrite Hgone.
  - intros user'. unfold ApplicationController.delete. rewrite bind_run.
    unfold marketplaceApps_get. by rewrite Hgone.
Qed.

(** The administrator [u1] of the company [c1] deletes its application
    [a1]. *)
Lemma deleted_application_is_gone_witness :
  ∃ w',
    applications w' !! "a1" = None
    ∧ (∀ key, key ≠ "a1" → applications w' !! key = applications sample_world !! key)
    ∧ (∀ app,
         ApplicationController.save (Value "a1") app w'
         = (with_ticks (S (ticks w')) w', Thrown (NotFound "Application not found")))
    ∧ (∀ body user',
         ApplicationController.event "a1" body user' w'
         = (w', Thrown (NotFound "Application not found")))
    ∧ (∀ (PublicApplicationObject : Type)
         (getPublicObject : Application → PublicApplicationObject) user',
         ApplicationController.get getPublicObject "a1" user' w'
         = (w', Thrown TypeError))
    ∧ (∀ user',
         ApplicationController.delete (λ r, bool_decide (r = "admin")) "a1" user' w'
         = (w', Thrown TypeError)).
Proof.
  eexists.
  apply (deleted_application_is_gone (λ r, bool_decide (r = "admin")) "a1" "u1"
           sample_world _ "success"); [done|].
  vm_compute. reflexivity.
Defined.

(** ** What [save] sends to the plugin registrar *)

Lemma sync_plugins_run endpoint app entity w idn entity_api :
  identity app = Some idn → api entity = Some entity_api →
  ApplicationController.sync_plugins endpoint app entity w =
  ((if truthy (repository idn)
    then with_plugin_posts
           ({| post_url := endpoint +:+ "/add";
               gitRepo := or_text (repository idn) "";
               pluginId := id entity;
               pluginSecret := private_key entity_api |} :: plugin_posts w) w
    else w),
   Returned tt).
Proof.
  intros Hid Hapi. unfold ApplicationController.sync_plugins. rewrite Hid. run.
  destruct (truthy (repository idn)); [|done].
  unfold getApplicationObject. by rewrite Hapi.
Qed.

Lemma save_insert_thrown_world now app w w' e :
  ApplicationController.save_insert now app w = (w', Thrown e) →
  w' = match publication app with
       | Some _ => with_drawn (drawn w + 32) w
       | None => w
       end
  ∧ e = TypeError.
Proof.
  unfold ApplicationController.save_insert. fields.
  destruct (publication app) as [p|]; [|by intros [= <- <-]].
  run. fields. destruct (api app) as [a|]; [|by intros [= <- <-]].
  by run.
Qed.

(** X9.  [save] posts to the plugin registrar once when it returns a record
    whose identity names a repository, and not at all otherwise, whether it
    returns or throws.  The post carries the repository, the id of the
    record as stored and the private key of the record as stored. *)
Theorem registrar_is_told_of_saved_repositories
    (application_id : Nullable string) (app : Application) (w : World) :
  match ApplicationController.save application_id app w with
  | (w', Returned r) =>
      plugin_posts w' =
        (if truthy (chain (identity r) repository)
         then [ {| post_url := plugins_api w +:+ "/add";
                   gitRepo := or_text (chain (identity r) repository) "";
                   pluginId := id r;
                   pluginSecret := chain (api r) private_key |} ]
         else [])
        ++ plugin_posts w
  | (w', Thrown _) => plugin_posts w' = plugin_posts w
  end.
Proof.
  destruct (truthy application_id) eqn:Hk.
  - destruct application_id as [| |k]; try done.
    assert (k ≠ "") as Hne by (intros ->; by vm_compute in Hk).
    rewrite save_existing by done.
    destruct (ApplicationController.save_update _ _ _ _) as [w1 [entity|e]] eqn:Hupdate.
    + apply save_update_returned in Hupdate
        as (stored & sp & p & sa & a & ss & _ & _ & _ & _ & _ & _ & _ & -> & ->).
      destruct (identity app) as [idn|] eqn:Hid.
      * erewrite sync_plugins_run; [|done|reflexivity].
        unfold updated. fields. rewrite Hid. cbn [chain private_key].
        by destruct (truthy (repository idn)).
      * by rewrite sync_plugins_missing.
    + by apply save_update_thrown in Hupdate as ->.
  - rewrite save_new by done.
    destruct (ApplicationController.save_insert _ _ _) as [w1 [[app' entity]|e]] eqn:Hinsert.
    + destruct (publication app) as [p|] eqn:Hp; cycle 1.
      { destruct (save_insert_thrown (clock w (ticks w)) app (with_ticks (S (ticks w)) w))
          as (w2 & Hthrown & _); [by auto|]. congruence. }
      destruct (api app) as [a|] eqn:Ha; cycle 1.
      { destruct (save_insert_thrown (clock w (ticks w)) app (with_ticks (S (ticks w)) w))
          as (w2 & Hthrown & _); [by auto|]. congruence. }
      rewrite (save_insert_returned _ _ _ p a) in Hinsert by done.
      cbn zeta in Hinsert. injection Hinsert as <- <- <-.
      destruct (identity app) as [idn|] eqn:Hid.
      * erewrite sync_plugins_run; [|done|reflexivity].
        unfold created. fields. rewrite Hid. cbn [chain private_key].
        by destruct (truthy (repository idn)).
      * by rewrite sync_plugins_missing.
    + apply save_insert_thrown_world in Hinsert as [-> _].
      by destruct (publication app).
Qed.

(** ** A [save] that throws *)

(** X10.  When [save] throws on a request that has an identity object,
    nothing was stored, posted or notified.  The world is as it was, with
    one more reading of the clock; and when the request is a creation with
    a publication object, which then has no api object, with the 32 bytes
    drawn for the key that was never stored. *)
Theorem failed_save_leaves_the_store
    (application_id : Nullable string) (app : Application) (w w' : World) (e : Error) :
  is_Some (identity app) →
  ApplicationController.save application_id app w = (w', Thrown e) →
  w' = (if truthy application_id then with_ticks (S (ticks w)) w
        else match publication app with
             | Some _ => with_drawn (drawn w + 32) (with_ticks (S (ticks w)) w)
             | None => with_ticks (S (ticks w)) w
             end)
  ∧ (truthy application_id = false → is_Some (publication app) →
     api app = None ∧ e = TypeError)
  ∧ applications w' = applications w
  ∧ plugin_posts w' = plugin_posts w
  ∧ notifications w' = notifications w.
Proof.
  intros Hsome Hsave.
  assert (Hworld :
    w' = (if truthy application_id then with_ticks (S (ticks w)) w
          else match publication app with
               | Some _ => with_drawn (drawn w + 32) (with_ticks (S (ticks w)) w)
               | None => with_ticks (S (ticks w)) w
               end)
    ∧ (truthy application_id = false → is_Some (publication app) →
       api app = None ∧ e = TypeError)); cycle 1.
  { destruct Hworld as [Hworld Hkind]. split; [done|]. split; [done|].
    rewrite Hworld. by destruct (truthy application_id), (publication app). }
  revert Hsave. destruct Hsome as [idn Hid].
  destruct (truthy application_id) eqn:Hk.
  - destruct application_id as [| |k]; try done.
    assert (k ≠ "") as Hne by (intros ->; by vm_compute in Hk).
    rewrite save_existing by done.
    destruct (ApplicationController.save_update _ _ _ _) as [w1 [entity|e1]] eqn:Hupdate.
    + match goal with
      | |- context [ApplicationController.sync_plugins ?e ?x ?y ?z] =>
          destruct (sync_plugins_returned e x y z idn Hid) as (w2 & -> & _)
      end.
      done.
    + apply save_update_thrown in Hupdate as ->. by intros [= <- _].
  - rewrite save_new by done.
    destruct (ApplicationController.save_insert _ _ _) as [w1 [[app' entity]|e1]] eqn:Hinsert.
    + assert (identity app' = Some idn) as Hid'.
      { destruct (publication app) as [p|] eqn:Hp; cycle 1.
        { destruct (save_insert_thrown (clock w (ticks w)) app (with_ticks (S (ticks w)) w))
            as (w2 & Hthrown & _); [by auto|]. congruence. }
        destruct (api app) as [a|] eqn:Ha; cycle 1.
        { destruct (save_insert_thrown (clock w (ticks w)) app (with_ticks (S (ticks w)) w))
            as (w2 & Hthrown & _); [by auto|]. congruence. }
        rewrite (save_insert_returned _ _ _ p a) in Hinsert by done.
        cbn zeta in Hinsert. by injection Hinsert as <- <- <-. }
      match goal with
      | |- context [ApplicationController.sync_plugins ?e ?x ?y ?z] =>
          destruct (sync_plugins_returned e x y z idn Hid') as (w2 & -> & _)
      end.
      done.
    + intros [= <- <-].
      pose proof (save_insert_thrown_world _ _ _ _ _ Hinsert) as [Hw1 ->].
      split.
      * rewrite Hw1. by destruct (publication app).
      * intros _ [p Hp]. split; [|done].
        destruct (api app) as [a|] eqn:Ha; [|done].
        by rewrite (save_insert_returned _ _ _ p a) in Hinsert.
Qed.

(** The draft of the creation scenario has an identity and a publication
    but no api object: 32 bytes are drawn, and nothing is stored. *)
Lemma failed_save_leaves_the_store_witness :
  ApplicationController.save Undefined scenario_A_draft sample_world
  = (with_drawn 32 (with_ticks 1 sample_world), Thrown TypeError)
  ∧ with_drawn 32 (with_ticks 1 sample_world)
    = with_drawn (drawn sample_world + 32)
        (with_ticks (S (ticks sample_world)) sample_world)
  ∧ api scenario_A_draft = None
  ∧ applications (with_drawn 32 (with_ticks 1 sample_world))
    = applications sample_world.
Proof.
  assert (Hsave :
    ApplicationController.save Undefined scenario_A_draft sample_world
    = (with_drawn 32 (with_ticks 1 sample_world), Thrown TypeError))
    by (vm_compute; reflexivity).
  destruct (failed_save_leaves_the_store Undefined scenario_A_draft sample_world _
              TypeError (ltac:(by eexists)) Hsave)
    as (Hworld & Hkind & Happs & _).
  split; [done|]. split; [done|]. split; [|done].
  by destruct Hkind as [Hapi _]; [reflexivity|eexists|].
Defined.

(** X11.  A request without an identity object is stored before [save]
    throws: the record is created, or updated when the request withdraws
    the publication request or the stored record is not published, and the
    handler then throws a [TypeError]. *)
Theorem save_without_identity_is_stored
    (app : Application) (p : Publication) (a : Api) (w : World) :
  identity app = None → publication app = Some p → api app = Some a →
  (∀ application_id,
     truthy application_id = false →
     ∃ w',
       ApplicationController.save application_id app w = (w', Thrown TypeError)
       ∧ applications w'
         = <[key_of app w :=
               with_id (Some (key_of app w))
                 (created (clock w (ticks w)) (entropy w <$> seq (drawn w) 32) app p a)]>
             (applications w))
  ∧ (∀ application_id stored sp sa ss,
       application_id ≠ "" →
       applications w !! application_id = Some stored →
       id stored = Some application_id →
       publication stored = Some sp → api stored = Some sa → stats stored = Some ss →
       is_false (requested p) = true ∨ truthy (published sp) = false →
       ∃ w',
         ApplicationController.save (Value application_id) app w = (w', Thrown TypeError)
         ∧ applications w'
           = <[application_id := updated (clock w (ticks w)) stored app sp p sa a ss]>
               (applications w)).
Proof.
  intros Hid Hp Ha. split.
  - intros application_id Hk. rewrite save_new by done.
    rewrite (save_insert_returned _ _ _ p a) by done. cbn zeta.
    rewrite sync_plugins_missing by done. eexists. split; [done|]. reflexivity.
  - intros k stored sp sa ss Hk Hget Hkey Hsp Hsa Hss Hopen.
    rewrite save_existing by done.
    rewrite (save_update_accepted _ _ _ _ stored sp p sa a ss) by done.
    rewrite sync_plugins_missing by done. eexists. split; [done|].
    cbn [applications with_applications with_ticks].
    assert (key_of stored (with_ticks (S (ticks w)) w) = k) as ->
      by (unfold key_of; by rewrite Hkey).
    f_equal. unfold with_id, updated. cbn. by rewrite Hkey.
Qed.

(** The draft [a2] is sent without an identity, and a draft without an
    identity is created. *)
Lemma save_without_identity_is_stored_witness :
  (∃ w',
     ApplicationController.save Undefined
       (with_identity None (sample_application "a3" false false "Foo")) sample_world
     = (w', Thrown TypeError)
     ∧ applications w' !! "a3"
       = Some (created 2000 (entropy sample_world <$> seq 0 32)
                 (with_identity None (sample_application "a3" false false "Foo"))
                 {| published := Value false; requested := Value false |}
                 (sample_api "c2VjcmV0")))
  ∧ (∃ w',
       ApplicationController.save (Value "a2")
         (with_identity None (sample_application "a2" false false "Foo")) sample_world
       = (w', Thrown TypeError)
       ∧ applications w' !! "a2"
         = Some (updated 2000 (sample_application "a2" false false "Foo")
                   (with_identity None (sample_application "a2" false false "Foo"))
                   {| published := Value false; requested := Value false |}
                   {| published := Value false; requested := Value false |}
                   (sample_api "c2VjcmV0") (sample_api "c2VjcmV0")
                   {| created_at := 1000; updated_at := 1000; version := 3 |})).
Proof.
  pose proof (save_without_identity_is_stored
                (with_identity None (sample_application "a3" false false "Foo"))
                {| published := Value false; requested := Value false |}
                (sample_api "c2VjcmV0") sample_world eq_refl eq_refl eq_refl) as [Hnew _].
  pose proof (save_without_identity_is_stored
                (with_identity None (sample_application "a2" false false "Foo"))
                {| published := Value false; requested := Value false |}
                (sample_api "c2VjcmV0") sample_world eq_refl eq_refl eq_refl) as [_ Hold].
  split.
  - destruct (Hnew Undefined eq_refl) as (w' & Hsave & Happs).
    exists w'. split; [exact Hsave|]. rewrite Happs. apply lookup_insert_eq.
  - destruct (Hold "a2" (sample_application "a2" false false "Foo")
                {| published := Value false; requested := Value false |}
                (sample_api "c2VjcmV0")
                {| created_at := 1000; updated_at := 1000; version := 3 |})
      as (w' & Hsave & Happs);
      [done | reflexivity | reflexivity | reflexivity | reflexivity | reflexivity
      | right; reflexivity |].
    exists w'. split; [exact Hsave|]. rewrite Happs. apply lookup_insert_eq.
Defined.

(** ** The runs of the migration *)

Section MigrationRuns.
Context `{Runtime}.

Lemma import_run application w :
  importDepreciatedFields application w
  = (with_ticks (S (S (ticks w))) w,
     import_of application (clock w (ticks w)) (clock w (S (ticks w)))).
Proof.
  rewrite importDepreciatedFields_run. cbn zeta. unfold import_of. run.
  destruct (JSON_parse_column _) as [d|]; [|done].
  cbn [mbind Outcome_bind].
  by destruct (importDepreciatedDisplayFields _ d).
Qed.

Lemma import_of_returned application created updated e :
  import_of application created updated = Returned e →
  ∃ display',
    e = with_display (Some display') (imported application created updated).
Proof.
  unfold import_of. cbn zeta.
  destruct (JSON_parse_column _) as [d|]; [|done]. cbn [mbind Outcome_bind].
  destruct (importDepreciatedDisplayFields _ d) as [display'|]; [|done].
  intros [= <-]. by exists display'.
Qed.

Lemma import_of_time application created updated :
  import_of application created updated
  = (e ← import_of application 0 0;
     mret (with_stats
             (Some {| created_at := created; updated_at := updated; version := 1 |})
             e)).
Proof.
  unfold import_of. cbn zeta.
  destruct (JSON_parse_column _) as [d|]; [|done]. cbn [mbind Outcome_bind].
  rewrite (importDepreciatedDisplayFields_reads
             (imported application created updated) (imported application 0 0) d)
    by done.
  by destruct (importDepreciatedDisplayFields _ d).
Qed.

Lemma import_of_importable application created updated e :
  import_of application created updated = Returned e → importable application = true.
Proof.
  rewrite import_of_time. unfold importable.
  by destruct (import_of application 0 0).
Qed.

Lemma importable_import_of application created updated :
  importable application = true →
  ∃ e, import_of application created updated = Returned e.
Proof.
  rewrite import_of_time. unfold importable.
  destruct (import_of application 0 0) as [e|]; [|done]. by eexists.
Qed.

Lemma migrate_one_run entities application w :
  ApplicationController.migrate_one true entities application w =
  match import_of application (clock w (ticks w)) (clock w (S (ticks w))) with
  | Returned e =>
      (with_applications (<[php_id application := e]> (applications w))
         (with_ticks (S (S (ticks w))) w),
       Returned (entities ++ [e]))
  | Thrown err => (with_ticks (S (S (ticks w))) w, Thrown err)
  end.
Proof.
  unfold ApplicationController.migrate_one.
  rewrite bind_run. unfold repository_findOne, marketplaceApps_get at 1.
  rewrite orb_true_r, bind_run, import_run.
  destruct (import_of _ _ _) as [e|err] eqn:Himport; [|done].
  apply import_of_returned in Himport as [display' ->].
  rewrite bind_run. reflexivity.
Qed.

Lemma import_at_id application entity :
  import_at application entity → id entity = Some (php_id application).
Proof. intros (c & u & Himport). by apply import_of_returned in Himport as [d ->]. Qed.

Lemma migrate_each_importable page entities w :
  Forall (λ application, importable application = true) page →
  ∃ w' news,
    ApplicationController.migrate_each true entities page w
    = (w', Returned (entities ++ news))
    ∧ Forall2 import_at page news
    ∧ (∀ i application,
         page !! i = Some application →
         ∃ entity,
           news !! i = Some entity
           ∧ import_of application (clock w (ticks w + 2 * i)%nat)
               (clock w (S (ticks w + 2 * i)))
             = Returned entity)
    ∧ applications w' = store_each news (applications w)
    ∧ ticks w' = (ticks w + 2 * List.length page)%nat
    ∧ clock w' = clock w
    ∧ php_applications w' = php_applications w.
Proof.
  revert entities w. induction page as [|application page IH]; intros entities w Hall.
  - exists w, []. rewrite app_nil_r. repeat split; try done.
    all: cbn [List.length]; lia.
  - apply Forall_cons in Hall as [Hone Hall].
    cbn [ApplicationController.migrate_each]. rewrite bind_run, migrate_one_run.
    destruct (importable_import_of application
                (clock w (ticks w)) (clock w (S (ticks w))) Hone) as [e Himport].
    rewrite Himport.
    destruct (IH (entities ++ [e])
                (with_applications (<[php_id application := e]> (applications w))
                   (with_ticks (S (S (ticks w))) w)) Hall)
      as (w' & news & Hrun & Hnews & Htimes & Happs & Hticks & Hclock & Hphp).
    exists w', (e :: news). rewrite Hrun, <- app_assoc. split; [done|].
    assert (import_at application e) as Hat by by eexists _, _.
    split; [by constructor|]. split; [|split; [|split; [|split]]].
    + intros [|i] application' Hi.
      * injection Hi as <-. exists e. split; [done|].
        by rewrite Nat.mul_0_r, Nat.add_0_r.
      * destruct (Htimes i application' Hi) as (entity & Hentity & Hat').
        exists entity. split; [done|].
        cbn [clock ticks with_ticks with_applications] in Hat'.
        by replace (ticks w + 2 * S i)%nat with (S (S (ticks w)) + 2 * i)%nat by lia.
    + rewrite Happs. cbn [store_each foldl applications with_applications].
      by rewrite (import_at_id application e Hat).
    + rewrite Hticks. cbn [ticks with_ticks with_applications List.length]. lia.
    + by rewrite Hclock.
    + by rewrite Hphp.
Qed.

Lemma migrate_each_returned page entities w w' entities' :
  ApplicationController.migrate_each true entities page w = (w', Returned entities') →
  Forall (λ application, importable application = true) page.
Proof.
  revert entities w. induction page as [|application page IH]; intros entities w.
  - by constructor.
  - cbn [ApplicationController.migrate_each]. rewrite bind_run, migrate_one_run.
    destruct (import_of _ _ _) as [e|err] eqn:Himport; [|done].
    intros Hrun. constructor; [by eapply import_of_importable|by eapply IH].
Qed.

End MigrationRuns.

(** ** The store after a list of saves *)

Lemma store_each_snoc news entity m :
  store_each (news ++ [entity]) m
  = <[default "" (id entity) := entity]> (store_each news m).
Proof. unfold store_each. by rewrite foldl_app. Qed.

Lemma store_each_lookup_notin news m key :
  key ∉ (λ entity, default "" (id entity)) <$> news →
  store_each news m !! key = m !! key.
Proof.
  revert m. induction news as [|entity news IH]; intros m Hkey; [done|].
  cbn [store_each foldl]. rewrite fmap_cons, not_elem_of_cons in Hkey.
  destruct Hkey as [Hne Hkey].
  change (store_each news (<[default "" (id entity) := entity]> m) !! key = m !! key).
  rewrite IH by done. by rewrite lookup_insert_ne.
Qed.

Lemma store_each_lookup_in news m key :
  key ∈ (λ entity, default "" (id entity)) <$> news →
  ∃ entity,
    entity ∈ news ∧ default "" (id entity) = key
    ∧ store_each news m !! key = Some entity.
Proof.
  revert m. induction news as [|entity news IH] using rev_ind; intros m Hkey.
  - by apply elem_of_nil in Hkey.
  - rewrite store_each_snoc.
    destruct (decide (default "" (id entity) = key)) as [Heq|Hne].
    + exists entity. rewrite Heq, lookup_insert_eq.
      split; [|done]. apply elem_of_app. right. by apply list_elem_of_singleton.
    + rewrite lookup_insert_ne by done.
      rewrite fmap_app, elem_of_app in Hkey. destruct Hkey as [Hkey|Hkey].
      * destruct (IH m Hkey) as (e & Hin & Hid & Hget).
        exists e. split; [|done]. apply elem_of_app. by left.
      * cbn in Hkey. apply list_elem_of_singleton in Hkey. congruence.
Qed.

Lemma store_each_agree news1 news2 :
  Forall2 (λ e1 e2, without_timestamps e1 = without_timestamps e2 ∧ id e1 = id e2)
    news1 news2 →
  ∀ ma mb : gmap string Application,
    (∀ key, key ∉ (λ entity, default "" (id entity)) <$> news1 →
            without_timestamps <$> ma !! key = without_timestamps <$> mb !! key) →
    ∀ key,
      without_timestamps <$> store_each news1 ma !! key
      = without_timestamps <$> store_each news2 mb !! key.
Proof.
  induction 1 as [|e1 e2 news1 news2 [Hsame Hid] _ IH]; intros ma mb Hout key.
  - apply Hout. apply not_elem_of_nil.
  - cbn [store_each foldl].
    change (without_timestamps
              <$> store_each news1 (<[default "" (id e1) := e1]> ma) !! key
            = without_timestamps
              <$> store_each news2 (<[default "" (id e2) := e2]> mb) !! key).
    apply IH. intros key' Hkey'. rewrite <- Hid.
    destruct (decide (default "" (id e1) = key')) as [<-|Hne].
    + rewrite !lookup_insert_eq. cbn [fmap option_fmap option_map]. by rewrite Hsame.
    + rewrite !lookup_insert_ne by done. apply Hout.
      rewrite fmap_cons, not_elem_of_cons. by split.
Qed.

(** ** X12: a migration that returns *)

Section MigrationReturns.
Context `{Runtime}.

(** X12.  When the import of every legacy record returns, [migrate] returns
    one entity for each legacy record, in the order of the pages: the
    entity of a record is what its import returns at the time of its turn,
    the clock being read twice for each record, and it has the id of the
    record.  Afterwards the store holds under every legacy id an entity
    that was returned, whatever it held before, and the other records are
    as they were. *)
Theorem migration_imports_every_record (w : World) :
  let legacy := List.concat (php_applications w) in
  Forall (λ application,
            ∃ w0 w0' entity,
              importDepreciatedFields application w0 = (w0', Returned entity))
    legacy →
  ∃ w' entities,
    ApplicationController.migrate w = (w', Returned entities)
    ∧ List.length entities = List.length legacy
    ∧ ticks w' = (ticks w + 2 * List.length legacy)%nat
    ∧ (∀ i application,
         legacy !! i = Some application →
         ∃ entity,
           entities !! i = Some entity
           ∧ id entity = Some (php_id application)
           ∧ importDepreciatedFields application (with_ticks (ticks w + 2 * i) w)
             = (with_ticks (S (S (ticks w + 2 * i))) w, Returned entity))
    ∧ (∀ application,
         application ∈ legacy →
         ∃ entity,
           entity ∈ entities
           ∧ applications w' !! php_id application = Some entity)
    ∧ (∀ key,
         key ∉ php_id <$> legacy →
         applications w' !! key = applications w !! key).
Proof.
  intros legacy Hreturn. rewrite migrate_all. fold legacy.
  assert (Hall : Forall (λ application, importable application = true) legacy).
  { eapply Forall_impl; [done|]. intros application (w0 & w0' & entity & Hrun).
    rewrite import_run in Hrun. injection Hrun as _ Hrun.
    by eapply import_of_importable. }
  destruct (migrate_each_importable legacy [] w Hall)
    as (w' & entities & Hrun & Hnews & Htimes & Happs & Hticks & _).
  exists w', entities. split; [done|].
  assert (Hids : Forall2 (λ application entity, id entity = Some (php_id application))
                   legacy entities).
  { eapply Forall2_impl; [done|]. apply import_at_id. }
  assert (Hkeys : (λ entity, default "" (id entity)) <$> entities = php_id <$> legacy).
  { clear -Hids. induction Hids as [|application entity legacy entities Hid _ IH];
      [done|]. rewrite !fmap_cons, IH, Hid. done. }
  split; [symmetry; by eapply Forall2_length|]. split; [done|].
  split; [|split].
  - intros i application Hi.
    destruct (Htimes i application Hi) as (entity & Hentity & Hat).
    exists entity. split; [done|].
    split; [by apply import_of_returned in Hat as [display' ->]|].
    by rewrite import_run, <- Hat.
  - intros application Hin.
    destruct (store_each_lookup_in entities (applications w) (php_id application))
      as (entity & Hentity & Hid & Hget).
    { rewrite Hkeys. by apply list_elem_of_fmap_2. }
    exists entity. split; [done|]. by rewrite Happs.
  - intros key Hkey. rewrite Happs. apply store_each_lookup_notin. by rewrite Hkeys.
Qed.

End MigrationReturns.

(** Two pages of legacy records, the second of which replaces the stored
    application [a1]. *)
Lemma migration_imports_every_record_witness :
  let legacy := [sample_legacy "p0" (Value "{}"); sample_legacy "a1" (Value "{}")] in
  let w := legacy_world [[sample_legacy "p0" (Value "{}")];
                         [sample_legacy "a1" (Value "{}")]] in
  ∃ w' entities,
    ApplicationController.migrate (H := Node.runtime) w = (w', Returned entities)
    ∧ List.length entities = 2%nat
    ∧ ticks w' = 4%nat
    ∧ (∀ i application,
         legacy !! i = Some application →
         ∃ entity,
           entities !! i = Some entity
           ∧ id entity = Some (php_id application)
           ∧ importDepreciatedFields (H := Node.runtime) application
               (with_ticks (ticks w + 2 * i) w)
             = (with_ticks (S (S (ticks w + 2 * i))) w, Returned entity))
    ∧ (∀ application,
         application ∈ legacy →
         ∃ entity,
           entity ∈ entities
           ∧ applications w' !! php_id application = Some entity)
    ∧ (∀ key,
         key ∉ php_id <$> legacy →
         applications w' !! key = applications sample_world !! key).
Proof.
  intros legacy w.
  apply (migration_imports_every_record (H := Node.runtime) w).
  repeat constructor;
    (exists sample_world; eexists _, _; vm_compute; reflexivity).
Defined.

(** ** X13: migrating twice *)

Section MigrationTwice.
Context `{Runtime}.

(** X13.  A migration that returned returns when it is run again, and
    gives the same entities and the same store but for the timestamps of
    the records. *)
Theorem migration_is_repeatable (w w1 : World) (entities1 : list Application) :
  ApplicationController.migrate w = (w1, Returned entities1) →
  ∃ w2 entities2,
    ApplicationController.migrate w1 = (w2, Returned entities2)
    ∧ without_timestamps <$> entities2 = without_timestamps <$> entities1
    ∧ (without_timestamps <$> applications w2 : gmap string Application)
      = without_timestamps <$> applications w1.
Proof.
  rewrite migrate_all. intros Hrun1.
  pose proof (migrate_each_returned _ _ _ _ _ Hrun1) as Hall.
  destruct (migrate_each_importable (List.concat (php_applications w)) [] w Hall)
    as (w1' & news1 & Hrun1' & Hnews1 & _ & Happs1 & _ & _ & Hphp).
  rewrite Hrun1 in Hrun1'. injection Hrun1' as <- Hentities. cbn in Hentities.
  subst entities1.
  destruct (migrate_each_importable (List.concat (php_applications w)) [] w1 Hall)
    as (w2 & news2 & Hrun2 & Hnews2 & _ & Happs2 & _).
  exists w2, news2. rewrite migrate_all, Hphp. split; [done|].
  assert (Hsame : Forall2 (λ e1 e2, without_timestamps e1 = without_timestamps e2
                                    ∧ id e1 = id e2) news1 news2).
  { clear -Hnews1 Hnews2. revert news2 Hnews2.
    induction Hnews1 as [|application e1 legacy news1 Hat1 _ IH]; intros news2 Hnews2.
    - apply Forall2_nil_inv_l in Hnews2 as ->. constructor.
    - apply Forall2_cons_inv_l in Hnews2 as (e2 & news2' & Hat2 & Hnews2 & ->).
      constructor; [|by apply IH]. split.
      + destruct Hat1 as (c1 & u1 & H1), Hat2 as (c2 & u2 & H2).
        rewrite import_of_time in H1, H2.
        destruct (import_of application 0 0) as [e0|]; [|done].
        cbn in H1, H2. by injection H1 as <-; injection H2 as <-.
      + by rewrite (import_at_id _ _ Hat1), (import_at_id _ _ Hat2). }
  split.
  - clear -Hsame. induction Hsame as [|e1 e2 news1 news2 [Hwt _] _ IH]; [done|].
    by rewrite !fmap_cons, IH, Hwt.
  - apply map_eq. intros key. rewrite !lookup_fmap, Happs2, Happs1. symmetry.
    apply (store_each_agree news1 news2 Hsame). intros key' Hkey'.
    by rewrite store_each_lookup_notin.
Qed.

End MigrationTwice.

(** The two legacy records above are migrated twice. *)
Lemma migration_is_repeatable_witness :
  ∃ w1 entities1 w2 entities2,
    ApplicationController.migrate (H := Node.runtime)
      (legacy_world [[sample_legacy "p0" (Value "{}")];
                     [sample_legacy "a1" (Value "{}")]])
    = (w1, Returned entities1)
    ∧ ApplicationController.migrate (H := Node.runtime) w1 = (w2, Returned entities2)
    ∧ without_timestamps <$> entities2 = without_timestamps <$> entities1
    ∧ (without_timestamps <$> applications w2 : gmap string Application)
      = without_timestamps <$> applications w1.
Proof.
  assert (∃ w1 entities1,
            ApplicationController.migrate (H := Node.runtime)
              (legacy_world [[sample_legacy "p0" (Value "{}")];
                             [sample_legacy "a1" (Value "{}")]])
            = (w1, Returned entities1)) as (w1 & entities1 & Hrun).
  { eexists _, _. vm_compute. reflexivity. }
  destruct (migration_is_repeatable (H := Node.runtime) _ w1 entities1 Hrun)
    as (w2 & entities2 & Hagain).
  exists w1, entities1, w2, entities2. split; [exact Hrun|exact Hagain].
Defined.

(** ** The display transformation, again *)

(** X14.  The display transformation is idempotent: applied to an
    application that has the display it returned, and to the same legacy
    configuration, it returns that display. *)
Theorem display_import_is_idempotent
    (application : Application) (depreciatedDisplay : JValue) (display' : Display) :
  importDepreciatedDisplayFields application depreciatedDisplay = Returned display' →
  importDepreciatedDisplayFields (with_display (Some display') application)
    depreciatedDisplay
  = Returned display'.
Proof.
  unfold importDepreciatedDisplayFields. cbn zeta. fields.
  destruct (if truthy (depreciatedDisplay?."member_app") then _ else _)
    as [direct'|] eqn:Hdirect; [cbn [mbind Outcome_bind]|done].
  destruct (truthy (depreciatedDisplay?."drive_module")) eqn:Hdrive.
  - destruct (spread (_?."main_ext" ||| JArr_empty)) as [main_ext|];
      [cbn [mbind Outcome_bind]|done].
    destruct (spread (_?."other_ext" ||| JArr_empty)) as [other_ext|];
      [cbn [mbind Outcome_bind mret Outcome_ret]|done].
    destruct (truthy (depreciatedDisplay?."messages_module")) eqn:Hmessages.
    + destruct (if truthy (_ ||| _) then _ else _) as [input'|];
        [cbn [mbind Outcome_bind mret Outcome_ret]|done].
      by intros [= <-].
    + cbn [mbind Outcome_bind mret Outcome_ret]. by intros [= <-].
  - cbn [mbind Outcome_bind mret Outcome_ret].
    destruct (truthy (depreciatedDisplay?."messages_module")) eqn:Hmessages.
    + destruct (if truthy (_ ||| _) then _ else _) as [input'|];
        [cbn [mbind Outcome_bind mret Outcome_ret]|done].
      by intros [= <-].
    + cbn [mbind Outcome_bind mret Outcome_ret]. by intros [= <-].
Qed.

(** The configuration [drive_only], applied twice. *)
Lemma display_import_is_idempotent_witness :
  ∃ display',
    importDepreciatedDisplayFields new_Application drive_only = Returned display'
    ∧ importDepreciatedDisplayFields (with_display (Some display') new_Application)
        drive_only
      = Returned display'.
Proof.
  eexists. split; [vm_compute; reflexivity|].
  apply (display_import_is_idempotent new_Application drive_only).
  vm_compute. reflexivity.
Defined.

(** The display that the transformation returns, field by field. *)
Lemma importDepreciatedDisplayFields_fields application depreciatedDisplay display' :
  importDepreciatedDisplayFields application depreciatedDisplay = Returned display' →
  let twake0 :=
    match display application with
    | Some {| twake := Some t |} => t
    | _ => empty_twake
    end in
  let messages_module := depreciatedDisplay?."messages_module" in
  let can_open_files := depreciatedDisplay?."drive_module"?."can_open_files" in
  ∃ tw,
    display' = {| twake := Some tw |}
    ∧ tab tw =
        (if truthy (depreciatedDisplay?."channel_tab")
         then Some (UrlObject (depreciatedDisplay?."channel_tab"?."iframe"))
         else None)
    ∧ standalone tw =
        (if truthy (depreciatedDisplay?."app")
         then Some (UrlObject (depreciatedDisplay?."app"?."iframe"))
         else None)
    ∧ configuration tw = Some (
        (if truthy (depreciatedDisplay?."configuration"?."can_configure_in_workspace")
         then ["global"] else [])
        ++
        (if truthy (depreciatedDisplay?."configuration"?."can_configure_in_channel")
         then ["channel"] else []))
    ∧ (if truthy (depreciatedDisplay?."member_app")
       then ∃ idn, identity application = Some idn
                   ∧ direct tw = Some (DirectObject (name idn) (icon idn))
       else direct tw = None)
    ∧ (if truthy (depreciatedDisplay?."drive_module")
       then ∃ main_ext other_ext,
              spread (can_open_files?."main_ext" ||| JArr_empty) = Returned main_ext
              ∧ spread (can_open_files?."other_ext" ||| JArr_empty) = Returned other_ext
              ∧ files tw = Some {|
                  editor := Some {|
                    preview_url := can_open_files?."preview_url";
                    edition_url := can_open_files?."url";
                    extensions := main_ext ++ other_ext;
                    empty_files :=
                      depreciatedDisplay?."drive_module"?."can_create_files"
                      ||| JArr_empty;
                  |};
                  files_actions := [];
                |}
       else files tw = files twake0)
    ∧ (if truthy messages_module
       then ∃ input',
              (if truthy (messages_module?."in_plus" ||| messages_module?."right_icon")
               then ∃ idn, identity application = Some idn
                           ∧ input' = Some {| input_icon := icon idn |}
               else input' = None)
              ∧ chat tw = Some {|
                  input := input';
                  commands := messages_module?."commands" ||| JUndefined;
                  chat_actions :=
                    if truthy (messages_module?."action")
                    then Some [ {| action_name := messages_module?."action"?."description";
                                   action_id := "default" |} ]
                    else None;
                |}
       else chat tw = chat twake0).
Proof.
  intros Hrun twake0 messages_module can_open_files. revert Hrun.
  unfold importDepreciatedDisplayFields. cbn zeta.
  fold twake0 messages_module can_open_files.
  assert (Hconfiguration :
    (if truthy (depreciatedDisplay?."configuration"?."can_configure_in_channel")
     then (if truthy (depreciatedDisplay?."configuration"?."can_configure_in_workspace")
           then [] ++ ["global"] else []) ++ ["channel"]
     else (if truthy (depreciatedDisplay?."configuration"?."can_configure_in_workspace")
           then [] ++ ["global"] else []))
    = (if truthy (depreciatedDisplay?."configuration"?."can_configure_in_workspace")
       then ["global"] else [])
      ++ (if truthy (depreciatedDisplay?."configuration"?."can_configure_in_channel")
          then ["channel"] else [])).
  { by destruct
      (truthy (depreciatedDisplay?."configuration"?."can_configure_in_workspace")),
      (truthy (depreciatedDisplay?."configuration"?."can_configure_in_channel")). }
  rewrite Hconfiguration. clear Hconfiguration.
  destruct (truthy (depreciatedDisplay?."member_app"));
    [destruct (identity application) as [idn|] eqn:Hidn; [|done]|];
    cbn [the mbind mret Outcome_bind Outcome_ret];
    (destruct (truthy (depreciatedDisplay?."drive_module"));
     [destruct (spread (can_open_files?."main_ext" ||| JArr_empty)) as [main_ext|];
        [cbn [mbind Outcome_bind]|done];
      destruct (spread (can_open_files?."other_ext" ||| JArr_empty)) as [other_ext|];
        [cbn [mbind Outcome_bind mret Outcome_ret]|done]
     |cbn [mbind mret Outcome_bind Outcome_ret]]);
    (destruct (truthy messages_module);
     [destruct (truthy (_ ||| _));
        [destruct (identity application) as [idn'|] eqn:Hidn'; [|done]|];
        cbn [the mbind mret Outcome_bind Outcome_ret]
     |cbn [mbind mret Outcome_bind Outcome_ret]]);
    intros [= <-]; eexists; (split; [reflexivity|]);
    cbn [tab standalone configuration direct files chat];
    repeat split; eauto.
Qed.

(** X15.  Each binding of the display is read off its own entry of the
    legacy configuration: two configurations that agree on an entry give
    the same binding for it, whatever their other entries hold. *)
Theorem module_bindings_are_independent
    (application : Application) (d1 d2 : JValue) (display1 display2 : Display)
    (tw1 tw2 : Twake) :
  importDepreciatedDisplayFields application d1 = Returned display1 →
  importDepreciatedDisplayFields application d2 = Returned display2 →
  twake display1 = Some tw1 → twake display2 = Some tw2 →
  (d1?."channel_tab" = d2?."channel_tab" → tab tw1 = tab tw2)
  ∧ (d1?."app" = d2?."app" → standalone tw1 = standalone tw2)
  ∧ (d1?."configuration" = d2?."configuration" → configuration tw1 = configuration tw2)
  ∧ (truthy (d1?."member_app") = truthy (d2?."member_app") → direct tw1 = direct tw2)
  ∧ (d1?."drive_module" = d2?."drive_module" → files tw1 = files tw2)
  ∧ (d1?."messages_module" = d2?."messages_module" → chat tw1 = chat tw2).
Proof.
  intros Hrun1 Hrun2 Htw1 Htw2.
  apply importDepreciatedDisplayFields_fields in Hrun1
    as (tw1' & -> & Htab1 & Hstandalone1 & Hconfiguration1 & Hdirect1 & Hfiles1 & Hchat1).
  apply importDepreciatedDisplayFields_fields in Hrun2
    as (tw2' & -> & Htab2 & Hstandalone2 & Hconfiguration2 & Hdirect2 & Hfiles2 & Hchat2).
  injection Htw1 as ->. injection Htw2 as ->.
  split; [|split; [|split; [|split; [|split]]]]; intros Hsame.
  - by rewrite Htab1, Htab2, Hsame.
  - by rewrite Hstandalone1, Hstandalone2, Hsame.
  - by rewrite Hconfiguration1, Hconfiguration2, Hsame.
  - rewrite Hsame in Hdirect1. destruct (truthy (d2?."member_app")).
    + destruct Hdirect1 as (idn1 & Hidn1 & ->), Hdirect2 as (idn2 & Hidn2 & ->).
      congruence.
    + congruence.
  - rewrite Hsame in Hfiles1. destruct (truthy (d2?."drive_module")).
    + destruct Hfiles1 as (m1 & o1 & Hm1 & Ho1 & ->),
               Hfiles2 as (m2 & o2 & Hm2 & Ho2 & ->).
      congruence.
    + congruence.
  - rewrite Hsame in Hchat1. destruct (truthy (d2?."messages_module")).
    + destruct Hchat1 as (i1 & Hi1 & ->), Hchat2 as (i2 & Hi2 & ->).
      destruct (truthy (_ ||| _)).
      * destruct Hi1 as (idn1 & Hidn1 & ->), Hi2 as (idn2 & Hidn2 & ->). congruence.
      * congruence.
    + congruence.
Qed.

(** The configurations [drive_only] and [both_levels] agree on all their
    entries but the drive module and the configuration. *)
Lemma module_bindings_are_independent_witness :
  ∃ display1 display2 tw1 tw2,
    importDepreciatedDisplayFields new_Application drive_only = Returned display1
    ∧ importDepreciatedDisplayFields new_Application both_levels = Returned display2
    ∧ twake display1 = Some tw1 ∧ twake display2 = Some tw2
    ∧ (drive_only?."channel_tab" = both_levels?."channel_tab" → tab tw1 = tab tw2)
    ∧ (drive_only?."app" = both_levels?."app" → standalone tw1 = standalone tw2)
    ∧ (drive_only?."configuration" = both_levels?."configuration" →
       configuration tw1 = configuration tw2)
    ∧ (truthy (drive_only?."member_app") = truthy (both_levels?."member_app") →
       direct tw1 = direct tw2)
    ∧ (drive_only?."drive_module" = both_levels?."drive_module" → files tw1 = files tw2)
    ∧ (drive_only?."messages_module" = both_levels?."messages_module" →
       chat tw1 = chat tw2).
Proof.
  eexists _, _, _, _.
  split; [vm_compute; reflexivity|]. split; [vm_compute; reflexivity|].
  split; [reflexivity|]. split; [reflexivity|].
  eapply (module_bindings_are_independent new_Application drive_only both_levels);
    vm_compute; reflexivity.
Defined.

(** ** X16: when the import throws *)

Lemma spread_iterable (v : JValue) :
  match spread v with
  | Returned _ => iterable v = true
  | Thrown e => e = TypeError ∧ iterable v = false
  end.
Proof. by destruct v. Qed.

Section ImportFailures.
Context `{Runtime}.

(** X16.  The import of a legacy record reads the clock twice and touches
    nothing else.  It throws a [SyntaxError] when the display configuration
    is not JSON, a [TypeError] when the configuration has a drive module
    one of whose extension lists is neither missing nor an array nor a
    string, and returns in all other cases: the other columns never make
    it throw. *)
Theorem import_fails_only_on_the_display (application : PhpApplication) (w : World) :
  let w' := with_ticks (S (S (ticks w))) w in
  let lists_of (d : JValue) :=
    iterable (d?."drive_module"?."can_open_files"?."main_ext" ||| JArr_empty)
    && iterable (d?."drive_module"?."can_open_files"?."other_ext" ||| JArr_empty) in
  match JSON_parse_column (depreciated_display_configuration application) with
  | Thrown e =>
      e = SyntaxError
      ∧ importDepreciatedFields application w = (w', Thrown SyntaxError)
  | Returned d =>
      if truthy (d?."drive_module") && negb (lists_of d)
      then importDepreciatedFields application w = (w', Thrown TypeError)
      else ∃ entity, importDepreciatedFields application w = (w', Returned entity)
  end.
Proof.
  intros w' lists_of. subst w'. rewrite import_run. unfold import_of. cbn zeta.
  destruct (JSON_parse_column _) as [d|e] eqn:Hparse.
  - cbn [mbind Outcome_bind]. subst lists_of. cbn beta.
    destruct (truthy (d?."drive_module")) eqn:Hdrive; cbn [andb].
    + pose proof (spread_iterable
                    (d?."drive_module"?."can_open_files"?."main_ext" ||| JArr_empty))
        as Hmain.
      pose proof (spread_iterable
                    (d?."drive_module"?."can_open_files"?."other_ext" ||| JArr_empty))
        as Hother.
      unfold importDepreciatedDisplayFields. cbn zeta.
      cbn [identity imported the mbind mret Outcome_bind Outcome_ret].
      rewrite Hdrive.
      destruct (truthy (d?."member_app"));
        cbn [mbind mret Outcome_bind Outcome_ret];
        (destruct (spread (_?."main_ext" ||| JArr_empty)) as [main_ext|e1];
         [|by destruct Hmain as [-> ->]]);
        rewrite Hmain; cbn [andb mbind Outcome_bind];
        (destruct (spread (_?."other_ext" ||| JArr_empty)) as [other_ext|e2];
         [|by destruct Hother as [-> ->]]);
        rewrite Hother; cbn [negb mbind mret Outcome_bind Outcome_ret];
        (destruct (truthy (d?."messages_module"));
         [destruct (truthy (_ ||| _))|]);
        cbn [mbind mret Outcome_bind Outcome_ret]. all: by eexists.
    + destruct (importDepreciatedDisplayFields_total
                  (imported application (clock w (ticks w)) (clock w (S (ticks w)))) d)
        as [display' ->]; [by eexists|done|].
      by eexists.
  - assert (e = SyntaxError) as ->; [|done].
    unfold JSON_parse_column in Hparse.
    destruct (depreciated_display_configuration application) as [| |s];
      [congruence|done|].
    destruct (JSON_parse s); congruence.
Qed.

End ImportFailures.

(** ** The imported record *)

Section ImportedColumns.
Context `{Runtime}.

(** X17.  What the import takes from the columns of a legacy record.  The
    id, the company, the default flag and the three api columns, the
    private key among them, are copied as they are; the code of the
    identity is always a text, the simple name as it is written, or else the
    name in lower case; the record asks for publication exactly when the
    legacy record is public and not yet validated; and its version is 1,
    with the two clock readings as timestamps. *)
Theorem legacy_columns_are_copied
    (application : PhpApplication) (w w' : World) (entity : Application) :
  importDepreciatedFields application w = (w', Returned entity) →
  id entity = Some (php_id application)
  ∧ company_id entity = group_id application
  ∧ is_default entity = php_is_default application
  ∧ api entity = Some {|
      hooks_url := depreciated_api_events_url application;
      allowed_ips := depreciated_api_allowed_ip application;
      private_key := depreciated_api_private_key application;
    |}
  ∧ stats entity = Some {|
      created_at := clock w (ticks w);
      updated_at := clock w (S (ticks w));
      version := 1;
    |}
  ∧ chain (identity entity) code
    = Value (if truthy (depreciated_simple_name application)
             then or_text (depreciated_simple_name application) ""
             else toLocaleLowerCase (or_text (depreciated_name application) ""))
  ∧ chain (identity entity) name = depreciated_name application
  ∧ chain (publication entity) published
    = depreciated_is_available_to_public application
  ∧ truthy (chain (publication entity) requested)
    = truthy (depreciated_public application)
      && negb (truthy (depreciated_twake_team_validation application)).
Proof.
  intros Hrun.
  apply importDepreciatedFields_returned in Hrun as (d & display' & _ & _ & -> & _).
  cbn zeta. fields. cbn [imported id company_id is_default api stats identity
                         publication chain code name published requested].
  repeat split.
  - destruct (depreciated_simple_name application) as [| |s]; try reflexivity.
    unfold js_or, or_text. cbn [truthy Nullable_truthy].
    by destruct (truthy s).
  - unfold js_and. destruct (truthy (depreciated_public application)) eqn:Hpublic.
    + reflexivity.
    + by rewrite Hpublic.
Qed.

End ImportedColumns.

(** The legacy record [p1] with the empty display configuration. *)
Lemma legacy_columns_are_copied_witness :
  ∃ w' entity,
    importDepreciatedFields (H := Node.runtime) (sample_legacy "p1" (Value "{}"))
      sample_world = (w', Returned entity)
    ∧ id entity = Some "p1"
    ∧ company_id entity = Value "c1"
    ∧ is_default entity = Value false
    ∧ api entity = Some {|
        hooks_url := Null; allowed_ips := Null; private_key := Value "bGVnYWN5";
      |}
    ∧ stats entity = Some {| created_at := 2000; updated_at := 2001; version := 1 |}
    ∧ chain (identity entity) code = Value "legacy"
    ∧ chain (identity entity) name = Value "Legacy"
    ∧ chain (publication entity) published = Value true
    ∧ truthy (chain (publication entity) requested) = false.
Proof.
  eexists _, _. split; [vm_compute; reflexivity|].
  eapply (legacy_columns_are_copied (H := Node.runtime)
            (sample_legacy "p1" (Value "{}")) sample_world).
  vm_compute. reflexivity.
Defined.

(** ** X18: reading back what was saved *)

(** X18.  The record that [save] returns, for a creation or an update, has
    an id and is stored under it; [get] with that id then returns this same
    record, in full, to an administrator of the company of the record. *)
Theorem saved_record_is_read_back
    (application_id : Nullable string) (app : Application) (w w' : World)
    (r : Application) :
  ApplicationController.save application_id app w = (w', Returned r) →
  ∃ key,
    id r = Some key
    ∧ applications w' !! key = Some r
    ∧ ∀ (PublicApplicationObject : Type)
        (getPublicObject : Application → PublicApplicationObject)
        user company companyUser,
        company_id r = Value company →
        company_users w' !! (company, user) = Some companyUser →
        role companyUser = "admin" →
        ApplicationController.get getPublicObject key user w' = (w', Returned (inl r)).
Proof.
  intros Hsave.
  assert (∃ key, id r = Some key ∧ applications w' !! key = Some r)
    as (key & Hid & Hget).
  { destruct (truthy application_id) eqn:Hk.
    - destruct application_id as [| |k]; try done.
      assert (k ≠ "") as Hne by (intros ->; by vm_compute in Hk).
      apply save_existing_returned in Hsave
        as (stored & sp & p & sa & a & ss & _ & _ & _ & _ & _ & _ & _ & Hr & Happs);
        [|done].
      exists (key_of stored w). split; [by rewrite Hr|].
      rewrite Happs. apply lookup_insert_eq.
    - apply save_new_returned in Hsave as (p & a & _ & _ & Hr & Happs & _); [|done].
      exists (key_of app w). split; [by rewrite Hr|].
      rewrite Happs. apply lookup_insert_eq. }
  exists key. split; [done|]. split; [done|].
  intros P getPublicObject user company companyUser Hcompany Huser Hrole.
  unfold ApplicationController.get. rewrite bind_run.
  unfold marketplaceApps_get. rewrite Hget. run.
  unfold await, getCompanyUser. rewrite Hcompany, Huser.
  by rewrite bool_decide_eq_true_2.
Qed.

(** The administrator [u1] renames the draft [a2] and reads it back. *)
Lemma saved_record_is_read_back_witness :
  ∃ w' r,
    ApplicationController.save (Value "a2")
      (sample_application "a2" false false "Bar") sample_world = (w', Returned r)
    ∧ chain (identity r) name = Value "Bar"
    ∧ ApplicationController.get (with_api None) "a2" "u1" w' = (w', Returned (inl r)).
Proof.
  eexists _, _. split; [vm_compute; reflexivity|]. split; [reflexivity|].
  edestruct (saved_record_is_read_back (Value "a2")
               (sample_application "a2" false false "Bar") sample_world)
    as (key & Hid & _ & Hread); [vm_compute; reflexivity|].
  injection Hid as <-.
  apply (Hread _ (with_api None) "u1" "c1" {| role := "admin" |});
    [reflexivity|vm_compute; reflexivity|reflexivity].
Defined.

(** * Properties of the access manager *)

Section AccessManager.
Import InternalAccess.

Implicit Types (item : option DriveItem) (a e : AccessEntity).

Lemma filter_of_item (P : AccessEntity → Prop) `{∀ a, Decision (P a)} item :
  default [] (filter P <$> entities_of item) = filter P (default [] (entities_of item)).
Proof. by destruct item. Qed.

Lemma filter_one_False {A} (P : A → Prop) `{∀ x, Decision (P x)} (x : A) :
  ¬ P x → filter P [x] = [].
Proof. intros HP. by rewrite filter_cons_False. Qed.

Lemma filter_one_True {A} (P : A → Prop) `{∀ x, Decision (P x)} (x : A) :
  P x → filter P [x] = [x].
Proof. intros HP. by rewrite filter_cons_True. Qed.

Lemma filter_none {A} (P : A → Prop) `{∀ x, Decision (P x)} (l : list A) :
  (∀ x, x ∈ l → ¬ P x) → filter P l = [].
Proof.
  induction l as [|x l IH]; intros Hnone; [done|].
  rewrite filter_cons_False by (apply Hnone; left).
  apply IH. intros y Hy. apply Hnone. by right.
Qed.

(** Changing the level of the entries that satisfy [Q] leaves the entries
    that satisfy [P] when no entry satisfies both, and [P] does not look at
    the level. *)
Lemma filter_relevel (P Q : AccessEntity → Prop)
    `{∀ a, Decision (P a)} `{∀ a, Decision (Q a)} (level' : string)
    (l : list AccessEntity) :
  (∀ a, P a → ¬ Q a) → (∀ a, P (with_level level' a) → P a) →
  filter P ((λ e, if bool_decide (Q e) then with_level level' e else e) <$> l)
  = filter P l.
Proof.
  intros Hdisjoint Hlevel. induction l as [|a l IH]; [done|].
  rewrite fmap_cons. case_bool_decide as HQ.
  - rewrite !filter_cons_False; [done| |].
    + intros HP. by apply (Hdisjoint a).
    + intros HP. apply (Hdisjoint a); [by apply Hlevel|done].
  - rewrite !filter_cons, IH. done.
Qed.

Lemma relevel_filter (Q : AccessEntity → Prop) `{∀ a, Decision (Q a)}
    (level' : string) (l : list AccessEntity) :
  (∀ a, Q (with_level level' a) ↔ Q a) →
  filter Q ((λ e, if bool_decide (Q e) then with_level level' e else e) <$> l)
  = with_level level' <$> filter Q l.
Proof.
  intros Hlevel. induction l as [|a l IH]; [done|].
  rewrite fmap_cons. case_bool_decide as HQ.
  - rewrite !filter_cons_True by (done || by apply Hlevel).
    by rewrite fmap_cons, IH.
  - rewrite !filter_cons_False by done. done.
Qed.

Lemma relevel_same (Q : AccessEntity → Prop) `{∀ a, Decision (Q a)}
    (level' : string) (l : list AccessEntity) :
  let l' := (λ e, if bool_decide (Q e) then with_level level' e else e) <$> l in
  type <$> l' = type <$> l ∧ id <$> l' = id <$> l.
Proof.
  induction l as [|a l [IHtype IHid]]; [done|].
  cbn zeta in *. rewrite !fmap_cons, IHtype, IHid. by case_bool_decide.
Qed.

Lemma folderEntity_type item : type (folderEntity item) = "folder".
Proof.
  unfold folderEntity. destruct item as [item|]; [|done]. cbn.
  destruct (head (filter _ _)) as [a|] eqn:Hhead; [|done]. cbn.
  apply head_Some_elem_of in Hhead. by apply list_elem_of_filter in Hhead as [? _].
Qed.

Lemma companyEntity_type item companyEntity' :
  companyEntity item = Some companyEntity' → type companyEntity' = "company".
Proof.
  unfold companyEntity. destruct item as [item|]; [|done]. cbn. intros Hhead.
  apply head_Some_elem_of in Hhead. by apply list_elem_of_filter in Hhead as [? _].
Qed.

(** X19.  Each handler of the access manager edits the entries of its own
    kind only: the other entries are passed to [update] as they are and in
    their order, and so is the [public] part.  The folder checkbox edits
    the folder entries, the company level the company entries, the channel
    level the channel entries, the user selector the entries of the users,
    and the level of a user the entries of that user. *)
Theorem handlers_edit_their_own_entries item :
  let old := default [] (entities_of item) in
  (∀ status,
     public (folder_onChange item status) = public_of item
     ∧ filter (λ a, type a ≠ "folder") (entities (folder_onChange item status))
       = filter (λ a, type a ≠ "folder") old)
  ∧ (∀ companyEntity' level',
       companyEntity item = Some companyEntity' →
       public (company_onChange item companyEntity' level') = public_of item
       ∧ filter (λ a, type a ≠ "company")
           (entities (company_onChange item companyEntity' level'))
         = filter (λ a, type a ≠ "company") old)
  ∧ (∀ level',
       public (channel_onChange item level') = public_of item
       ∧ filter (λ a, type a ≠ "channel") (entities (channel_onChange item level'))
         = filter (λ a, type a ≠ "channel") old)
  ∧ (∀ level' users,
       public (select_onChange item level' users) = public_of item
       ∧ filter (λ a, type a ≠ "user") (entities (select_onChange item level' users))
         = filter (λ a, type a ≠ "user") old)
  ∧ (∀ userId level',
       public (user_onChange item userId level') = public_of item
       ∧ filter (λ a, type a ≠ "user" ∨ id a ≠ userId)
           (entities (user_onChange item userId level'))
         = filter (λ a, type a ≠ "user" ∨ id a ≠ userId) old).
Proof.
  intros old. split; [|split; [|split; [|split]]].
  - intros status. split; [done|]. cbn [entities folder_onChange].
    rewrite filter_of_item, filter_app. fold old.
    rewrite filter_one_False.
    + rewrite app_nil_r, list_filter_filter. apply list_filter_iff. tauto.
    + cbn [type with_level]. rewrite folderEntity_type. tauto.
  - intros companyEntity' level' Hcompany. split; [done|].
    cbn [entities company_onChange]. rewrite filter_of_item, filter_app. fold old.
    assert (filter (λ a, type a ≠ "company")
              (if bool_decide (level' ≠ "remove")
               then [with_level level' companyEntity'] else []) = []) as ->.
    { case_bool_decide; [|done]. rewrite filter_one_False; [done|].
      cbn [type with_level]. rewrite (companyEntity_type item) by done. tauto. }
    rewrite app_nil_r, list_filter_filter. apply list_filter_iff. tauto.
  - intros level'. unfold channel_onChange. case_bool_decide.
    + split; [done|]. cbn [entities]. rewrite filter_of_item. fold old.
      rewrite list_filter_filter. apply list_filter_iff. tauto.
    + split; [done|]. cbn [entities].
      replace (default [] (fmap (M := list) _ <$> entities_of item))
        with ((λ e, if bool_decide (type e = "channel") then with_level level' e else e)
                <$> old) by (subst old; by destruct item).
      apply filter_relevel; [tauto|done].
  - intros level' users. split; [done|]. cbn [entities select_onChange].
    rewrite filter_of_item, filter_app. fold old.
    assert (filter (λ a, type a ≠ "user")
              (if truthy (from_option User.id Undefined (head users))
               then [ {| type := "user";
                         id := or_text (from_option User.id Undefined (head users)) "";
                         level := level' |} ]
               else []) = []) as ->.
    { destruct (truthy _); [|done]. rewrite filter_one_False; [done|].
      cbn [type]. tauto. }
    rewrite app_nil_r, list_filter_filter. apply list_filter_iff. tauto.
  - intros userId level'. split; [done|]. cbn [entities user_onChange].
    case_bool_decide.
    + rewrite filter_of_item. fold old.
      rewrite list_filter_filter. apply list_filter_iff. tauto.
    + replace (default [] (fmap (M := list) _ <$> entities_of item))
        with ((λ e, if bool_decide (type e = "user" ∧ id e = userId)
                    then with_level level' e else e) <$> old)
        by (subst old; by destruct item).
      apply filter_relevel; [|done].
      intros a [Htype|Hid] [? ?]; done.
Qed.

(** The level shown for a user is the level of the first entry of that
    user. *)
Lemma user_level_entries item userId :
  user_level item userId
  = match head (filter (λ a, type a = "user" ∧ id a = userId)
                  (default [] (entities_of item))) with
    | Some a => if truthy (level a) then level a else "none"
    | None => "none"
    end.
Proof. by destruct item. Qed.

(** X20.  A user that is selected, with a level, gets exactly one entry,
    with that level, which is then the level shown for the user; an entry
    that the user had is replaced.  The levels shown for the other users
    are as before.  Removing the user afterwards gives the entries the item
    had without those of the user. *)
Theorem selected_user_gets_the_level
    (item : DriveItem) (userId level' : string) (others : list User.UserType) :
  userId ≠ "" → level' ≠ "" →
  let info :=
    select_onChange (Some item) level' ({| User.id := Value userId |} :: others) in
  let item' := Some {| access_info := info |} in
  entities info
  = filter (λ a, type a ≠ "user" ∨ id a ≠ userId) (entities (access_info item))
    ++ [ {| type := "user"; id := userId; level := level' |} ]
  ∧ filter (λ a, type a = "user" ∧ id a = userId) (entities info)
    = [ {| type := "user"; id := userId; level := level' |} ]
  ∧ user_level item' userId = level'
  ∧ (∀ userId', userId' ≠ userId →
       user_level item' userId' = user_level (Some item) userId')
  ∧ entities (user_onChange item' userId "remove")
    = filter (λ a, type a ≠ "user" ∨ id a ≠ userId) (entities (access_info item)).
Proof.
  intros HuserId Hlevel info item'.
  assert (Hinfo : entities info
                  = filter (λ a, type a ≠ "user" ∨ id a ≠ userId)
                      (entities (access_info item))
                    ++ [ {| type := "user"; id := userId; level := level' |} ]).
  { subst info. cbn [entities select_onChange head from_option User.id entities_of
                     fmap option_fmap option_map default].
    rewrite truthy_text, or_text_nonempty by done. f_equal.
    apply list_filter_iff. intros a. split; (intros [|Hne]; [by left|right]); congruence. }
  subst item'. clearbody info.
  assert (Hown : filter (λ a, type a = "user" ∧ id a = userId) (entities info)
                 = [ {| type := "user"; id := userId; level := level' |} ]).
  { rewrite Hinfo, filter_app, list_filter_filter.
    rewrite filter_none by (intros a _; tauto).
    by rewrite filter_one_True. }
  split; [done|]. split; [done|]. split; [|split].
  - rewrite user_level_entries.
    cbn [entities_of fmap option_fmap option_map from_option Datatypes.id access_info].
    rewrite Hown. cbn [head level]. unfold truthy, string_truthy.
    by rewrite bool_decide_eq_false_2.
  - intros userId' Hother. rewrite !user_level_entries.
    cbn [entities_of fmap option_fmap option_map from_option Datatypes.id access_info].
    rewrite Hinfo, filter_app, list_filter_filter.
    rewrite filter_one_False by (cbn [type id]; intros [_ ?]; congruence).
    rewrite app_nil_r.
    rewrite (list_filter_iff _ (λ a, type a = "user" ∧ id a = userId')); [done|].
    intros a. split; [tauto|]. intros [? ?]. split; [done|]. right. congruence.
  - cbn [entities user_onChange].
    rewrite bool_decide_eq_true_2 by done.
    cbn [entities_of fmap option_fmap option_map from_option Datatypes.id access_info].
    rewrite Hinfo, filter_app, list_filter_filter.
    rewrite filter_one_False by (cbn [type id]; tauto).
    rewrite app_nil_r. apply list_filter_iff. tauto.
Qed.

(** X21.  Changing the level of a user gives the new level to the entries
    of that user and leaves every entry in its place, with its type and
    its id; the
    level shown for the user is then the new one if the user has an entry,
    and no entry is made for a user that has none.  Removing the user
    removes the entries of the user, and the level shown is "none".  Either
    way the levels shown for the other users are as before. *)
Theorem user_level_is_changed (item : DriveItem) (userId level' : string) :
  let old := entities (access_info item) in
  let info := user_onChange (Some item) userId level' in
  let item' := Some {| access_info := info |} in
  (level' = "remove" →
     entities info = filter (λ a, type a ≠ "user" ∨ id a ≠ userId) old
     ∧ user_level item' userId = "none")
  ∧ (level' ≠ "remove" →
       (type <$> entities info = type <$> old ∧ id <$> entities info = id <$> old)
       ∧ filter (λ a, type a = "user" ∧ id a = userId) (entities info)
         = with_level level' <$> filter (λ a, type a = "user" ∧ id a = userId) old
       ∧ user_level item' userId
         = (if bool_decide (filter (λ a, type a = "user" ∧ id a = userId) old = [])
            then "none"
            else if truthy level' then level' else "none")
       ∧ (filter (λ a, type a = "user" ∧ id a = userId) old = [] →
          entities info = old))
  ∧ (∀ userId', userId' ≠ userId →
       user_level item' userId' = user_level (Some item) userId').
Proof.
  intros old info item'. split; [|split].
  - intros ->.
    assert (Hinfo : entities info = filter (λ a, type a ≠ "user" ∨ id a ≠ userId) old)
      by done.
    split; [done|]. subst item'. clearbody info. rewrite user_level_entries.
    cbn [entities_of fmap option_fmap option_map from_option Datatypes.id access_info].
    rewrite Hinfo, list_filter_filter, filter_none; [done|]. intros a _. tauto.
  - intros Hkeep.
    assert (Hinfo : entities info
                    = (λ e, if bool_decide (type e = "user" ∧ id e = userId)
                            then with_level level' e else e) <$> old).
    { subst info. cbn [entities user_onChange].
      by rewrite bool_decide_eq_false_2 by done. }
    assert (Hown : filter (λ a, type a = "user" ∧ id a = userId) (entities info)
                   = with_level level'
                     <$> filter (λ a, type a = "user" ∧ id a = userId) old).
    { rewrite Hinfo. by apply relevel_filter. }
    subst item'. clearbody info. split; [|split; [done|split]].
    + rewrite Hinfo. apply relevel_same.
    + rewrite user_level_entries.
      cbn [entities_of fmap option_fmap option_map from_option Datatypes.id access_info].
      rewrite Hown.
      destruct (filter (λ a, type a = "user" ∧ id a = userId) old) as [|a l]; [done|].
      rewrite bool_decide_eq_false_2 by done. done.
    + intros Hnone. rewrite Hinfo. clear Hinfo Hown.
      assert (∀ a, a ∈ old → ¬ (type a = "user" ∧ id a = userId)) as Hout.
      { intros a Ha HQ. by apply (filter_nil_not_elem_of _ _ a Hnone). }
      clear Hnone. induction old as [|a l IH]; [done|].
      rewrite fmap_cons, IH by (intros b Hb; apply Hout; by right).
      rewrite bool_decide_eq_false_2; [done|]. apply Hout. by left.
  - intros userId' Hother.
    assert (Hothers : filter (λ a, type a = "user" ∧ id a = userId') (entities info)
                      = filter (λ a, type a = "user" ∧ id a = userId') old).
    { subst info. cbn [entities user_onChange]. case_bool_decide.
      - cbn [entities_of fmap option_fmap option_map from_option Datatypes.id].
        fold old. rewrite list_filter_filter. apply list_filter_iff.
        intros a. split; [tauto|]. intros [? ?]. split; [done|]. right. congruence.
      - cbn [entities_of fmap option_fmap option_map from_option Datatypes.id].
        fold old. apply filter_relevel; [|done].
        intros a [? ?] [? ?]. congruence. }
    rewrite !user_level_entries. subst item'. clearbody info.
    cbn [entities_of fmap option_fmap option_map from_option Datatypes.id access_info].
    fold old. by rewrite Hothers.
Qed.

(** X22.  The checkbox of the parent folder passes to [update] the entries
    of the item that are no folder entries, in their order, and after them
    one folder entry, with the level "manage" when it is checked and "none"
    when it is not, whatever folder entries the item had and also when the
    item is not loaded; the public part is passed as it is.  The checkbox
    then shows what was chosen, and choosing the same again changes
    nothing.  The level of the company is offered only while the box is not
    checked. *)
Theorem folder_checkbox_sets_one_entry (item : option DriveItem) (status : bool) :
  let info := folder_onChange item status in
  let item' := Some {| access_info := info |} in
  entities info
  = filter (λ a, type a ≠ "folder") (default [] (entities_of item))
    ++ [with_level (if status then "manage" else "none") (folderEntity item)]
  ∧ public info = public_of item
  ∧ filter (λ a, type a = "folder") (entities info)
    = [with_level (if status then "manage" else "none") (folderEntity item)]
  ∧ folderEntity item'
    = with_level (if status then "manage" else "none") (folderEntity item)
  ∧ folder_value item' = status
  ∧ folder_onChange item' status = info
  ∧ (status = true → company_shown item' = false)
  ∧ (item = None →
     entities info
     = [ {| type := "folder"; id := "parent";
            level := if status then "manage" else "none" |} ]).
Proof.
  intros info item'.
  assert (Hinfo : entities info
                  = filter (λ a, type a ≠ "folder") (default [] (entities_of item))
                    ++ [with_level (if status then "manage" else "none")
                          (folderEntity item)]).
  { subst info. cbn [entities folder_onChange]. by rewrite filter_of_item. }
  assert (Hpublic : public info = public_of item) by done.
  assert (Hown : filter (λ a, type a = "folder") (entities info)
                 = [with_level (if status then "manage" else "none")
                      (folderEntity item)]).
  { rewrite Hinfo, filter_app, list_filter_filter.
    rewrite filter_none by (intros a _; tauto).
    rewrite filter_one_True; [done|]. cbn [type with_level]. apply folderEntity_type. }
  assert (Hfolder : folderEntity item'
                    = with_level (if status then "manage" else "none")
                        (folderEntity item)).
  { subst item'. unfold folderEntity at 1.
    cbn [entities_of fmap option_fmap option_map mbind option_bind access_info].
    by rewrite Hown. }
  split; [done|]. split; [done|].
  split; [done|]. split; [done|]. split; [|split; [|split]].
  - unfold folder_value. rewrite Hfolder. cbn [level with_level]. by destruct status.
  - unfold folder_onChange at 1. rewrite Hfolder.
    destruct info as [entities' public']. cbn [entities public] in *.
    subst item'. f_equal.
    cbn [entities_of fmap option_fmap option_map from_option Datatypes.id access_info
         entities].
    rewrite Hinfo at 1. rewrite filter_app, list_filter_filter.
    rewrite filter_one_False
      by (cbn [type with_level]; rewrite folderEntity_type; tauto).
    rewrite app_nil_r, Hinfo. f_equal.
    apply list_filter_iff. tauto.
  - intros ->. unfold company_shown. rewrite Hfolder. cbn [level with_level].
    by rewrite andb_false_r.
  - intros ->. by rewrite Hinfo.
Qed.

(** X23.  A level chosen for the channels is given to every channel entry
    at once, so that it is the level shown for the channels; every entry
    stays in its place, with its type and its id.  Removing the channels
    removes every channel entry, and the level of the channels is no longer
    shown. *)
Theorem channel_levels_change_together (item : option DriveItem) (level' : string) :
  let info := channel_onChange item level' in
  let item' := Some {| access_info := info |} in
  (level' = "remove" →
     channelEntities item' = []
     ∧ channel_shown item' = false
     ∧ entities info
       = filter (λ a, type a ≠ "channel") (default [] (entities_of item)))
  ∧ (level' ≠ "remove" →
       channelEntities item' = with_level level' <$> channelEntities item
       ∧ (type <$> entities info = type <$> default [] (entities_of item)
          ∧ id <$> entities info = id <$> default [] (entities_of item))
       ∧ channel_shown item' = channel_shown item
       ∧ channel_level item'
         = (if channel_shown item then Some level' else None)).
Proof.
  intros info item'. split.
  - intros ->.
    assert (Hinfo : entities info
                    = filter (λ a, type a ≠ "channel") (default [] (entities_of item))).
    { subst info. unfold channel_onChange. rewrite bool_decide_eq_true_2 by done.
      cbn [entities]. by rewrite filter_of_item. }
    assert (Hown : channelEntities item' = []).
    { subst item'. unfold channelEntities.
      cbn [entities_of fmap option_fmap option_map from_option Datatypes.id access_info].
      rewrite Hinfo, list_filter_filter. apply filter_none. intros a _. tauto. }
    split; [done|]. split; [|done].
    unfold channel_shown. by rewrite Hown.
  - intros Hkeep.
    assert (Hinfo : entities info
                    = (λ e, if bool_decide (type e = "channel")
                            then with_level level' e else e)
                      <$> default [] (entities_of item)).
    { subst info. unfold channel_onChange. rewrite bool_decide_eq_false_2 by done.
      cbn [entities]. by destruct item. }
    assert (Hown : channelEntities item' = with_level level' <$> channelEntities item).
    { subst item'. unfold channelEntities.
      cbn [entities_of fmap option_fmap option_map from_option Datatypes.id access_info].
      rewrite Hinfo, filter_of_item. by apply relevel_filter. }
    split; [done|]. split; [rewrite Hinfo; apply relevel_same|].
    assert (Hshown : channel_shown item' = channel_shown item).
    { unfold channel_shown. by rewrite Hown, length_fmap. }
    split; [done|]. unfold channel_level, channel_shown. rewrite Hown.
    by destruct (channelEntities item).
Qed.

(** X24.  A level chosen for the company replaces the company entries by
    one entry, the last of the entries, which is the first company entry
    with the new level; removing the company removes every company entry,
    and the level of the company is no longer offered. *)
Theorem company_level_is_set
    (item : option DriveItem) (companyEntity' : AccessEntity) (level' : string) :
  companyEntity item = Some companyEntity' →
  let info := company_onChange item companyEntity' level' in
  let item' := Some {| access_info := info |} in
  (level' = "remove" →
     entities info = filter (λ a, type a ≠ "company") (default [] (entities_of item))
     ∧ companyEntity item' = None
     ∧ company_shown item' = false)
  ∧ (level' ≠ "remove" →
       entities info
       = filter (λ a, type a ≠ "company") (default [] (entities_of item))
         ++ [with_level level' companyEntity']
       ∧ filter (λ a, type a = "company") (entities info)
         = [with_level level' companyEntity']
       ∧ companyEntity item' = Some (with_level level' companyEntity')).
Proof.
  intros Hcompany info item'.
  pose proof (companyEntity_type item companyEntity' Hcompany) as Htype.
  split.
  - intros ->.
    assert (Hinfo : entities info
                    = filter (λ a, type a ≠ "company") (default [] (entities_of item))).
    { subst info. cbn [entities company_onChange].
      rewrite bool_decide_eq_false_2 by (intros Hne; by apply Hne).
      by rewrite app_nil_r, filter_of_item. }
    assert (Hnone : companyEntity item' = None).
    { subst item'. unfold companyEntity.
      cbn [entities_of fmap option_fmap option_map mbind option_bind access_info].
      rewrite Hinfo, list_filter_filter, filter_none; [done|]. intros a _. tauto. }
    split; [done|]. split; [done|]. unfold company_shown. by rewrite Hnone.
  - intros Hkeep.
    assert (Hinfo : entities info
                    = filter (λ a, type a ≠ "company") (default [] (entities_of item))
                      ++ [with_level level' companyEntity']).
    { subst info. cbn [entities company_onChange].
      rewrite bool_decide_eq_true_2 by done. by rewrite filter_of_item. }
    assert (Hown : filter (λ a, type a = "company") (entities info)
                   = [with_level level' companyEntity']).
    { rewrite Hinfo, filter_app, list_filter_filter.
      rewrite filter_none by (intros a _; tauto).
      by rewrite filter_one_True. }
    split; [done|]. split; [done|].
    subst item'. unfold companyEntity.
    cbn [entities_of fmap option_fmap option_map mbind option_bind access_info].
    by rewrite Hown.
Qed.

End AccessManager.

(** The user [u2] is given the level "read" on an item that the user [u1]
    and a channel can reach. *)
Lemma selected_user_gets_the_level_witness :
  let item := {|
    InternalAccess.access_info := {|
      InternalAccess.entities := [
        {| InternalAccess.type := "user"; InternalAccess.id := "u1";
           InternalAccess.level := "manage" |};
        {| InternalAccess.type := "user"; InternalAccess.id := "u2";
           InternalAccess.level := "write" |};
        {| InternalAccess.type := "channel"; InternalAccess.id := "ch1";
           InternalAccess.level := "read" |} ];
      InternalAccess.public := JUndefined;
    |} |} in
  let info :=
    InternalAccess.select_onChange (Some item) "read"
      [ {| InternalAccess.User.id := Value "u2" |} ] in
  let item' := Some {| InternalAccess.access_info := info |} in
  InternalAccess.entities info
  = [ {| InternalAccess.type := "user"; InternalAccess.id := "u1";
         InternalAccess.level := "manage" |};
      {| InternalAccess.type := "channel"; InternalAccess.id := "ch1";
         InternalAccess.level := "read" |};
      {| InternalAccess.type := "user"; InternalAccess.id := "u2";
         InternalAccess.level := "read" |} ]
  ∧ InternalAccess.user_level item' "u2" = "read"
  ∧ InternalAccess.user_level item' "u1" = "manage"
  ∧ InternalAccess.entities (InternalAccess.user_onChange item' "u2" "remove")
    = [ {| InternalAccess.type := "user"; InternalAccess.id := "u1";
           InternalAccess.level := "manage" |};
        {| InternalAccess.type := "channel"; InternalAccess.id := "ch1";
           InternalAccess.level := "read" |} ].
Proof.
  intros item info item'.
  destruct (selected_user_gets_the_level item "u2" "read" [])
    as (Hinfo & _ & Hlevel & Hothers & Hremove); [done|done|].
  split; [exact Hinfo|]. split; [exact Hlevel|].
  split; [exact (Hothers "u1" ltac:(done))|exact Hremove].
Defined.

(** The company [c1] can read an item whose folder entry has the level
    "none"; it is given the level "write". *)
Lemma company_level_is_set_witness :
  let companyEntity' :=
    {| InternalAccess.type := "company"; InternalAccess.id := "c1";
       InternalAccess.level := "read" |} in
  let item := Some {|
    InternalAccess.access_info := {|
      InternalAccess.entities := [
        {| InternalAccess.type := "folder"; InternalAccess.id := "parent";
           InternalAccess.level := "none" |};
        companyEntity';
        {| InternalAccess.type := "user"; InternalAccess.id := "u1";
           InternalAccess.level := "manage" |} ];
      InternalAccess.public := JUndefined;
    |} |} in
  let info := InternalAccess.company_onChange item companyEntity' "write" in
  InternalAccess.entities info
  = [ {| InternalAccess.type := "folder"; InternalAccess.id := "parent";
         InternalAccess.level := "none" |};
      {| InternalAccess.type := "user"; InternalAccess.id := "u1";
         InternalAccess.level := "manage" |};
      {| InternalAccess.type := "company"; InternalAccess.id := "c1";
         InternalAccess.level := "write" |} ]
  ∧ InternalAccess.companyEntity (Some {| InternalAccess.access_info := info |})
    = Some {| InternalAccess.type := "company"; InternalAccess.id := "c1";
              InternalAccess.level := "write" |}.
Proof.
  intros companyEntity' item info.
  destruct (company_level_is_set item companyEntity' "write" eq_refl) as [_ Hset].
  destruct (Hset ltac:(done)) as (Hinfo & _ & Hcompany).
  split; [exact Hinfo|exact Hcompany].
Defined.

(** * Properties of the search of files *)

Section SearchOfFiles.
Import SearchFiles.

Implicit Types (s : State) (x y : MessageFile).

(** ** The sort *)

Lemma sort_insert_Permutation {A} (compare : A → A → Z) (x : A) (l : list A) :
  sort_insert compare x l ≡ₚ x :: l.
Proof.
  induction l as [|y l IH]; [done|]. cbn [sort_insert].
  destruct (0 <? compare x y); [|done].
  by rewrite IH, Permutation_swap.
Qed.

Lemma Array_sort_Permutation {A} (compare : A → A → Z) (l : list A) :
  Array_sort compare l ≡ₚ l.
Proof.
  induction l as [|x l IH]; [done|].
  cbn [Array_sort foldr]. rewrite sort_insert_Permutation.
  by f_equiv.
Qed.

Lemma sort_insert_newest_first x (l : list MessageFile) :
  StronglySorted newest_first l →
  StronglySorted newest_first
    (sort_insert (λ a b, created_at_or_0 b - created_at_or_0 a) x l).
Proof.
  induction 1 as [|y l Hsorted IH Hall]; [by repeat constructor|].
  cbn [sort_insert]. destruct (0 <? _) eqn:Hcompare.
  - apply Z.ltb_lt in Hcompare. constructor; [done|].
    rewrite sort_insert_Permutation. constructor; [|done].
    unfold newest_first. lia.
  - apply Z.ltb_ge in Hcompare. constructor; [by constructor|].
    constructor; [unfold newest_first; lia|].
    eapply Forall_impl; [done|]. unfold newest_first. intros z Hz. lia.
Qed.

Lemma Array_sort_newest_first (l : list MessageFile) :
  StronglySorted newest_first
    (Array_sort (λ a b, created_at_or_0 b - created_at_or_0 a) l).
Proof.
  induction l as [|x l IH]; [constructor|].
  cbn [Array_sort foldr]. by apply sort_insert_newest_first.
Qed.

(** The files of one time stay in the order they had. *)
Lemma sort_insert_stable x (l : list MessageFile) (t : Z) :
  filter (λ y, created_at_or_0 y = t)
    (sort_insert (λ a b, created_at_or_0 b - created_at_or_0 a) x l)
  = filter (λ y, created_at_or_0 y = t) (x :: l).
Proof.
  induction l as [|y l IH]; [done|]. cbn [sort_insert].
  destruct (0 <? _) eqn:Hcompare; [|done].
  apply Z.ltb_lt in Hcompare.
  rewrite (filter_cons _ y), IH, !filter_cons.
  repeat case_decide; try done. lia.
Qed.

Lemma Array_sort_stable (l : list MessageFile) (t : Z) :
  filter (λ y, created_at_or_0 y = t)
    (Array_sort (λ a b, created_at_or_0 b - created_at_or_0 a) l)
  = filter (λ y, created_at_or_0 y = t) l.
Proof.
  induction l as [|x l IH]; [done|].
  cbn [Array_sort foldr]. rewrite sort_insert_stable, !filter_cons.
  fold (Array_sort (λ a b, created_at_or_0 b - created_at_or_0 a) l).
  by rewrite IH.
Qed.

(** ** X25: what an answer shows *)

(** X25.  When the answer to the latest query comes, the loading flag of
    the mode falls and the hook shows the files of the answer.  For a
    search (the query is not empty) they are the files found, in the order
    of the answer, and the recent files are left as they were.  Without a
    query they are the recent files, newest first: the same files, ordered
    by the time of their message from the latest to the earliest, a missing
    time counting as 0 and the files of one time staying in the order of
    the answer; the searched files are left as they were. *)
Theorem answer_is_shown (mode : Mode) (companyId : string) (searchInput : SearchInput)
    (response : Response) (s : State) :
  currentQuery s = query searchInput →
  let s' := refresh_resume mode companyId searchInput response s in
  let answer := default [] (resources response) in
  let shown := files_of mode companyId searchInput s' in
  loading s' mode = false
  ∧ (truthy (query searchInput) = true →
     shown = answer
     ∧ nextPage (searched s' (mode, companyId)) = next_page_token response
     ∧ recent s' = recent s)
  ∧ (truthy (query searchInput) = false →
     shown ≡ₚ answer
     ∧ StronglySorted newest_first shown
     ∧ (∀ t, filter (λ y, created_at_or_0 y = t) shown
             = filter (λ y, created_at_or_0 y = t) answer)
     ∧ nextPage (recent s' (mode, companyId)) = next_page_token response
     ∧ searched s' = searched s).
Proof.
  intros Hlatest s' answer shown. subst shown s'.
  unfold refresh_resume, files_of. cbn zeta.
  rewrite bool_decide_eq_false_2 by (intros Hne; by apply Hne).
  fold answer. destruct (truthy (query searchInput)); cbn [negb].
  - split; [|split; [|done]].
    + cbn [loading setLoading]. by rewrite decide_True.
    + intros _. cbn [searched setLoading setSearched results nextPage recent].
      by rewrite decide_True.
  - split; [|split; [done|]].
    + cbn [loading setLoading]. by rewrite decide_True.
    + intros _. cbn [searched setLoading setRecent results nextPage recent].
      rewrite decide_True by done. cbn [results nextPage].
      split; [apply Array_sort_Permutation|].
      split; [apply Array_sort_newest_first|].
      split; [intros t; apply Array_sort_stable|done].
Qed.

(** ** X26: the latest query wins *)

(** X26.  Two calls of [refresh], the second for another query, both
    waiting for their answer: the loading flags of their modes are up.
    The answer to the first query is dropped, whenever it comes: it changes
    nothing, before the answer to the second query or after it.  So the
    state after both answers is the one that the second answer alone
    leaves, in which the loading flag of its mode is down. *)
Theorem latest_query_wins
    (modeA modeB : Mode) (companyA companyB : string)
    (inputA inputB : SearchInput) (answerA answerB : Response) (s0 : State) :
  query inputA ≠ query inputB →
  let s1 := (refresh_call modeA inputA s0).1 in
  let s2 := (refresh_call modeB inputB s1).1 in
  let resumeA := refresh_resume modeA companyA inputA answerA in
  let resumeB := refresh_resume modeB companyB inputB answerB in
  loading s2 modeA = true ∧ loading s2 modeB = true
  ∧ resumeA s2 = s2
  ∧ resumeB (resumeA s2) = resumeB s2
  ∧ resumeA (resumeB s2) = resumeB s2
  ∧ loading (resumeB s2) modeB = false
  ∧ files_of modeB companyB inputB (resumeB s2)
    = (if truthy (query inputB)
       then default [] (resources answerB)
       else Array_sort (λ a b, created_at_or_0 b - created_at_or_0 a)
              (default [] (resources answerB))).
Proof.
  intros Hother s1 s2 resumeA resumeB.
  assert (Hcurrent : currentQuery s2 = query inputB) by done.
  assert (HresumeA : ∀ s, currentQuery s = query inputB → resumeA s = s).
  { intros s Hs. subst resumeA. unfold refresh_resume. cbn zeta.
    rewrite bool_decide_eq_true_2; [done|]. rewrite Hs. congruence. }
  assert (HcurrentB : currentQuery (resumeB s2) = query inputB).
  { subst resumeB. unfold refresh_resume. cbn zeta.
    case_bool_decide; [done|]. by destruct (truthy (query inputB)). }
  split; [|split; [|split; [|split; [|split; [|split]]]]].
  - subst s2 s1. cbn [refresh_call fst loading set_currentQuery setLoading].
    destruct (decide (modeA = modeB)); [done|]. by rewrite decide_True.
  - subst s2. cbn [refresh_call fst loading set_currentQuery setLoading].
    by rewrite decide_True.
  - by apply HresumeA.
  - by rewrite HresumeA.
  - by apply HresumeA.
  - subst resumeB. unfold refresh_resume. cbn zeta.
    rewrite bool_decide_eq_false_2 by (intros Hne; by apply Hne).
    cbn [loading setLoading]. by rewrite decide_True.
  - subst resumeB. unfold refresh_resume, files_of. cbn zeta.
    rewrite bool_decide_eq_false_2 by (intros Hne; by apply Hne).
    destruct (truthy (query inputB)); cbn [negb].
    + cbn [searched setLoading setSearched results]. by rewrite decide_True.
    + cbn [recent setLoading setRecent results]. by rewrite decide_True.
Qed.

(** ** X27: the options of the request *)

(** X27.  The request asks for 100 results and for the files in the mode
    [files], for the medias in the mode [medias], never for both.  It names
    the workspace and the channel of the search input unless they are
    [undefined]; no option is [undefined].  The query of the request is the
    text searched, or [null] when there is none. *)
Theorem options_of_the_request (mode : Mode) (searchInput : SearchInput) (s : State) :
  let request := (refresh_call mode searchInput s).2 in
  let options := request_options request in
  options !! "limit" = Some (JNum (Q2Qc (QArith_base.inject_Z 100)))
  ∧ options !! "is_file" = (if decide (mode = files) then Some (JBool true) else None)
  ∧ options !! "is_media" = (if decide (mode = medias) then Some (JBool true) else None)
  ∧ options !! "workspace_id"
    = (if is_undefined (workspaceId searchInput)
       then None else Some (value_of (workspaceId searchInput)))
  ∧ options !! "channel_id"
    = (if is_undefined (channelId searchInput)
       then None else Some (value_of (channelId searchInput)))
  ∧ (∀ key value, options !! key = Some value →
       value ≠ JUndefined
       ∧ key ∈ ["limit"; "is_file"; "is_media"; "workspace_id"; "channel_id"])
  ∧ request_query request
    = (if truthy (query searchInput) then query searchInput else Null).
Proof.
  intros request options. subst options request.
  cbn [refresh_call snd request_options request_query]. unfold opt, omitBy_isUndefined.
  split; [|split; [|split; [|split; [|split; [|split; [|done]]]]]].
  - by apply map_lookup_filter_Some_2.
  - destruct mode; rewrite map_lookup_filter; by vm_compute.
  - destruct mode; rewrite map_lookup_filter; by vm_compute.
  - rewrite map_lookup_filter.
    rewrite !lookup_insert_ne, lookup_insert_eq by done.
    by destruct (workspaceId searchInput).
  - rewrite map_lookup_filter.
    rewrite !lookup_insert_ne, lookup_insert_eq by done.
    by destruct (channelId searchInput).
  - intros key value Hget. apply map_lookup_filter_Some in Hget as [Hget Hdefined].
    split; [done|].
    repeat (apply lookup_insert_Some in Hget as [[<- _]|[_ Hget]];
            [set_solver|]).
    done.
Qed.

End SearchOfFiles.

(** The recent files of the sample answer. *)
Lemma answer_is_shown_witness :
  let s' :=
    SearchFiles.refresh_resume SearchFiles.files "c1" (SearchFiles.sample_input "")
      SearchFiles.sample_response SearchFiles.sample_state in
  let shown := SearchFiles.files_of SearchFiles.files "c1" (SearchFiles.sample_input "") s' in
  shown = [ SearchFiles.sample_file "f3" (Value 30);
            SearchFiles.sample_file "f1" (Value 10);
            SearchFiles.sample_file "f4" (Value 10);
            {| SearchFiles.message := None; SearchFiles.rest := JStr "f2" |} ]
  ∧ SearchFiles.loading s' SearchFiles.files = false
  ∧ StronglySorted SearchFiles.newest_first shown
  ∧ SearchFiles.searched s' = SearchFiles.searched SearchFiles.sample_state.
Proof.
  intros s' shown.
  destruct (answer_is_shown SearchFiles.files "c1" (SearchFiles.sample_input "")
              SearchFiles.sample_response SearchFiles.sample_state eq_refl)
    as (Hdown & _ & Hrecent).
  destruct (Hrecent eq_refl) as (_ & Hsorted & _ & _ & Hsearched).
  split; [vm_compute; reflexivity|]. split; [exact Hdown|].
  split; [exact Hsorted|exact Hsearched].
Defined.

(** The recent files are asked for, then the files for "report"; the
    answers come in the other order. *)
Lemma latest_query_wins_witness :
  let s1 :=
    (SearchFiles.refresh_call SearchFiles.files (SearchFiles.sample_input "")
       SearchFiles.sample_state).1 in
  let s2 :=
    (SearchFiles.refresh_call SearchFiles.files (SearchFiles.sample_input "report") s1).1 in
  let resumeA :=
    SearchFiles.refresh_resume SearchFiles.files "c1" (SearchFiles.sample_input "")
      SearchFiles.sample_response in
  let resumeB :=
    SearchFiles.refresh_resume SearchFiles.files "c1" (SearchFiles.sample_input "report")
      SearchFiles.sample_response in
  resumeA (resumeB s2) = resumeB s2
  ∧ resumeB (resumeA s2) = resumeB s2
  ∧ SearchFiles.loading (resumeB s2) SearchFiles.files = false
  ∧ SearchFiles.files_of SearchFiles.files "c1" (SearchFiles.sample_input "report")
      (resumeB s2)
    = default [] (SearchFiles.resources SearchFiles.sample_response).
Proof.
  intros s1 s2 resumeA resumeB.
  destruct (latest_query_wins SearchFiles.files SearchFiles.files "c1" "c1"
              (SearchFiles.sample_input "") (SearchFiles.sample_input "report")
              SearchFiles.sample_response SearchFiles.sample_response
              SearchFiles.sample_state)
    as (_ & _ & _ & Hfirst & Hlast & Hdown & Hshown); [done|].
  split; [exact Hlast|]. split; [exact Hfirst|]. split; [exact Hdown|exact Hshown].
Defined.
